(** * InterviewAI: resume structuring, question parsing, answer evaluation
      and report aggregation

    A shallow embedding of the pure text-processing and aggregation code of
    the InterviewAI modules

      - [modules/evaluator.py]          ([Evaluator])
      - [modules/report_generator.py]   ([ReportGenerator])
      - [modules/resume_parser.py]      ([ResumeParser])
      - [modules/question_generator.py] ([QuestionGenerator])

    together with the Python string primitives they rely on ([Py]).  The
    rest of [resume_parser.py] (skills, contact information, file
    dispatch) is in [ResumeReader], with the matchers its patterns need in
    [PyRegex]; the candidate block of the report is in [CandidateInfo].

    Modelling conventions.
      - A Python [str] is a Rocq [string]; a character is a code point below
        256 (Latin-1), so [isspace], [isdigit] and [lower] are the
        restrictions of Python's predicates to that range.
      - A Python [float] is a finite binary64 number, given by the
        rational ([Q]) that it denotes.  In the evaluator every operation
        on floats ([float(s)], [+], [/], [round(x, 2)]) computes the exact
        result and rounds it to the nearest binary64 number, ties to even
        ([Py.binary64]), as IEEE 754 and CPython do.  Overflow is not
        modelled: a result of magnitude [2^1024] or more is infinite in
        Python and a rational here, so the statements about the value of
        a result say which magnitudes they cover.  The means that the
        report generator takes of at most two averages are exact
        rationals.  The thresholds the code compares against (4.0, 5.0,
        5.5, 6.0, 6.5, 7.0, 8.0, 8.5) are binary64 numbers, so the
        comparisons are exact.  Equality of numbers is [Qeq].
      - The two regular expressions of the sources are run by backtracking
        matchers that follow the semantics of Python's [re].
      - A [dict] used as a record with a fixed set of keys is a [Record]; the
        [sections] dictionary of the resume parser is a [gmap string string].
      - The language model behind [generate_content] is an oracle threading
        an abstract world; a raised exception is the right injection of a
        sum, carrying the message.  Logging is not modelled.
      - [utils/custom_exception.py] is not among the sources: the text of
        a [CustomException] is taken to be the message it was built with.
      - The PDF and DOCX libraries are oracles from a path to the texts of
        the pages or paragraphs, or to an exception. *)

From Stdlib Require Import Ascii String QArith Qround Qabs Qpower Lqa Sorted.
From stdpp Require Import gmap strings list fin_maps.

Open Scope string_scope.

(* ===================================================================== *)
(** * Python string primitives *)
(* ===================================================================== *)

Module Py.

Definition LF : ascii := "010"%char.

(** [c.isspace()] for a code point below 256: TAB, LF, VT, FF, CR,
    the separators FS, GS, RS, US, SPACE, NEL and NBSP. *)
Definition isspace (c : ascii) : bool :=
  let n := nat_of_ascii c in
  (((9 <=? n) && (n <=? 13)) || ((28 <=? n) && (n <=? 32))
   || (n =? 133) || (n =? 160))%nat.

(** [\d] below 256: the ten ASCII digits. *)
Definition isdigit (c : ascii) : bool :=
  let n := nat_of_ascii c in ((48 <=? n) && (n <=? 57))%nat.

(** [c.lower()] below 256: A-Z, and the Latin-1 capitals except the
    multiplication sign, move up by 32. *)
Definition lower_char (c : ascii) : ascii :=
  let n := nat_of_ascii c in
  if (((65 <=? n) && (n <=? 90))
      || ((192 <=? n) && (n <=? 222) && negb (n =? 215)))%nat
  then ascii_of_nat (n + 32) else c.

Fixpoint lower (s : string) : string :=
  match s with
  | EmptyString => EmptyString
  | String c s' => String (lower_char c) (lower s')
  end.

Definition is_empty (s : string) : bool :=
  match s with EmptyString => true | _ => false end.

Fixpoint lstrip (s : string) : string :=
  match s with
  | EmptyString => EmptyString
  | String c s' => if isspace c then lstrip s' else s
  end.

Fixpoint rstrip (s : string) : string :=
  match s with
  | EmptyString => EmptyString
  | String c s' =>
      let r := rstrip s' in
      if isspace c && is_empty r then EmptyString else String c r
  end.

(** [s.strip()] *)
Definition strip (s : string) : string := rstrip (lstrip s).

(** [s.startswith(p)] *)
Definition startswith (p s : string) : bool := String.prefix p s.

(** [needle in hay] *)
Fixpoint contains (needle hay : string) : bool :=
  String.prefix needle hay
  || match hay with
     | EmptyString => false
     | String _ hay' => contains needle hay'
     end.

(** [s.split(sep)] for a one-character separator. *)
Fixpoint split (sep : ascii) (s : string) : list string :=
  match s with
  | EmptyString => [EmptyString]
  | String c s' =>
      if Ascii.eqb c sep then EmptyString :: split sep s'
      else match split sep s' with
           | h :: t => String c h :: t
           | [] => [String c EmptyString]
           end
  end.

(** [s.split()]: maximal runs of non-whitespace characters. *)
Fixpoint split_ws (s : string) : list string :=
  match s with
  | EmptyString => []
  | String c s' =>
      if isspace c then split_ws s'
      else match s' with
           | EmptyString => [String c EmptyString]
           | String c' _ =>
               if isspace c' then String c EmptyString :: split_ws s'
               else match split_ws s' with
                    | h :: t => String c h :: t
                    | [] => [String c EmptyString]
                    end
           end
  end.

(** [sep.join(l)] *)
Definition join (sep : string) (l : list string) : string :=
  String.concat sep l.

(** [s.replace(old, new)] for a non-empty [old] (the only use in the
    sources): occurrences are found left to right and do not overlap.
    [skip] counts the characters of a matched occurrence still to drop. *)
Fixpoint replace_from (skip : nat) (old new s : string) : string :=
  match s with
  | EmptyString => EmptyString
  | String c s' =>
      match skip with
      | S k => replace_from k old new s'
      | O =>
          if String.prefix old s
          then new ++ replace_from (String.length old - 1) old new s'
          else String c (replace_from O old new s')
      end
  end.

Definition replace (old new s : string) : string :=
  replace_from O old new s.

(** Maximal prefix of characters in the class [p], and what follows it. *)
Fixpoint span (p : ascii -> bool) (s : string) : string * string :=
  match s with
  | EmptyString => (EmptyString, EmptyString)
  | String c s' =>
      if p c
      then let '(d, r) := span p s' in (String c d, r)
      else (EmptyString, s)
  end.

Definition span_digits : string -> string * string := span isdigit.

(** ** Regular expressions

    The two patterns of the sources are built from the matchers below,
    which follow the backtracking semantics of Python's [re]: a matcher
    receives the text consumed so far, the remaining input and a
    continuation for the rest of the pattern, and tries its alternatives in
    order of preference (greedy first) until the continuation succeeds. *)

Definition re_cont (A : Type) : Type := string -> string -> option A.

Definition re (A : Type) : Type := string -> string -> re_cont A -> option A.

(** One character of the class [p]. *)
Definition re_char {A} (p : ascii -> bool) : re A :=
  fun acc s k =>
    match s with
    | String c s' => if p c then k (acc ++ String c "") s' else None
    | EmptyString => None
    end.

(** [p*], greedy: one more character is tried before stopping. *)
Fixpoint re_star_char {A} (p : ascii -> bool) (acc s : string)
    (k : re_cont A) : option A :=
  match s with
  | String c s' =>
      if p c then
        match re_star_char p (acc ++ String c "") s' k with
        | Some x => Some x
        | None => k acc s
        end
      else k acc s
  | EmptyString => k acc s
  end.

(** [p+] *)
Definition re_plus_char {A} (p : ascii -> bool) : re A :=
  fun acc s k => re_char p acc s (fun acc' s' => re_star_char p acc' s' k).

(** [r1 r2] *)
Definition re_seq {A} (r1 r2 : re A) : re A :=
  fun acc s k => r1 acc s (fun acc' s' => r2 acc' s' k).

(** [(?:r)?], greedy: the group is tried before its absence. *)
Definition re_opt {A} (r : re A) : re A :=
  fun acc s k =>
    match r acc s k with
    | Some x => Some x
    | None => k acc s
    end.

(** The input without the prefix [l], when it starts with it. *)
Fixpoint strip_prefix (l s : string) : option string :=
  match l with
  | EmptyString => Some s
  | String a l' =>
      match s with
      | String b s' => if Ascii.eqb a b then strip_prefix l' s' else None
      | EmptyString => None
      end
  end.

(** A literal. *)
Definition re_lit {A} (l : string) : re A :=
  fun acc s k =>
    match strip_prefix l s with
    | Some s' => k (acc ++ l) s'
    | None => None
    end.

Definition digit_value (c : ascii) : Z := Z.of_nat (nat_of_ascii c - 48).

(** [int(s)] for a string of digits, most significant first. *)
Fixpoint digits_value (acc : Z) (s : string) : Z :=
  match s with
  | EmptyString => acc
  | String c s' => digits_value (10 * acc + digit_value c)%Z s'
  end.

(** ** Floating-point numbers

    A [float] is a binary64 number, given by the rational it denotes.
    Every operation computes the exact rational result and rounds it to
    the nearest binary64 number, ties to the even significand. *)

(** Round to the nearest integer, ties to even. *)
Definition round_half_even (x : Q) : Z :=
  let f := Qfloor x in
  match (x - inject_Z f ?= 1 # 2)%Q with
  | Lt => f
  | Gt => (f + 1)%Z
  | Eq => if Z.even f then f else (f + 1)%Z
  end.

(** The exponent [l] with [2^l <= |x| < 2^(l+1)], for [x] other than 0. *)
Definition binade (x : Q) : Z :=
  let k := (Z.log2 (Z.abs (Qnum x)) - Z.log2 (Zpos (Qden x)))%Z in
  if Qle_bool (2 ^ k) (Qabs x) then k else (k - 1)%Z.

(** The exponent of the unit in the last place of the binary64 numbers
    around [x]: 53 significant bits, and no exponent below that of the
    subnormal numbers. *)
Definition ulp_exponent (x : Q) : Z := Z.max (binade x - 52) (-1074).

(** The binary64 number nearest to [x], ties to even. *)
Definition binary64 (x : Q) : Q :=
  if Qeq_bool x 0 then 0%Q
  else
    let e := ulp_exponent x in
    Qred (inject_Z (round_half_even (x / 2 ^ e)) * 2 ^ e).

(** [a + b] and [a / b] on floats. *)
Definition float_add (a b : Q) : Q := binary64 (a + b).

Definition float_div (a b : Q) : Q := binary64 (a / b).

(** [float(s)] on the unsigned decimal literals [ddd] and [ddd.ddd]: the
    binary64 number nearest to the decimal number.
    On anything else the result is [None]: Python raises [ValueError]
    there or accepts richer forms (signs, exponents, [inf]) that no caller
    in the sources can produce. *)
Definition float (s : string) : option Q :=
  let '(ip, r) := span_digits s in
  if is_empty ip then None
  else match r with
       | EmptyString => Some (binary64 (digits_value 0 ip # 1))
       | String c r' =>
           if Ascii.eqb c "."%char then
             let '(fp, r'') := span_digits r' in
             if is_empty fp || negb (is_empty r'') then None
             else Some (binary64
                          (digits_value 0 (ip ++ fp)
                           # Pos.pow 10 (Pos.of_nat (String.length fp))))
           else None
       end.

(** [round(x, 2)]: the exact value of the float is rounded to the nearest
    multiple of 1/100, ties to even, and the result is the float nearest
    to that decimal number. *)
Definition round2 (x : Q) : Q :=
  binary64 (round_half_even (x * 100) # 100).

(** [sum(l)]: a left fold starting from 0, in exact arithmetic. *)
Definition sum (l : list Q) : Q := fold_left Qplus l 0%Q.

End Py.

(** Exceptions: a computation either returns a value or raises with a
    message. *)
Inductive result (A : Type) : Type :=
| Ok (a : A)
| Raise (msg : string).
Arguments Ok {A} a.
Arguments Raise {A} msg.

(* ===================================================================== *)
(** * modules/evaluator.py *)
(* ===================================================================== *)

Module Evaluator.

Import Py.

(** The dictionary built by [_parse_evaluation]. *)
Record Evaluation : Type := mkEvaluation {
  score : Q;
  strengths : list string;
  areas_for_improvement : list string;
  feedback : string;
  overall_assessment : string
}.

(** The values taken by [current_section] once it is not [None]. *)
Inductive section_tag : Type :=
| SecStrengths
| SecAreas
| SecFeedback
| SecOverall.

(** Group 1 of the score pattern: [\d+(?:\.\d+)?]. *)
Definition score_group {A} : re A :=
  re_seq (re_plus_char isdigit)
         (re_opt (re_seq (re_lit ".") (re_plus_char isdigit))).

(** One attempt of the pattern [(\d+(?:\.\d+)?)/10] at the head of [s],
    returning group 1. *)
Definition match_score_here (s : string) : option string :=
  score_group "" s
    (fun group1 rest => re_lit "/10" group1 rest (fun _ _ => Some group1)).

(** [re.search(r'(\d+(?:\.\d+)?)/10', line)], as [group(1)] of the
    leftmost match. *)
Fixpoint search_score (s : string) : option string :=
  match match_score_here s with
  | Some g => Some g
  | None =>
      match s with
      | EmptyString => None
      | String _ s' => search_score s'
      end
  end.

(** [[item.strip() for item in content.split(',')]] *)
Definition comma_items (content : string) : list string :=
  map strip (split ","%char content).

Definition initial_evaluation : Evaluation :=
  {| score := 0; strengths := []; areas_for_improvement := [];
     feedback := ""; overall_assessment := "" |}.

Definition parse_state : Type := (Evaluation * option section_tag)%type.

(** The body of the [for line in lines] loop of [_parse_evaluation]. *)
Definition parse_line (st : parse_state) (raw : string)
  : result parse_state :=
  let '(ev, current_section) := st in
  let line := strip raw in
  if is_empty line then Ok st
  else if startswith "Score:" line then
    match search_score line with
    | Some g =>
        match float g with
        | Some x =>
            Ok ({| score := x; strengths := strengths ev;
                   areas_for_improvement := areas_for_improvement ev;
                   feedback := feedback ev;
                   overall_assessment := overall_assessment ev |},
                current_section)
        | None =>
            Raise ("could not convert string to float: '" ++ g ++ "'")
        end
    | None => Ok st
    end
  else if startswith "Strengths:" line then
    let content := strip (replace "Strengths:" "" line) in
    Ok ({| score := score ev;
           strengths := if is_empty content then strengths ev
                        else comma_items content;
           areas_for_improvement := areas_for_improvement ev;
           feedback := feedback ev;
           overall_assessment := overall_assessment ev |},
        Some SecStrengths)
  else if startswith "Areas for Improvement:" line then
    let content := strip (replace "Areas for Improvement:" "" line) in
    Ok ({| score := score ev; strengths := strengths ev;
           areas_for_improvement :=
             if is_empty content then areas_for_improvement ev
             else comma_items content;
           feedback := feedback ev;
           overall_assessment := overall_assessment ev |},
        Some SecAreas)
  else if startswith "Feedback:" line then
    Ok ({| score := score ev; strengths := strengths ev;
           areas_for_improvement := areas_for_improvement ev;
           feedback := strip (replace "Feedback:" "" line);
           overall_assessment := overall_assessment ev |},
        Some SecFeedback)
  else if startswith "Overall Assessment:" line then
    Ok ({| score := score ev; strengths := strengths ev;
           areas_for_improvement := areas_for_improvement ev;
           feedback := feedback ev;
           overall_assessment :=
             strip (replace "Overall Assessment:" "" line) |},
        Some SecOverall)
  else
    match current_section with
    | Some SecStrengths =>
        Ok ({| score := score ev;
               strengths := (strengths ev ++ comma_items line)%list;
               areas_for_improvement := areas_for_improvement ev;
               feedback := feedback ev;
               overall_assessment := overall_assessment ev |},
            current_section)
    | Some SecAreas =>
        Ok ({| score := score ev; strengths := strengths ev;
               areas_for_improvement :=
                 (areas_for_improvement ev ++ comma_items line)%list;
               feedback := feedback ev;
               overall_assessment := overall_assessment ev |},
            current_section)
    | Some SecFeedback =>
        Ok ({| score := score ev; strengths := strengths ev;
               areas_for_improvement := areas_for_improvement ev;
               feedback := feedback ev ++ " " ++ line;
               overall_assessment := overall_assessment ev |},
            current_section)
    | Some SecOverall =>
        Ok ({| score := score ev; strengths := strengths ev;
               areas_for_improvement := areas_for_improvement ev;
               feedback := feedback ev;
               overall_assessment := overall_assessment ev ++ " " ++ line |},
            current_section)
    | None => Ok st
    end.

Fixpoint parse_lines (st : parse_state) (lines : list string)
  : result parse_state :=
  match lines with
  | [] => Ok st
  | raw :: rest =>
      match parse_line st raw with
      | Ok st' => parse_lines st' rest
      | Raise msg => Raise msg
      end
  end.

Definition _parse_evaluation (evaluation_text : string)
  : result Evaluation :=
  match parse_lines (initial_evaluation, None) (split LF evaluation_text) with
  | Ok (evaluation, _) => Ok evaluation
  | Raise msg => Raise msg
  end.

(** [_get_performance_level] *)
Definition _get_performance_level (score : Q) : string :=
  if Qle_bool 8.5 score then "Excellent"
  else if Qle_bool 7.0 score then "Good"
  else if Qle_bool 5.5 score then "Average"
  else if Qle_bool 4.0 score then "Below Average"
  else "Needs Improvement".

(** [Counter(l)]: the distinct items in first-seen order, each with its
    number of occurrences. *)
Fixpoint counter_add (x : string) (c : list (string * nat))
  : list (string * nat) :=
  match c with
  | [] => [(x, 1)]
  | (y, n) :: c' =>
      if String.eqb x y then (y, S n) :: c' else (y, n) :: counter_add x c'
  end.

Definition counter (l : list string) : list (string * nat) :=
  fold_left (fun c x => counter_add x c) l [].

(** Stable insertion by decreasing count: an item goes before the first
    one whose count does not exceed its own. *)
Fixpoint insert_by_count (x : string * nat) (sorted : list (string * nat))
  : list (string * nat) :=
  match sorted with
  | [] => [x]
  | y :: t =>
      if (snd y <=? snd x)%nat then x :: y :: t
      else y :: insert_by_count x t
  end.

(** [Counter.most_common(n)], which is
    [sorted(items, key=count, reverse=True)[:n]]; the sort is stable. *)
Definition most_common (n : nat) (c : list (string * nat))
  : list (string * nat) :=
  take n (fold_right insert_by_count [] c).

(** [_generate_overall_feedback] *)
Definition _generate_overall_feedback
    (evaluations : list Evaluation) (average_score : Q) : string :=
  match evaluations with
  | [] => "No evaluations available."
  | _ =>
      let all_strengths := concat (map strengths evaluations) in
      let all_improvements :=
        concat (map areas_for_improvement evaluations) in
      let common_strengths := most_common 3 (counter all_strengths) in
      let common_improvements := most_common 3 (counter all_improvements) in
      let strengths_part :=
        match common_strengths with
        | [] => []
        | _ => ["Key strengths: " ++ join ", " (map fst common_strengths)]
        end in
      let improvements_part :=
        match common_improvements with
        | [] => []
        | _ => ["Areas to focus on: "
                ++ join ", " (map fst common_improvements)]
        end in
      let performance_part :=
        ["Overall performance: " ++ _get_performance_level average_score] in
      let feedback_parts :=
        (strengths_part ++ improvements_part ++ performance_part)%list in
      join ". " feedback_parts ++ "."
  end.

(** One entry of [questions_answers]: the keys [question] and [answer],
    and the optional key [type]. *)
Record QA : Type := mkQA {
  qa_question : string;
  qa_answer : string;
  qa_type : option string
}.

(** The dictionary returned by [evaluate_interview_round]. *)
Record RoundEvaluation : Type := mkRoundEvaluation {
  evaluations : list Evaluation;
  average_score : Q;
  total_questions : nat;
  overall_feedback : string;
  performance_level : string
}.

(** [EVALUATION_PROMPT.format(question=..., answer=..., question_type=...)]
    (config/prompts.py). *)
Definition EVALUATION_PROMPT (question answer question_type : string)
  : string :=
  join (String LF "")
    [ "";
      "Evaluate the following interview answer and provide a detailed assessment.";
      "";
      "Question: " ++ question;
      "Answer: " ++ answer;
      "Question Type: " ++ question_type;
      "";
      "Please provide:";
      "1. A score from 1-10 (where 10 is excellent)";
      "2. Strengths of the answer";
      "3. Areas for improvement";
      "4. Specific feedback";
      "5. Overall assessment";
      "";
      "Format your response as:";
      "Score: X/10";
      "Strengths: [list strengths]";
      "Areas for Improvement: [list areas for improvement]";
      "Feedback: [detailed feedback]";
      "Overall Assessment: [summary assessment]";
      "" ].

Section WithModel.

(** The state of everything outside the program that a call to the language
    model may read or change. *)
Variable World : Type.

(** [self.model.generate_content(prompt).text]: the completion, or an
    exception. *)
Variable generate_content : string -> World -> result string * World.

(** Computations that may call the model and may raise. *)
Definition M (A : Type) : Type := World -> result A * World.

Definition ret {A} (a : A) : M A := fun w => (Ok a, w).

Definition bind {A B} (m : M A) (k : A -> M B) : M B :=
  fun w =>
    match m w with
    | (Ok a, w') => k a w'
    | (Raise msg, w') => (Raise msg, w')
    end.

Definition lift {A} (r : result A) : M A := fun w => (r, w).

(** [try: m  except Exception as e: raise CustomException(prefix + str(e))] *)
Definition reraise {A} (prefix : string) (m : M A) : M A :=
  fun w =>
    match m w with
    | (Ok a, w') => (Ok a, w')
    | (Raise msg, w') => (Raise (prefix ++ msg), w')
    end.

Notation "x <- m ;; k" := (bind m (fun x => k))
  (at level 100, m at next level, right associativity).

(** [evaluate_answer] *)
Definition evaluate_answer (question answer question_type : string)
  : M Evaluation :=
  reraise "Failed to evaluate answer: "
    (let prompt := EVALUATION_PROMPT question answer question_type in
     text <- generate_content prompt ;;
     let evaluation_text := strip text in
     evaluation <- lift (_parse_evaluation evaluation_text) ;;
     ret evaluation).

(** The [for qa in questions_answers] loop of [evaluate_interview_round],
    with its two accumulators. *)
Fixpoint evaluate_pairs (questions_answers : list QA)
    (evaluations : list Evaluation) (total_score : Q)
  : M (list Evaluation * Q) :=
  match questions_answers with
  | [] => ret (evaluations, total_score)
  | qa :: rest =>
      evaluation <- evaluate_answer (qa_question qa) (qa_answer qa)
                      (default "Unknown" (qa_type qa)) ;;
      evaluate_pairs rest (evaluations ++ [evaluation])%list
        (float_add total_score (score evaluation))
  end.

(** [evaluate_interview_round] *)
Definition evaluate_interview_round (questions_answers : list QA)
  : M RoundEvaluation :=
  reraise "Failed to evaluate interview round: "
    (acc <- evaluate_pairs questions_answers [] 0%Q ;;
     let '(evaluations, total_score) := acc in
     let average_score :=
       match questions_answers with
       | [] => 0%Q
       | _ => float_div total_score
                (inject_Z (Z.of_nat (length questions_answers)))
       end in
     let overall_feedback :=
       _generate_overall_feedback evaluations average_score in
     ret {| evaluations := evaluations;
            average_score := round2 average_score;
            total_questions := length questions_answers;
            overall_feedback := overall_feedback;
            performance_level := _get_performance_level average_score |}).

End WithModel.

Arguments ret {World A} a.
Arguments evaluate_answer {World} generate_content.
Arguments evaluate_pairs {World} generate_content.
Arguments evaluate_interview_round {World} generate_content.

(** A model that replays a fixed script of completions, one per call, and
    raises once the script is exhausted. *)
Definition scripted (prompt : string) (script : list string)
  : result string * list string :=
  match script with
  | [] => (Raise "no response", [])
  | text :: rest => (Ok text, rest)
  end.

(** A model that always answers with the same completion. *)
Definition constant_model (text : string) (prompt : string) (w : unit)
  : result string * unit := (Ok text, w).

(** A model with a quota: the world counts the calls, the first [quota]
    calls are answered with the same completion and the later ones
    raise. *)
Definition metered (quota : nat) (text : string) (prompt : string)
    (calls : nat) : result string * nat :=
  (if (calls <? quota)%nat then Ok text else Raise "quota exceeded",
   S calls).

End Evaluator.

(* ===================================================================== *)
(** * modules/report_generator.py *)
(* ===================================================================== *)

Module ReportGenerator.

Import Py.
Import Evaluator.

(** The dictionary built by [_create_interview_summary].  [average_scores]
    and [performance_levels] keep their entries in insertion order. *)
Record InterviewSummary : Type := mkInterviewSummary {
  summary_total_questions : nat;
  average_scores : list (string * Q);
  performance_levels : list (string * string);
  rounds_completed : list string;
  overall_average : Q
}.

(** The dictionary built by [_create_overall_assessment]. *)
Record OverallAssessment : Type := mkOverallAssessment {
  overall_score : Q;
  assessment_strengths : list string;
  assessment_areas_for_improvement : list string;
  recommendation : string
}.

(** Truth value of a number: [bool(x)]. *)
Definition truthy (x : Q) : bool := negb (Qeq_bool x 0).

(** [sum(l) / len(l)], in exact arithmetic; the lists of the report hold
    at most two averages. *)
Definition sum_over_len (l : list Q) : Q :=
  (sum l / inject_Z (Z.of_nat (length l)))%Q.

(** [_create_interview_summary].  An argument is a round evaluation as
    returned by [evaluate_interview_round], or [None]; such a dictionary is
    never empty and has every key, so [if hr_evaluation:] tests for [None]
    and the defaults of [.get] are not used. *)
Definition _create_interview_summary
    (hr_evaluation technical_evaluation : option RoundEvaluation)
  : InterviewSummary :=
  let hr_total := from_option total_questions 0%nat hr_evaluation in
  let hr_scores :=
    from_option (fun r => [("hr_round", average_score r)]) []
      hr_evaluation in
  let hr_levels :=
    from_option (fun r => [("hr_round", performance_level r)]) []
      hr_evaluation in
  let hr_rounds := from_option (fun _ => ["HR Round"]) [] hr_evaluation in
  let tech_total := from_option total_questions 0%nat technical_evaluation in
  let tech_scores :=
    from_option (fun r => [("technical_round", average_score r)]) []
      technical_evaluation in
  let tech_levels :=
    from_option (fun r => [("technical_round", performance_level r)]) []
      technical_evaluation in
  let tech_rounds :=
    from_option (fun _ => ["Technical Round"]) [] technical_evaluation in
  let scores := (hr_scores ++ tech_scores)%list in
  {| summary_total_questions := (hr_total + tech_total)%nat;
     average_scores := scores;
     performance_levels := (hr_levels ++ tech_levels)%list;
     rounds_completed := (hr_rounds ++ tech_rounds)%list;
     overall_average :=
       match scores with
       | [] => 0%Q
       | _ => sum_over_len (map snd scores)
       end |}.

(** The [scores] list of [_create_overall_assessment]: a round contributes
    when it is present and its [average_score] is truthy. *)
Definition assessment_scores
    (hr_evaluation technical_evaluation : option RoundEvaluation)
  : list Q :=
  let hr :=
    match hr_evaluation with
    | Some r => if truthy (average_score r) then [average_score r] else []
    | None => []
    end in
  let tech :=
    match technical_evaluation with
    | Some r => if truthy (average_score r) then [average_score r] else []
    | None => []
    end in
  (hr ++ tech)%list.

(** The [if / elif] chain on [assessment['overall_score']]. *)
Definition recommendation_of (overall_score : Q) : string :=
  if Qle_bool 8.0 overall_score
  then "Strong candidate - Highly recommended"
  else if Qle_bool 6.5 overall_score
  then "Good candidate - Recommended"
  else if Qle_bool 5.0 overall_score
  then "Average candidate - Consider for specific roles"
  else "Needs improvement - Not recommended at this time".

(** [_create_overall_assessment] *)
Definition _create_overall_assessment
    (hr_evaluation technical_evaluation : option RoundEvaluation)
  : OverallAssessment :=
  let scores := assessment_scores hr_evaluation technical_evaluation in
  let overall :=
    match scores with
    | [] => 0%Q
    | _ => sum_over_len scores
    end in
  {| overall_score := overall;
     assessment_strengths := [];
     assessment_areas_for_improvement := [];
     recommendation := recommendation_of overall |}.

(** [_generate_recommendations] *)
Definition _generate_recommendations
    (hr_evaluation technical_evaluation : option RoundEvaluation)
  : list string :=
  let hr :=
    match hr_evaluation with
    | Some r =>
        if negb (Qle_bool 6.0 (average_score r))
        then ["Focus on improving communication and interpersonal skills";
              "Practice behavioral interview questions"]
        else []
    | None => []
    end in
  let tech :=
    match technical_evaluation with
    | Some r =>
        if negb (Qle_bool 6.0 (average_score r))
        then ["Strengthen technical knowledge in core areas";
              "Practice coding problems and system design questions"]
        else []
    | None => []
    end in
  match (hr ++ tech)%list with
  | [] => ["Continue building on current strengths";
           "Consider advanced training in specialized areas"]
  | recommendations => recommendations
  end.

End ReportGenerator.

(* ===================================================================== *)
(** * modules/resume_parser.py *)
(* ===================================================================== *)

Module ResumeParser.

Import Py.

Definition section_headers : list string :=
  [ "experience"; "work experience"; "employment";
    "education"; "academic background";
    "skills"; "technical skills"; "core competencies";
    "projects"; "personal projects";
    "certifications"; "certificates";
    "summary"; "objective"; "profile" ].

(** The test of the inner [for header in section_headers] loop. *)
Definition header_matches (line header : string) : bool :=
  contains (lower header) (lower line)
  && (length (split_ws line) <=? 3)%nat.

(** The first header, in list order, that the line matches: the loop stops
    at it with [break]. *)
Definition detect_header (line : string) : option string :=
  List.find (header_matches line) section_headers.

(** [sections], [current_section], [current_content]. *)
Definition scan_state : Type :=
  (gmap string string * string * list string)%type.

(** [if current_content: sections[current_section] = '\n'.join(...)] *)
Definition save_section (sections : gmap string string)
    (current_section : string) (current_content : list string)
  : gmap string string :=
  match current_content with
  | [] => sections
  | _ => <[current_section := join (String LF "") current_content]> sections
  end.

(** The body of the [for line in lines] loop of [_parse_sections]. *)
Definition scan_line (st : scan_state) (raw : string) : scan_state :=
  let '(sections, current_section, current_content) := st in
  let line := strip raw in
  if is_empty line then st
  else match detect_header line with
       | Some header =>
           (save_section sections current_section current_content,
            lower header, [])
       | None =>
           (sections, current_section, (current_content ++ [line])%list)
       end.

Definition scan_lines (st : scan_state) (lines : list string) : scan_state :=
  fold_left scan_line lines st.

(** The part of [_parse_sections] after the text is split into lines. *)
Definition parse_section_lines (lines : list string) : gmap string string :=
  let '(sections, current_section, current_content) :=
    scan_lines (∅, "other", []) lines in
  save_section sections current_section current_content.

(** [_parse_sections] *)
Definition _parse_sections (text : string) : gmap string string :=
  parse_section_lines (split LF text).

End ResumeParser.

(* ===================================================================== *)
(** * modules/question_generator.py *)
(* ===================================================================== *)

Module QuestionGenerator.

Import Py.

(** One entry of the list returned by [_parse_questions]. *)
Record Question : Type := mkQuestion {
  question : string;
  question_type : string;
  difficulty : string;
  category : string
}.

(** [any(word in text for word in words)] *)
Definition any_in (words : list string) (text : string) : bool :=
  existsb (fun word => contains word text) words.

(** [_assess_difficulty] *)
Definition _assess_difficulty (question : string) : string :=
  let question_lower := lower question in
  if any_in ["explain"; "describe"; "analyze"; "compare"; "evaluate"]
       question_lower
  then "Hard"
  else if any_in ["what"; "how"; "why"; "when"; "where"] question_lower
  then "Medium"
  else "Easy".

(** [_categorize_question] *)
Definition _categorize_question (question question_type : string) : string :=
  let question_lower := lower question in
  if String.eqb question_type "HR" then
    if any_in ["team"; "teamwork"; "collaboration"] question_lower
    then "Teamwork"
    else if any_in ["lead"; "leadership"; "manage"] question_lower
    then "Leadership"
    else if any_in ["problem"; "challenge"; "difficult"] question_lower
    then "Problem Solving"
    else if any_in ["goal"; "career"; "future"] question_lower
    then "Career Goals"
    else "General HR"
  else
    if any_in ["code"; "programming"; "algorithm"] question_lower
    then "Programming"
    else if any_in ["database"; "sql"; "data"] question_lower
    then "Database"
    else if any_in ["system"; "architecture"; "design"] question_lower
    then "System Design"
    else if any_in ["framework"; "library"; "tool"] question_lower
    then "Frameworks & Tools"
    else "General Technical".

(** The pattern [\d+\.\s*]. *)
Definition numbering {A} : re A :=
  re_seq (re_plus_char isdigit) (re_seq (re_lit ".") (re_star_char isspace)).

(** [re.sub(r'^\d+\.\s*', '', line)]: the pattern is anchored at the start
    of the string and cannot match the empty string, so at most one
    occurrence, a prefix of the line, is removed. *)
Definition strip_numbering (line : string) : string :=
  match numbering "" line (fun _ rest => Some rest) with
  | Some rest => rest
  | None => line
  end.

Definition make_question (question_type line : string) : Question :=
  {| question := line;
     question_type := question_type;
     difficulty := _assess_difficulty line;
     category := _categorize_question line question_type |}.

(** The body of the [for line in lines] loop of [_parse_questions]. *)
Definition parse_question_line (question_type : string)
    (questions : list Question) (raw : string) : list Question :=
  let line := strip raw in
  if is_empty line then questions
  else
    let line := strip_numbering line in
    if negb (is_empty line) && (10 <? String.length line)%nat
    then (questions ++ [make_question question_type line])%list
    else questions.

(** [_parse_questions] *)
Definition _parse_questions (questions_text question_type : string)
  : list Question :=
  fold_left (parse_question_line question_type) (split LF questions_text) [].

End QuestionGenerator.

(* ===================================================================== *)
(** * More of Python's [re] *)
(* ===================================================================== *)

Module PyRegex.

Import Py.

(** [\w] for a code point below 256: the ASCII letters and digits, the
    underscore, and the Latin-1 letters and numeric characters. *)
Definition isword (c : ascii) : bool :=
  let n := nat_of_ascii c in
  (((48 <=? n) && (n <=? 57)) || ((65 <=? n) && (n <=? 90))
   || (n =? 95) || ((97 <=? n) && (n <=? 122))
   || (n =? 170) || (n =? 178) || (n =? 179) || (n =? 181)
   || (n =? 185) || (n =? 186) || ((188 <=? n) && (n <=? 190))
   || ((192 <=? n) && (n <=? 214)) || ((216 <=? n) && (n <=? 246))
   || ((248 <=? n) && (n <=? 255)))%nat.

Fixpoint last_char (s : string) : option ascii :=
  match s with
  | EmptyString => None
  | String c EmptyString => Some c
  | String _ s' => last_char s'
  end.

Definition first_char (s : string) : option ascii :=
  match s with
  | EmptyString => None
  | String c _ => Some c
  end.

Definition isword_at (c : option ascii) : bool :=
  match c with
  | Some c => isword c
  | None => false
  end.

(** [\b]: exactly one of the characters around the position is a word
    character. [before] is the character that precedes the start of the
    match, if any; it is the one looked at when nothing is consumed yet. *)
Definition re_boundary {A} (before : option ascii) : re A :=
  fun acc s k =>
    let prev := match last_char acc with
                | Some c => Some c
                | None => before
                end in
    if xorb (isword_at prev) (isword_at (first_char s)) then k acc s
    else None.

(** [r1|r2|...]: the alternatives are tried in order. *)
Fixpoint re_alts {A} (rs : list (re A)) : re A :=
  fun acc s k =>
    match rs with
    | [] => None
    | r :: rs' =>
        match r acc s k with
        | Some x => Some x
        | None => re_alts rs' acc s k
        end
    end.

(** A literal under [re.IGNORECASE]: each character of the input must
    have the lower case of the character of the pattern; what is consumed
    is the input as it is written. *)
Fixpoint re_lit_ci {A} (l : string) : re A :=
  fun acc s k =>
    match l with
    | EmptyString => k acc s
    | String a l' =>
        match s with
        | String b s' =>
            if Ascii.eqb (lower_char a) (lower_char b)
            then re_lit_ci l' (acc ++ String b "") s' k
            else None
        | EmptyString => None
        end
    end.

(** One attempt at the head of the text; the result is the text matched. *)
Definition re_match_here (pattern : option ascii -> re string)
    (before : option ascii) (s : string) : option string :=
  pattern before "" s (fun matched _ => Some matched).

(** [re.search(pattern, s).group()]: the leftmost match. *)
Fixpoint re_search (pattern : option ascii -> re string)
    (before : option ascii) (s : string) : option string :=
  match re_match_here pattern before s with
  | Some matched => Some matched
  | None =>
      match s with
      | EmptyString => None
      | String c s' => re_search pattern (Some c) s'
      end
  end.

(** [re.findall(pattern, s)] for a pattern without groups that does not
    match the empty string: the matches from left to right, each search
    resuming where the previous match ended. [skip] counts the characters of
    the last match still to pass. *)
Fixpoint re_findall_from (pattern : option ascii -> re string)
    (skip : nat) (before : option ascii) (s : string) : list string :=
  match s with
  | EmptyString => []
  | String c s' =>
      match skip with
      | S n => re_findall_from pattern n (Some c) s'
      | O =>
          match re_match_here pattern before s with
          | Some matched =>
              matched
              :: re_findall_from pattern (String.length matched - 1)
                   (Some c) s'
          | None => re_findall_from pattern O (Some c) s'
          end
      end
  end.

Definition re_findall (pattern : option ascii -> re string) (s : string)
  : list string :=
  re_findall_from pattern O None s.

(** [s.endswith(suffix)] *)
Fixpoint endswith (suffix s : string) : bool :=
  String.eqb suffix s
  || match s with
     | EmptyString => false
     | String _ s' => endswith suffix s'
     end.

End PyRegex.

(* ===================================================================== *)
(** * modules/resume_parser.py: skills, contact information, files *)
(* ===================================================================== *)

Module ResumeReader.

Import Py.
Import PyRegex.

Definition ascii_alnum (c : ascii) : bool :=
  let n := nat_of_ascii c in
  (((48 <=? n) && (n <=? 57)) || ((65 <=? n) && (n <=? 90))
   || ((97 <=? n) && (n <=? 122)))%nat.

Definition ascii_alpha (c : ascii) : bool :=
  let n := nat_of_ascii c in
  (((65 <=? n) && (n <=? 90)) || ((97 <=? n) && (n <=? 122)))%nat.

Definition one_of (chars : string) (c : ascii) : bool :=
  existsb (Ascii.eqb c) (list_ascii_of_string chars).

(** [[A-Za-z0-9._%+-]] *)
Definition email_local_char (c : ascii) : bool :=
  ascii_alnum c || one_of "._%+-" c.

(** [[A-Za-z0-9.-]] *)
Definition email_domain_char (c : ascii) : bool :=
  ascii_alnum c || one_of ".-" c.

(** [[A-Z|a-z]]: the bar is a member of the class. *)
Definition email_tld_char (c : ascii) : bool :=
  ascii_alpha c || one_of "|" c.

(** [\b[A-Za-z0-9._%+-]+@[A-Za-z0-9.-]+\.[A-Z|a-z]{2,}\b] *)
Definition email_pattern {A} (before : option ascii) : re A :=
  re_seq (re_boundary before)
    (re_seq (re_plus_char email_local_char)
       (re_seq (re_lit "@")
          (re_seq (re_plus_char email_domain_char)
             (re_seq (re_lit ".")
                (re_seq (re_char email_tld_char)
                   (re_seq (re_plus_char email_tld_char)
                      (re_boundary before))))))).

(** [[-.\s]] *)
Definition phone_separator (c : ascii) : bool :=
  one_of "-." c || isspace c.

(** [[0-9]{3}] and [[0-9]{4}] *)
Definition three_digits {A} : re A :=
  re_seq (re_char isdigit) (re_seq (re_char isdigit) (re_char isdigit)).

Definition four_digits {A} : re A :=
  re_seq (re_char isdigit) three_digits.

(** [(\+?1[-.\s]?)?\(?([0-9]{3})\)?[-.\s]?([0-9]{3})[-.\s]?([0-9]{4})] *)
Definition phone_pattern {A} (before : option ascii) : re A :=
  re_seq
    (re_opt (re_seq (re_opt (re_lit "+"))
               (re_seq (re_lit "1") (re_opt (re_char phone_separator)))))
    (re_seq (re_opt (re_lit "("))
       (re_seq three_digits
          (re_seq (re_opt (re_lit ")"))
             (re_seq (re_opt (re_char phone_separator))
                (re_seq three_digits
                   (re_seq (re_opt (re_char phone_separator))
                      four_digits)))))).

(** [extract_contact_info] *)
Definition extract_contact_info (text : string) : gmap string string :=
  let contact_info : gmap string string := ∅ in
  let contact_info :=
    match re_search email_pattern None text with
    | Some email => <["email" := email]> contact_info
    | None => contact_info
    end in
  match re_search phone_pattern None text with
  | Some phone => <["phone" := phone]> contact_info
  | None => contact_info
  end.

(** The alternatives of the eight [skill_patterns], with the escapes of the
    patterns resolved. *)
Definition skill_groups : list (list string) :=
  [ ["Python"; "Java"; "JavaScript"; "C++"; "C#"; "PHP"; "Ruby"; "Go";
     "Rust"; "Swift"; "Kotlin"];
    ["React"; "Angular"; "Vue"; "Node.js"; "Express"; "Django"; "Flask";
     "Spring"; "Laravel"];
    ["HTML"; "CSS"; "Bootstrap"; "jQuery"; "SASS"; "LESS"];
    ["SQL"; "MySQL"; "PostgreSQL"; "MongoDB"; "Redis"; "Elasticsearch"];
    ["AWS"; "Azure"; "GCP"; "Docker"; "Kubernetes"; "Jenkins"; "Git";
     "GitHub"; "GitLab"];
    ["Machine Learning"; "AI"; "Data Science"; "Analytics"; "Statistics"];
    ["Project Management"; "Leadership"; "Communication"; "Teamwork"];
    ["Agile"; "Scrum"; "DevOps"; "CI/CD"; "Microservices"] ].

(** [\b(?:a|b|...)\b] under [re.IGNORECASE]. *)
Definition skill_pattern {A} (alternatives : list string)
    (before : option ascii) : re A :=
  re_seq (re_boundary before)
    (re_seq (re_alts (map re_lit_ci alternatives)) (re_boundary before)).

(** [extract_skills].  The function returns [list(skills)], which
    enumerates the set in an order that Python does not fix; the model is
    the set. *)
Definition extract_skills (text : string) : gset string :=
  fold_left
    (fun skills alternatives =>
       skills ∪ list_to_set (re_findall (skill_pattern alternatives) text))
    skill_groups ∅.

(** The dictionary returned by [parse_resume]. *)
Record ResumeData : Type := mkResumeData {
  raw_text : string;
  skills : gset string;
  contact_info : gmap string string;
  sections : gmap string string;
  file_path : string
}.

(** [try: m  except Exception as e: raise CustomException(prefix + str(e))] *)
Definition wrap {A} (prefix : string) (r : result A) : result A :=
  match r with
  | Ok a => Ok a
  | Raise msg => Raise (prefix ++ msg)
  end.

Section WithFiles.

(** What the PDF library finds in a file: the texts of its pages, or an
    exception. *)
Variable pdf_pages : string -> result (list string).

(** What the DOCX library finds in a file: the texts of its paragraphs,
    or an exception. *)
Variable docx_paragraphs : string -> result (list string).

(** The loop [text += part + "\n"] *)
Definition concat_lines (parts : list string) : string :=
  fold_left (fun text part => text ++ part ++ String LF "") parts "".

(** [extract_text_from_pdf] *)
Definition extract_text_from_pdf (file_path : string) : result string :=
  wrap "Failed to extract text from PDF: "
    match pdf_pages file_path with
    | Ok pages => Ok (strip (concat_lines pages))
    | Raise msg => Raise msg
    end.

(** [extract_text_from_docx] *)
Definition extract_text_from_docx (file_path : string) : result string :=
  wrap "Failed to extract text from DOCX: "
    match docx_paragraphs file_path with
    | Ok paragraphs => Ok (strip (concat_lines paragraphs))
    | Raise msg => Raise msg
    end.

(** [parse_resume] *)
Definition parse_resume (file_path : string) : result ResumeData :=
  wrap "Failed to parse resume: "
    (let extracted :=
       if endswith ".pdf" (lower file_path)
       then extract_text_from_pdf file_path
       else if endswith ".docx" (lower file_path)
               || endswith ".doc" (lower file_path)
       then extract_text_from_docx file_path
       else Raise "Unsupported file format. Please upload PDF or DOCX files."
     in
     match extracted with
     | Raise msg => Raise msg
     | Ok text =>
         if is_empty (strip text)
         then Raise "No text found in the uploaded file."
         else Ok {| raw_text := text;
                    skills := extract_skills text;
                    contact_info := extract_contact_info text;
                    sections := ResumeParser._parse_sections text;
                    file_path := file_path |}
     end).

End WithFiles.

End ResumeReader.

(* ===================================================================== *)
(** * modules/report_generator.py: the candidate *)
(* ===================================================================== *)

Module CandidateInfo.

Import ResumeReader.

(** The dictionary built by [_extract_candidate_info]. *)
Record Candidate : Type := mkCandidate {
  name : string;
  email : string;
  phone : string;
  candidate_skills : gset string;
  experience_sections : string;
  education_sections : string
}.

(** [_extract_candidate_info], on a dictionary returned by
    [parse_resume]: every key that [resume_data.get] asks for is there. *)
Definition _extract_candidate_info (resume_data : ResumeData) : Candidate :=
  {| name := default "Unknown" (contact_info resume_data !! "name");
     email := default "Not provided" (contact_info resume_data !! "email");
     phone := default "Not provided" (contact_info resume_data !! "phone");
     candidate_skills := skills resume_data;
     experience_sections :=
       default "" (sections resume_data !! "experience");
     education_sections :=
       default "" (sections resume_data !! "education") |}.

End CandidateInfo.

(* ===================================================================== *)
(** * Notions used to state the properties *)
(* ===================================================================== *)

Module Spec.

Import Py.

(** The arithmetic mean of a list of numbers; 0 for the empty list. *)
Definition mean (l : list Q) : Q :=
  match l with
  | [] => 0%Q
  | _ => (fold_right Qplus 0 l / inject_Z (Z.of_nat (length l)))%Q
  end.

(** The sum as the round accumulates it: from 0, left to right, every
    addition rounded to binary64. *)
Definition float_sum (l : list Q) : Q := fold_left float_add l 0%Q.

(** The mean as the round computes it: the rounded sum divided by the
    number of terms, the quotient rounded to binary64; 0 for the empty
    list. *)
Definition float_mean (l : list Q) : Q :=
  match l with
  | [] => 0%Q
  | _ => float_div (float_sum l) (inject_Z (Z.of_nat (length l)))
  end.

(** [k] is the integer nearest to [y], the even one of the two when [y] is
    half-way between two integers. *)
Definition nearest_even (y : Q) (k : Z) : Prop :=
  (Qabs (y - inject_Z k) <= 1 # 2)%Q
  /\ ((Qabs (y - inject_Z k) == 1 # 2)%Q -> Z.even k = true).

(** The number that a string of decimal digits writes. *)
Fixpoint decimal_number (digits : string) : Z :=
  match digits with
  | EmptyString => 0%Z
  | String c rest =>
      (Z.of_nat (nat_of_ascii c - 48) * 10 ^ Z.of_nat (String.length rest)
       + decimal_number rest)%Z
  end.

(** A decimal numeral: an integer part and, when [fp] is not empty, a dot
    and a fractional part. *)
Definition numeral_text (ip fp : string) : string :=
  if is_empty fp then ip else ip ++ "." ++ fp.

(** The number that the numeral writes. *)
Definition numeral_value (ip fp : string) : Q :=
  (inject_Z (decimal_number ip)
   + inject_Z (decimal_number fp)
     / inject_Z (10 ^ Z.of_nat (String.length fp)))%Q.

(** Every character of the string is in the class [p]. *)
Fixpoint all_chars (p : ascii -> bool) (s : string) : bool :=
  match s with
  | EmptyString => true
  | String c s' => p c && all_chars p s'
  end.

(** The first character of the string, if any, is not in the class [p]. *)
Definition no_leading (p : ascii -> bool) (s : string) : bool :=
  match s with
  | EmptyString => true
  | String c _ => negb (p c)
  end.

(** The score pattern matched without backtracking: the longest run of
    digits, the longest fraction if there is one, then [/10]. *)
Definition greedy_score_here (s : string) : option string :=
  let '(ip, r) := span_digits s in
  if is_empty ip then None
  else match r with
       | String c r' =>
           if Ascii.eqb c "."%char then
             let '(fp, r'') := span_digits r' in
             if negb (is_empty fp) && startswith "/10" r''
             then Some (ip ++ "." ++ fp) else None
           else if startswith "/10" r then Some ip else None
       | EmptyString => None
       end.

(** A leading numbering removed as the specification words it: when the
    line starts with a number followed by a dot, the number, the dot and
    the whitespace after it are dropped; otherwise the line is kept as it
    is. *)
Definition without_numbering (line : string) : string :=
  let '(d, r) := span_digits line in
  if is_empty d then line
  else match r with
       | String c r' => if Ascii.eqb c "."%char then lstrip r' else line
       | EmptyString => line
       end.

(** The lines of a response that give a question, as the specification
    words it: split into lines, trim each line, drop the blank ones,
    remove the numbering, keep the lines longer than ten characters. *)
Definition surviving_lines (questions_text : string) : list string :=
  filter (fun line => 10 < String.length line)
    (map without_numbering
       (filter (fun line => line <> "")
          (map strip (split LF questions_text)))).

(** Some line of the text, once trimmed, starts with the label. *)
Definition labelled (label text : string) : Prop :=
  Exists (fun raw => startswith label (strip raw) = true) (split LF text).

(** Some line of the text, once trimmed, starts with [Score:] and contains
    a number followed by [/10]. *)
Definition score_found (text : string) : Prop :=
  Exists (fun raw => startswith "Score:" (strip raw) = true
                     /\ Evaluator.search_score (strip raw) <> None)
         (split LF text).

(** The five performance levels, from lowest to highest. *)
Definition level_rank (level : string) : nat :=
  if String.eqb level "Excellent" then 4
  else if String.eqb level "Good" then 3
  else if String.eqb level "Average" then 2
  else if String.eqb level "Below Average" then 1
  else 0.

(** The rounds actually present, as the list of their average scores. *)
Definition present_averages
    (hr technical : option Evaluator.RoundEvaluation) : list Q :=
  (from_option (fun r => [Evaluator.average_score r]) [] hr
   ++ from_option (fun r => [Evaluator.average_score r]) [] technical)%list.


(** No line of the text is recognized as a section header. *)
Definition no_header_line (text : string) : Prop :=
  Forall (fun raw => ResumeParser.detect_header (strip raw) = None)
         (split LF text).

(** A line is blank when nothing is left of it after trimming. *)
Definition blank (raw : string) : Prop := strip raw = "".

(** The text with its blank lines removed, the other lines untouched. *)
Definition without_blank_lines (text : string) : string :=
  join (String LF "") (filter (fun raw => ~ blank raw) (split LF text)).

(** The trimmed non-blank lines of a block, in order. *)
Definition content_of (lines : list string) : list string :=
  filter (fun line => line <> "") (map strip lines).

(** The line is detected as a header, under the given key. *)
Definition header_line (key raw : string) : Prop :=
  exists header,
    ResumeParser.detect_header (strip raw) = Some header
    /\ lower header = key.

(** The line is not detected as a header. *)
Definition plain_line (raw : string) : Prop :=
  ResumeParser.detect_header (strip raw) = None.

(** ** Notions for the further properties of the evaluator *)

(** The five labels of an evaluation response. *)
Definition labels : list string :=
  ["Score:"; "Strengths:"; "Areas for Improvement:"; "Feedback:";
   "Overall Assessment:"].

(** The line, once trimmed, starts with none of the labels. *)
Definition label_free (raw : string) : Prop :=
  Forall (fun label => startswith label (strip raw) = false) labels.

(** The line carries a score: trimmed, it starts with [Score:] and
    contains a number followed by [/10]. *)
Definition score_line (raw : string) : Prop :=
  startswith "Score:" (strip raw) = true
  /\ Evaluator.search_score (strip raw) <> None.

(** The number of occurrences of [x] in [l]. *)
Definition occurrences (x : string) (l : list string) : nat :=
  length (filter (fun y => y = x) l).

(** Decreasing order of the counts. *)
Definition count_ge (a b : string * nat) : Prop := (snd b <= snd a)%nat.

Import Evaluator.

(** What the loop body does with a line that carries no label, by the
    section that is open. *)
Definition continue_section (ev : Evaluator.Evaluation) (cur : option Evaluator.section_tag)
    (line : string) : Evaluator.Evaluation :=
  match cur with
  | Some SecStrengths =>
      {| score := score ev;
         strengths := (strengths ev ++ comma_items line)%list;
         areas_for_improvement := areas_for_improvement ev;
         feedback := feedback ev;
         overall_assessment := overall_assessment ev |}
  | Some SecAreas =>
      {| score := score ev; strengths := strengths ev;
         areas_for_improvement :=
           (areas_for_improvement ev ++ comma_items line)%list;
         feedback := feedback ev;
         overall_assessment := overall_assessment ev |}
  | Some SecFeedback =>
      {| score := score ev; strengths := strengths ev;
         areas_for_improvement := areas_for_improvement ev;
         feedback := feedback ev ++ " " ++ line;
         overall_assessment := overall_assessment ev |}
  | Some SecOverall =>
      {| score := score ev; strengths := strengths ev;
         areas_for_improvement := areas_for_improvement ev;
         feedback := feedback ev;
         overall_assessment := overall_assessment ev ++ " " ++ line |}
  | None => ev
  end.


(** The count recorded for [y] in a counter, 0 when it has no entry. *)
Fixpoint recorded (c : list (string * nat)) (y : string) : nat :=
  match c with
  | [] => 0
  | (k, n) :: c' => if String.eqb y k then n else recorded c' y
  end.

(** The distinct elements of a list, in the order of their first
    occurrence. *)
Fixpoint first_occurrences (l : list string) : list string :=
  match l with
  | [] => []
  | x :: l' => x :: filter (fun y => y <> x) (first_occurrences l')
  end.

(** A round is present and its average is below 6.0. *)
Definition below_six (round : option Evaluator.RoundEvaluation) : Prop :=
  exists r, round = Some r /\ (Evaluator.average_score r < 6.0)%Q.

(** The headers that can become keys of the sections: the vocabulary
    without the phrases that end with an earlier header of the list. *)
Definition reachable_headers : list string :=
  [ "experience"; "employment";
    "education"; "academic background";
    "skills"; "core competencies";
    "projects";
    "certifications"; "certificates";
    "summary"; "objective"; "profile" ].

(** A key is [other] or a reachable header; a stored block is the join of
    a non-empty list of lines of [content] that are not headers. *)
Definition well_formed (content : list string)
    (sections : gmap string string) : Prop :=
  forall key value,
    sections !! key = Some value ->
    (key = "other" \/ key ∈ reachable_headers)
    /\ exists block,
         block <> []
         /\ value = join (String LF "") block
         /\ Forall (fun line => line ∈ content
                                /\ ResumeParser.detect_header line = None) block.

Definition state_ok (content : list string) (st : ResumeParser.scan_state) : Prop :=
  let '(sections, current_section, current_content) := st in
  well_formed content sections
  /\ (current_section = "other" \/ current_section ∈ reachable_headers)
  /\ Forall (fun line => line ∈ content /\ ResumeParser.detect_header line = None)
       current_content.

(** ** Notions for the calls to the model *)

(** The prompt that is sent to the model for a pair. *)
Definition prompt_of (qa : Evaluator.QA) : string :=
  Evaluator.EVALUATION_PROMPT (qa_question qa) (qa_answer qa)
    (default "Unknown" (qa_type qa)).

(** The world after the model has been called once for each pair of the
    list, in order, and has answered every call; [None] when one of these
    calls raises. *)
Fixpoint after_calls {World : Type}
    (generate_content : string -> World -> result string * World)
    (pairs : list Evaluator.QA) (w : World) : option World :=
  match pairs with
  | [] => Some w
  | qa :: rest =>
      match generate_content (prompt_of qa) w with
      | (Ok _, w1) => after_calls generate_content rest w1
      | (Raise _, _) => None
      end
  end.

(** ** Notions for matches of regular expressions *)

(** Every text on which the matcher succeeds starts with a string of the
    language [L], after which the continuation succeeded. *)
Definition sound {A} (r : re A) (L : string -> Prop) : Prop :=
  forall acc s (k : re_cont A) x,
    r acc s k = Some x ->
    exists m rest, s = m ++ rest /\ L m /\ k (acc ++ m) rest = Some x.

(** The string occurs in the text. *)
Definition occurs_in (m text : string) : Prop :=
  exists before rest, text = before ++ m ++ rest.

(** The number of characters of the class [p] in the string. *)
Fixpoint count_chars (p : ascii -> bool) (s : string) : nat :=
  match s with
  | EmptyString => 0
  | String c s' => (if p c then 1 else 0) + count_chars p s'
  end.

(** The shape of what the e-mail pattern matches. *)
Definition email_shape (m : string) : Prop :=
  exists local domain tld,
    m = local ++ "@" ++ domain ++ "." ++ tld
    /\ local <> "" /\ all_chars ResumeReader.email_local_char local = true
    /\ domain <> "" /\ all_chars ResumeReader.email_domain_char domain = true
    /\ 2 <= String.length tld
    /\ all_chars ResumeReader.email_tld_char tld = true.

(** The path has one of the three extensions that [parse_resume] takes,
    in any case. *)
Definition supported (file_path : string) : bool :=
  PyRegex.endswith ".pdf" (lower file_path)
  || PyRegex.endswith ".docx" (lower file_path)
  || PyRegex.endswith ".doc" (lower file_path).

(** The string holds [n] digits. *)
Definition digits_are (n : nat) (m : string) : Prop :=
  count_chars isdigit m = n.

End Spec.

(* ===================================================================== *)
(** * Properties *)
(* ===================================================================== *)

Module PyFacts.

Import Py Spec.

Lemma append_cons c s r : String c s ++ r = String c (s ++ r).
Proof. reflexivity. Qed.

Lemma append_empty_l r : "" ++ r = r.
Proof. reflexivity. Qed.

Lemma append_empty_r s : s ++ "" = s.
Proof.
  induction s as [|c s IH]; [reflexivity|].
  now rewrite append_cons, IH.
Qed.

Lemma append_assoc s1 s2 s3 : (s1 ++ s2) ++ s3 = s1 ++ (s2 ++ s3).
Proof.
  induction s1 as [|c s1 IH]; [reflexivity|].
  now rewrite !append_cons, IH.
Qed.

Section Span.

Variable p : ascii -> bool.

Lemma span_spec s d r :
  span p s = (d, r) ->
  s = d ++ r /\ all_chars p d = true /\ no_leading p r = true.
Proof.
  revert d r. induction s as [|c s IH]; simpl; intros d r H.
  - inversion H; subst. auto.
  - destruct (p c) eqn:Hc.
    + destruct (span p s) as [d' r'] eqn:Hs.
      inversion H; subst. destruct (IH d' r eq_refl) as (-> & Hd & Hr).
      rewrite append_cons. simpl. rewrite Hc. auto.
    + inversion H; subst. simpl. rewrite Hc. auto.
Qed.

Lemma span_app d r :
  all_chars p d = true -> no_leading p r = true ->
  span p (d ++ r) = (d, r).
Proof.
  induction d as [|c d IH]; intros Hd Hr.
  - rewrite append_empty_l.
    destruct r as [|c r]; simpl in *; [reflexivity|].
    apply negb_true_iff in Hr. now rewrite Hr.
  - simpl in Hd. apply andb_true_iff in Hd as [Hc Hd].
    rewrite append_cons. simpl. rewrite Hc, IH by assumption.
    reflexivity.
Qed.

Lemma span_all d : all_chars p d = true -> span p d = (d, "").
Proof.
  intros Hd. pose proof (span_app d "" Hd eq_refl) as H.
  now rewrite append_empty_r in H.
Qed.

(** The greedy star, when the rest of the pattern cannot start on a
    character of the class: giving characters back is useless, and the
    outcome is that of the continuation after the longest run. *)
Lemma re_star_char_greedy {A} (k : re_cont A) :
  (forall acc c s, p c = true -> k acc (String c s) = None) ->
  forall s acc,
    re_star_char p acc s k
    = k (acc ++ fst (span p s)) (snd (span p s)).
Proof.
  intros Hk. induction s as [|c s IH]; intros acc; simpl.
  - now rewrite append_empty_r.
  - destruct (p c) eqn:Hc.
    + rewrite IH. destruct (span p s) as [d r]. simpl.
      rewrite append_assoc, append_cons, append_empty_l.
      destruct (k (acc ++ String c d) r); [reflexivity|].
      now apply Hk.
    + simpl. now rewrite append_empty_r.
Qed.

(** The greedy star, when the rest of the pattern accepts what follows the
    longest run. *)
Lemma re_star_char_first {A} (k : re_cont A) :
  forall s acc x,
    k (acc ++ fst (span p s)) (snd (span p s)) = Some x ->
    re_star_char p acc s k = Some x.
Proof.
  induction s as [|c s IH]; intros acc x; simpl.
  - now rewrite append_empty_r.
  - destruct (p c) eqn:Hc.
    + destruct (span p s) as [d r] eqn:Hs. simpl. intros Hx.
      rewrite (IH (acc ++ String c "") x); [reflexivity|]. simpl.
      now rewrite append_assoc, append_cons, append_empty_l.
    + simpl. now rewrite append_empty_r.
Qed.

End Span.

Lemma lstrip_span s : lstrip s = snd (span isspace s).
Proof.
  induction s as [|c s IH]; simpl; [reflexivity|].
  destruct (isspace c); [|reflexivity].
  rewrite IH. now destruct (span isspace s).
Qed.

Lemma strip_prefix_startswith l s :
  startswith l s = true <-> exists rest, strip_prefix l s = Some rest.
Proof.
  unfold startswith. revert s.
  induction l as [|a l IH]; intros s; simpl.
  - destruct s; split; eauto.
  - destruct s as [|b s]; simpl.
    + split; [discriminate | intros [? [=]]].
    + destruct (ascii_dec a b) as [->|Hne].
      * rewrite Ascii.eqb_refl. apply IH.
      * apply Ascii.eqb_neq in Hne. rewrite Hne.
        split; [discriminate | intros [? [=]]].
Qed.


Lemma strip_prefix_app l s rest : strip_prefix l s = Some rest -> s = l ++ rest.
Proof.
  revert s. induction l as [|a l IH]; intros s; simpl.
  - now intros [= ->].
  - destruct s as [|b s]; [discriminate|].
    destruct (Ascii.eqb a b) eqn:Hab; [|discriminate].
    apply Ascii.eqb_eq in Hab as ->. intros H.
    now rewrite append_cons, <- (IH _ H).
Qed.

Lemma all_chars_app p a b :
  all_chars p (a ++ b) = all_chars p a && all_chars p b.
Proof.
  induction a as [|c a IH]; [reflexivity|].
  rewrite append_cons. simpl. rewrite IH. apply andb_assoc.
Qed.

Lemma digit_value_nonneg c : (0 <= digit_value c)%Z.
Proof. unfold digit_value. lia. Qed.

Lemma digits_value_nonneg s : forall acc, (0 <= acc)%Z -> (0 <= digits_value acc s)%Z.
Proof.
  induction s as [|c s IH]; simpl; intros acc Hacc; [assumption|].
  apply IH. pose proof (digit_value_nonneg c). lia.
Qed.

Lemma is_empty_true s : is_empty s = true <-> s = "".
Proof. destruct s; simpl; split; congruence. Qed.

Lemma is_empty_false s : is_empty s = false <-> s <> "".
Proof. destruct s; simpl; split; congruence. Qed.

(** [float] accepts an integer literal. *)
Lemma float_integer ip :
  all_chars isdigit ip = true -> ip <> "" ->
  float ip = Some (binary64 (digits_value 0 ip # 1)).
Proof.
  intros Hd Hne. unfold float, span_digits. rewrite span_all by assumption.
  apply is_empty_false in Hne. now rewrite Hne.
Qed.

(** [float] accepts a literal with a fractional part. *)
Lemma float_decimal ip fp :
  all_chars isdigit ip = true -> ip <> "" ->
  all_chars isdigit fp = true -> fp <> "" ->
  float (ip ++ "." ++ fp)
  = Some (binary64 (digits_value 0 (ip ++ fp)
                    # Pos.pow 10 (Pos.of_nat (String.length fp)))).
Proof.
  intros Hi Hine Hf Hfne. unfold float, span_digits.
  rewrite span_app by (assumption || reflexivity).
  apply is_empty_false in Hine. rewrite Hine.
  rewrite append_cons, append_empty_l. simpl.
  rewrite span_all by assumption.
  apply is_empty_false in Hfne. rewrite Hfne. reflexivity.
Qed.

Lemma strip_prefix_none l s :
  startswith l s = false -> strip_prefix l s = None.
Proof.
  intros Hf. destruct (strip_prefix l s) as [rest|] eqn:Hs; [|reflexivity].
  assert (Ht : startswith l s = true) by (apply strip_prefix_startswith; eauto).
  congruence.
Qed.

Lemma re_lit_none {A} l acc s (k : re_cont A) :
  startswith l s = false -> re_lit l acc s k = None.
Proof. intros Hf. unfold re_lit. now rewrite strip_prefix_none. Qed.

(** A literal at the end of a pattern is a test on the input. *)
Lemma re_lit_test {A} l acc s (x : A) :
  re_lit l acc s (fun _ _ => Some x)
  = if startswith l s then Some x else None.
Proof.
  unfold re_lit. destruct (startswith l s) eqn:Hp.
  - apply strip_prefix_startswith in Hp as [rest ->]. reflexivity.
  - now rewrite strip_prefix_none.
Qed.

(** The greedy plus, under the same condition as the star. *)
Lemma re_plus_char_greedy {A} p (k : re_cont A) :
  (forall acc c s, p c = true -> k acc (String c s) = None) ->
  forall s acc,
    re_plus_char p acc s k
    = if is_empty (fst (span p s)) then None
      else k (acc ++ fst (span p s)) (snd (span p s)).
Proof.
  intros Hk s acc. unfold re_plus_char, re_char.
  destruct s as [|c s]; [reflexivity|]. simpl.
  destruct (p c) eqn:Hc; [|reflexivity].
  rewrite re_star_char_greedy by exact Hk.
  destruct (span p s) as [d r]. simpl.
  now rewrite append_assoc, append_cons, append_empty_l.
Qed.

Lemma startswith_head_ne a l c s :
  a <> c -> startswith (String a l) (String c s) = false.
Proof.
  intros Hne. unfold startswith. cbn [String.prefix].
  destruct (ascii_dec a c); [contradiction | reflexivity].
Qed.

Lemma digit_not_dot c : isdigit c = true -> "."%char <> c.
Proof. intros Hc <-. discriminate Hc. Qed.

Lemma digit_not_slash c : isdigit c = true -> "/"%char <> c.
Proof. intros Hc <-. discriminate Hc. Qed.

End PyFacts.

Module FloatFacts.

Import Py Spec.

Local Open Scope Q_scope.

(** ** Rounding to an integer *)


Lemma round_half_even_ge (k : Z) y :
  inject_Z k <= y -> (k <= round_half_even y)%Z.
Proof.
  intros H. apply Qfloor_resp_le in H. rewrite Qfloor_Z in H.
  unfold round_half_even.
  destruct (y - inject_Z (Qfloor y) ?= 1 # 2); [destruct (Z.even _)| |]; lia.
Qed.

Lemma round_half_even_le (k : Z) y :
  y <= inject_Z k -> (round_half_even y <= k)%Z.
Proof.
  intros H. pose proof (Qfloor_resp_le _ _ H) as Hf. rewrite Qfloor_Z in Hf.
  destruct (Z.eq_dec (Qfloor y) k) as [Heq|Hne].
  - assert (Hy : y == inject_Z k).
    { apply Qle_antisym; [exact H|]. rewrite <- Heq. apply Qfloor_le. }
    unfold round_half_even. rewrite Heq.
    assert (Hc : (y - inject_Z k ?= 1 # 2) = Lt).
    { apply (proj1 (Qlt_alt _ _)).
      assert (Hz : y - inject_Z k == 0) by (rewrite Hy; ring).
      rewrite Hz. reflexivity. }
    rewrite Hc. lia.
  - unfold round_half_even.
    destruct (y - inject_Z (Qfloor y) ?= 1 # 2); [destruct (Z.even _)| |]; lia.
Qed.

Lemma round_half_even_mono x y :
  x <= y -> (round_half_even x <= round_half_even y)%Z.
Proof.
  intros H. pose proof (Qfloor_resp_le _ _ H) as Hf.
  destruct (Z.eq_dec (Qfloor x) (Qfloor y)) as [Heq|Hne].
  - unfold round_half_even. rewrite Heq.
    destruct (Qcompare_spec (x - inject_Z (Qfloor y)) (1 # 2));
      destruct (Qcompare_spec (y - inject_Z (Qfloor y)) (1 # 2));
      try destruct (Z.even _); try lia; exfalso; lra.
  - transitivity (Qfloor y).
    + apply round_half_even_le.
      pose proof (Qlt_floor x) as Hx.
      assert (Hz : (Qfloor x + 1 <= Qfloor y)%Z) by lia.
      rewrite Zle_Qle in Hz. lra.
    + apply round_half_even_ge, Qfloor_le.
Qed.


(** The nearest integer with ties to even is unique. *)
Lemma nearest_even_unique y k k' :
  nearest_even y k -> nearest_even y k' -> k = k'.
Proof.
  intros [Hk Hek] [Hk' Hek'].
  apply Qabs_Qle_condition in Hk as [Hk1 Hk2].
  apply Qabs_Qle_condition in Hk' as [Hk1' Hk2'].
  assert (Hd : (k' = k + -1 \/ k' = k \/ k' = k + 1)%Z).
  { assert (H1 : inject_Z k' <= inject_Z (k + 1)).
    { rewrite inject_Z_plus. change (inject_Z 1) with 1. lra. }
    assert (H2 : inject_Z (k + -1) <= inject_Z k').
    { rewrite inject_Z_plus. change (inject_Z (-1)) with (-1). lra. }
    rewrite <- Zle_Qle in H1, H2. lia. }
  destruct Hd as [-> | [-> | ->]]; [ | reflexivity | ].
  - rewrite inject_Z_plus in *. change (inject_Z (-1)) with (-1) in *.
    assert (Ht : Qabs (y - inject_Z k) == 1 # 2).
    { rewrite Qabs_neg by lra. lra. }
    assert (Ht' : Qabs (y - (inject_Z k + -1)) == 1 # 2).
    { rewrite Qabs_pos by lra. lra. }
    specialize (Hek Ht). specialize (Hek' Ht').
    rewrite Z.even_add, Hek in Hek'. discriminate Hek'.
  - rewrite inject_Z_plus in *. change (inject_Z 1) with 1 in *.
    assert (Ht : Qabs (y - inject_Z k) == 1 # 2).
    { rewrite Qabs_pos by lra. lra. }
    assert (Ht' : Qabs (y - (inject_Z k + 1)) == 1 # 2).
    { rewrite Qabs_neg by lra. lra. }
    specialize (Hek Ht). specialize (Hek' Ht').
    rewrite Z.even_add, Hek in Hek'. discriminate Hek'.
Qed.

(** ** Powers of two *)

Lemma pow2_pos e : 0 < 2 ^ e.
Proof. apply Qpower_0_lt. reflexivity. Qed.

Lemma pow2_succ e : 2 ^ (e + 1) == 2 * 2 ^ e.
Proof. rewrite Qpower_plus by discriminate. change (2 ^ 1) with 2. ring. Qed.

Lemma pow2_plus a b : 2 ^ (a + b) == 2 ^ a * 2 ^ b.
Proof. apply Qpower_plus. discriminate. Qed.

Lemma pow2_le a b : (a <= b)%Z -> 2 ^ a <= 2 ^ b.
Proof. intros H. apply Qpower_le_compat_l; [exact H | discriminate]. Qed.

Lemma pow2_Z a : (0 <= a)%Z -> inject_Z (2 ^ a) == 2 ^ a.
Proof. intros H. now rewrite Zpower_Qpower. Qed.

(** The binade of a positive number. *)
Lemma binade_spec x :
  0 < x -> 2 ^ binade x <= x /\ x < 2 ^ (binade x + 1).
Proof.
  intros Hx. unfold binade.
  rewrite (Qabs_pos x) by lra.
  destruct x as [n d]. cbn [Qnum Qden].
  assert (Hn : (0 < n)%Z) by (unfold Qlt in Hx; simpl in Hx; lia).
  rewrite Z.abs_eq by lia.
  pose proof (Z.log2_spec n Hn) as [Hn1 Hn2].
  pose proof (Z.log2_spec (Zpos d) eq_refl) as [Hd1 Hd2].
  pose proof (Z.log2_nonneg n) as Ha. pose proof (Z.log2_nonneg (Zpos d)) as Hb.
  set (a := Z.log2 n) in *. set (b := Z.log2 (Zpos d)) in *.
  rewrite Zle_Qle, pow2_Z in Hn1, Hd1 by lia.
  rewrite Zlt_Qlt in Hn2, Hd2. unfold Z.succ in *.
  rewrite pow2_Z, pow2_succ in Hn2, Hd2 by lia.
  assert (Hq : (n # d) * inject_Z (Zpos d) == inject_Z n).
  { unfold Qeq, Qmult, inject_Z. simpl. lia. }
  assert (Hk : 2 ^ (a - b) * 2 ^ b == 2 ^ a).
  { rewrite <- pow2_plus. now replace (a - b + b)%Z with a by lia. }
  pose proof (pow2_pos a). pose proof (pow2_pos b). pose proof (pow2_pos (a - b)).
  set (X := n # d) in *. set (D := inject_Z (Zpos d)) in *.
  set (N := inject_Z n) in *.
  set (Pa := 2 ^ a) in *. set (Pb := 2 ^ b) in *.
  destruct (Qle_bool (2 ^ (a - b)) X) eqn:Hc.
  - apply Qle_bool_iff in Hc. split; [exact Hc|].
    rewrite pow2_succ. set (K := 2 ^ (a - b)) in *.
    nra.
  - apply not_true_iff_false in Hc. rewrite Qle_bool_iff in Hc.
    apply Qnot_le_lt in Hc.
    replace (a - b - 1 + 1)%Z with (a - b)%Z by lia. split; [|exact Hc].
    assert (Hk' : 2 * 2 ^ (a - b - 1) == 2 ^ (a - b)).
    { rewrite <- pow2_succ. now replace (a - b - 1 + 1)%Z with (a - b)%Z by lia. }
    pose proof (pow2_pos (a - b - 1)).
    set (K := 2 ^ (a - b)) in *. set (K' := 2 ^ (a - b - 1)) in *.
    nra.
Qed.

Lemma binade_mono x y : 0 < x -> x <= y -> (binade x <= binade y)%Z.
Proof.
  intros Hx Hxy.
  destruct (binade_spec x Hx) as [Hlx _].
  destruct (binade_spec y ltac:(lra)) as [_ Hly].
  assert (H : 2 ^ binade x < 2 ^ (binade y + 1)) by lra.
  apply Qpower_lt_compat_l_inv in H; [lia | reflexivity].
Qed.

(** ** Rounding to binary64 *)

Lemma binary64_zero x : x == 0 -> binary64 x = 0.
Proof. intros H. unfold binary64. apply Qeq_bool_iff in H. now rewrite H. Qed.

Lemma binary64_pos x :
  0 < x ->
  binary64 x
  == inject_Z (round_half_even (x / 2 ^ ulp_exponent x)) * 2 ^ ulp_exponent x.
Proof.
  intros Hx. unfold binary64.
  destruct (Qeq_bool x 0) eqn:H0.
  - apply Qeq_bool_iff in H0. lra.
  - apply Qred_correct.
Qed.


Lemma binary64_nonneg x : 0 <= x -> 0 <= binary64 x.
Proof.
  intros Hx. destruct (Qlt_le_dec 0 x) as [Hpos|Hle].
  - rewrite (binary64_pos x Hpos).
    pose proof (pow2_pos (ulp_exponent x)) as Hp.
    assert (Hm : (0 <= round_half_even (x / 2 ^ ulp_exponent x))%Z).
    { apply round_half_even_ge. change (inject_Z 0) with 0.
      apply Qle_shift_div_l; [exact Hp | lra]. }
    rewrite Zle_Qle in Hm. change (inject_Z 0) with 0 in Hm. nra.
  - rewrite binary64_zero by lra. lra.
Qed.



(** The result stays in the closure of the binade of its argument. *)
Lemma binary64_upper x :
  0 < x -> binary64 x <= 2 ^ Z.max (binade x + 1) (ulp_exponent x).
Proof.
  intros Hx. rewrite (binary64_pos x Hx).
  destruct (binade_spec x Hx) as [_ Hb].
  set (e := ulp_exponent x) in *. set (l := binade x) in *.
  set (k := Z.max (l + 1 - e) 0).
  assert (Hk : (0 <= k)%Z) by lia.
  assert (Hke : Z.max (l + 1) e = (k + e)%Z) by lia.
  rewrite Hke, pow2_plus.
  pose proof (pow2_pos e) as Hp.
  assert (Ht : x / 2 ^ e <= inject_Z (2 ^ k)).
  { rewrite pow2_Z by exact Hk. apply Qle_shift_div_r; [exact Hp|].
    rewrite <- pow2_plus, <- Hke.
    apply Qle_trans with (2 ^ (l + 1)); [lra | apply pow2_le; lia]. }
  apply round_half_even_le in Ht. rewrite Zle_Qle, pow2_Z in Ht by exact Hk.
  pose proof (pow2_pos k).
  set (m := inject_Z (round_half_even (x / 2 ^ e))) in *.
  nra.
Qed.

Lemma binary64_lower x :
  0 < x -> ulp_exponent x = (binade x - 52)%Z -> 2 ^ binade x <= binary64 x.
Proof.
  intros Hx He. rewrite (binary64_pos x Hx). rewrite He.
  destruct (binade_spec x Hx) as [Hb _].
  set (l := binade x) in *.
  pose proof (pow2_pos (l - 52)) as Hp.
  assert (Hl : 2 ^ l == 2 ^ 52 * 2 ^ (l - 52)).
  { rewrite <- pow2_plus. now replace (52 + (l - 52))%Z with l by lia. }
  assert (Ht : inject_Z (2 ^ 52) <= x / 2 ^ (l - 52)).
  { rewrite pow2_Z by lia. apply Qle_shift_div_l; [exact Hp | lra]. }
  apply round_half_even_ge in Ht. rewrite Zle_Qle, pow2_Z in Ht by lia.
  rewrite Hl.
  set (m := inject_Z (round_half_even (x / 2 ^ (l - 52)))) in *.
  pose proof (pow2_pos 52). nra.
Qed.

(** Rounding is monotonic. *)
Lemma binary64_mono x y : 0 <= x -> x <= y -> binary64 x <= binary64 y.
Proof.
  intros Hx Hxy. destruct (Qlt_le_dec 0 x) as [Hpos|Hle].
  2:{ rewrite (binary64_zero x) by lra. apply binary64_nonneg. lra. }
  assert (Hy : 0 < y) by lra.
  pose proof (binade_mono x y Hpos Hxy) as Hl.
  destruct (Z.eq_dec (ulp_exponent x) (ulp_exponent y)) as [He|Hne].
  - rewrite (binary64_pos x Hpos), (binary64_pos y Hy), He.
    pose proof (pow2_pos (ulp_exponent y)) as Hp.
    assert (Ht : x / 2 ^ ulp_exponent y <= y / 2 ^ ulp_exponent y).
    { apply Qmult_le_compat_r; [exact Hxy|]. apply Qinv_le_0_compat. lra. }
    apply round_half_even_mono in Ht. rewrite Zle_Qle in Ht. nra.
  - assert (He : ulp_exponent y = (binade y - 52)%Z
                 /\ (Z.max (binade x + 1) (ulp_exponent x) <= binade y)%Z).
    { unfold ulp_exponent in *. lia. }
    destruct He as [He Hmax].
    apply Qle_trans with (2 ^ binade y).
    + apply Qle_trans with (2 ^ Z.max (binade x + 1) (ulp_exponent x)).
      * now apply binary64_upper.
      * now apply pow2_le.
    + now apply binary64_lower.
Qed.

Lemma round_half_even_comp x y :
  x == y -> round_half_even x = round_half_even y.
Proof.
  intros H. unfold round_half_even.
  rewrite (Qfloor_comp _ _ H).
  assert (Hc : (x - inject_Z (Qfloor y) ?= 1 # 2)
               = (y - inject_Z (Qfloor y) ?= 1 # 2))
    by now rewrite H.
  now rewrite Hc.
Qed.

Lemma binade_Qabs x : binade (Qabs x) = binade x.
Proof.
  destruct x as [n d]. unfold binade, Qabs. cbn [Qnum Qden].
  now rewrite Z.abs_idemp.
Qed.

Lemma binade_unique v a :
  0 < v -> 2 ^ a <= v -> v < 2 ^ (a + 1) -> binade v = a.
Proof.
  intros Hv Hlo Hhi. destruct (binade_spec v Hv) as [Hlo' Hhi'].
  assert (H1 : 2 ^ a < 2 ^ (binade v + 1)) by lra.
  assert (H2 : 2 ^ binade v < 2 ^ (a + 1)) by lra.
  apply Qpower_lt_compat_l_inv in H1; [|reflexivity].
  apply Qpower_lt_compat_l_inv in H2; [|reflexivity].
  lia.
Qed.

Lemma binade_comp x y : ~ x == 0 -> x == y -> binade x = binade y.
Proof.
  intros Hx Hxy. rewrite <- (binade_Qabs x), <- (binade_Qabs y).
  assert (Hpos : 0 < Qabs x).
  { destruct (Qlt_le_dec 0 (Qabs x)) as [H|H]; [exact H|].
    exfalso. apply Hx. apply Qabs_Qle_condition in H. lra. }
  destruct (binade_spec (Qabs x) Hpos) as [Hlo Hhi].
  assert (Habs : Qabs x == Qabs y) by now rewrite Hxy.
  symmetry. apply binade_unique; rewrite <- Habs; assumption.
Qed.

(** Rounding depends on the number only, not on the fraction that
    represents it. *)
Lemma binary64_comp x y : x == y -> binary64 x = binary64 y.
Proof.
  intros Hxy. unfold binary64.
  destruct (Qeq_bool x 0) eqn:Hx0.
  - apply Qeq_bool_iff in Hx0.
    assert (Hy0 : Qeq_bool y 0 = true) by (apply Qeq_bool_iff; lra).
    now rewrite Hy0.
  - assert (Hnz : ~ x == 0).
    { intros H. apply Qeq_bool_iff in H. congruence. }
    assert (Hy0 : Qeq_bool y 0 = false).
    { apply not_true_iff_false. intros H. apply Qeq_bool_iff in H.
      apply Hnz. lra. }
    rewrite Hy0. unfold ulp_exponent. rewrite (binade_comp x y Hnz Hxy).
    apply Qred_complete.
    rewrite (round_half_even_comp (x / 2 ^ Z.max (binade y - 52) (-1074))
               (y / 2 ^ Z.max (binade y - 52) (-1074)))
      by now rewrite Hxy.
    reflexivity.
Qed.

(** ** Rounding to two decimals *)

Lemma hundredths (m : Z) : (m # 100) * 100 == inject_Z m.
Proof. unfold Qeq, Qmult, inject_Z. simpl. lia. Qed.

Lemma round2_nonneg a : 0 <= a -> 0 <= round2 a.
Proof.
  intros Ha. apply binary64_nonneg.
  assert (Hm : (0 <= round_half_even (a * 100))%Z).
  { apply round_half_even_ge. change (inject_Z 0) with 0. lra. }
  unfold Qle. simpl. lia.
Qed.

(** Rounding to two decimals does not cross a float that has two
    decimals. *)
Lemma round2_ge (K : Z) a :
  binary64 (K # 100) == K # 100 -> (0 <= K)%Z ->
  K # 100 <= a -> K # 100 <= round2 a.
Proof.
  intros Hfix HK Ha. rewrite <- Hfix. unfold round2.
  pose proof (hundredths K) as HKq.
  apply binary64_mono.
  - unfold Qle. simpl. lia.
  - assert (Hm : (K <= round_half_even (a * 100))%Z).
    { apply round_half_even_ge. lra. }
    unfold Qle. simpl. lia.
Qed.

Lemma round2_le (K : Z) a :
  binary64 (K # 100) == K # 100 -> 0 <= a ->
  a <= K # 100 -> round2 a <= K # 100.
Proof.
  intros Hfix H0 Ha. rewrite <- Hfix. unfold round2.
  pose proof (hundredths K) as HKq.
  apply binary64_mono.
  - assert (Hm : (0 <= round_half_even (a * 100))%Z).
    { apply round_half_even_ge. change (inject_Z 0) with 0. lra. }
    unfold Qle. simpl. lia.
  - assert (Hm : (round_half_even (a * 100) <= K)%Z).
    { apply round_half_even_le. lra. }
    unfold Qle. simpl. lia.
Qed.

(** ** Sums and means of numbers that are not negative *)

Lemma fold_float_add_nonneg l : forall a,
  0 <= a -> Forall (fun x => 0 <= x) l -> 0 <= fold_left float_add l a.
Proof.
  induction l as [|x l IH]; intros a Ha Hl; [exact Ha|].
  apply Forall_cons in Hl as [Hx Hl]. cbn [fold_left].
  apply IH; [|exact Hl]. apply binary64_nonneg. lra.
Qed.

Lemma float_mean_nonneg l :
  Forall (fun x => 0 <= x) l -> 0 <= float_mean l.
Proof.
  intros Hl. unfold float_mean. destruct l as [|x0 l0]; [lra|].
  apply binary64_nonneg. apply Qmult_le_0_compat.
  - apply fold_float_add_nonneg; [lra | exact Hl].
  - apply Qinv_le_0_compat.
    assert (H : (0 <= Z.of_nat (length (x0 :: l0)))%Z) by lia.
    rewrite Zle_Qle in H. exact H.
Qed.

(** ** The error of the mean *)








End FloatFacts.

Module EvaluatorFacts.

Import Py Spec Evaluator PyFacts FloatFacts.

Lemma Qmake_nonneg z p : (0 <= z)%Z -> (0 <= z # p)%Q.
Proof. intros Hz. unfold Qle. simpl. lia. Qed.

(** The score pattern needs no backtracking: an attempt at the head of
    the text succeeds exactly when the longest run of digits, with the
    longest fraction if there is one, is followed by [/10]. *)
Lemma match_score_here_greedy s : match_score_here s = greedy_score_here s.
Proof.
  unfold match_score_here, greedy_score_here, score_group, span_digits.
  unfold re_seq at 1.
  rewrite re_plus_char_greedy.
  2:{ intros acc c s' Hc. unfold re_opt, re_seq.
      rewrite re_lit_none, re_lit_test, startswith_head_ne;
        auto using startswith_head_ne, digit_not_dot, digit_not_slash. }
  destruct (span isdigit s) as [ip r]. simpl fst. simpl snd.
  rewrite append_empty_l.
  destruct (is_empty ip); [reflexivity|].
  unfold re_opt, re_seq.
  destruct r as [|c r'].
  - rewrite re_lit_none, re_lit_test by reflexivity. reflexivity.
  - destruct (Ascii.eqb c ".") eqn:Hdot.
    + apply Ascii.eqb_eq in Hdot as ->.
      unfold re_lit at 1. cbn [strip_prefix]. rewrite Ascii.eqb_refl.
      rewrite re_plus_char_greedy.
      2:{ intros acc c s' Hc.
          rewrite re_lit_test, startswith_head_ne;
            auto using digit_not_slash. }
      destruct (span isdigit r') as [fp r'']. simpl fst. simpl snd.
      rewrite !re_lit_test, append_assoc.
      rewrite (startswith_head_ne "/" "10" "." r') by discriminate.
      destruct (is_empty fp); simpl; [reflexivity|].
      now destruct (startswith "/10" r'').
    + rewrite re_lit_none, re_lit_test; [reflexivity|].
      apply startswith_head_ne. intros <-.
      now rewrite Ascii.eqb_refl in Hdot.
Qed.

(** Whatever the score pattern captures, [float] converts it, to a number
    that is not negative. *)
Lemma match_score_here_float s g :
  match_score_here s = Some g ->
  exists x, float g = Some x /\ (0 <= x)%Q.
Proof.
  rewrite match_score_here_greedy. unfold greedy_score_here, span_digits.
  destruct (span isdigit s) as [ip r] eqn:Hs.
  apply span_spec in Hs as (_ & Hip & _).
  destruct (is_empty ip) eqn:Hne; [discriminate|].
  apply is_empty_false in Hne.
  destruct r as [|c r']; [discriminate|].
  destruct (Ascii.eqb c ".") eqn:Hc.
  - destruct (span isdigit r') as [fp r''] eqn:Hr.
    apply span_spec in Hr as (_ & Hfp & _).
    destruct (is_empty fp) eqn:Hfne; simpl; [discriminate|].
    apply is_empty_false in Hfne.
    destruct (startswith "/10" r''); [|discriminate].
    intros [= <-]. rewrite float_decimal by assumption.
    eexists; split; [reflexivity|].
    apply binary64_nonneg, Qmake_nonneg, digits_value_nonneg. lia.
  - destruct (startswith "/10" _); [|discriminate].
    intros [= <-]. rewrite float_integer by assumption.
    eexists; split; [reflexivity|].
    apply binary64_nonneg, Qmake_nonneg, digits_value_nonneg. lia.
Qed.

Lemma search_score_float s g :
  search_score s = Some g ->
  exists x, float g = Some x /\ (0 <= x)%Q.
Proof.
  induction s as [|c s IH].
  - intros H. vm_compute in H. discriminate H.
  - change (search_score (String c s))
      with (match match_score_here (String c s) with
            | Some g => Some g
            | None => search_score s
            end).
    destruct (match_score_here (String c s)) eqn:Hm.
    + intros [= <-]. eauto using match_score_here_float.
    + exact IH.
Qed.

(** Case analysis following the branches of [parse_line]. *)
Ltac parse_line_cases :=
  unfold parse_line;
  repeat match goal with
    | |- context [let (_, _) := ?st in _] => destruct st
    | |- context [if is_empty (strip ?raw) then _ else _] =>
        destruct (is_empty (strip raw)) eqn:?
    | |- context [if startswith ?l ?line then _ else _] =>
        destruct (startswith l line) eqn:?
    | |- context [match search_score ?line with _ => _ end] =>
        let H := fresh "Hsearch" in
        destruct (search_score line) eqn:H;
        [ let x := fresh "x" in
          let Hx := fresh "Hx" in
          let Hpos := fresh "Hpos" in
          destruct (search_score_float _ _ H) as (x & Hx & Hpos);
          rewrite Hx | ]
    | |- context [match ?cur with Some _ => _ | None => _ end] =>
        destruct cur as [[]|]
    end.

(** No line makes the loop body raise. *)
Lemma parse_line_ok st raw : exists st', parse_line st raw = Ok st'.
Proof. parse_line_cases; eauto. Qed.

Lemma parse_lines_ok lines : forall st, exists st', parse_lines st lines = Ok st'.
Proof.
  induction lines as [|raw lines IH]; simpl; intros st; [eauto|].
  destruct (parse_line_ok st raw) as [st' ->]. apply IH.
Qed.

(** A property of the loop state that every admissible line preserves
    holds when the loop ends. *)
Lemma parse_lines_invariant (P : parse_state -> Prop) (A : string -> Prop) :
  (forall st raw st', A raw -> P st -> parse_line st raw = Ok st' -> P st') ->
  forall lines st st',
    Forall A lines -> P st -> parse_lines st lines = Ok st' -> P st'.
Proof.
  intros Hstep. induction lines as [|raw lines IH]; simpl; intros st st' HA HP.
  - intros [= <-]. exact HP.
  - apply Forall_cons in HA as [Hraw HA].
    destruct (parse_line st raw) as [st1|] eqn:Hline; [|discriminate].
    apply IH; eauto.
Qed.

Lemma parse_line_score_nonneg st raw st' :
  (0 <= score (fst st))%Q -> parse_line st raw = Ok st' ->
  (0 <= score (fst st'))%Q.
Proof.
  revert st st'. intros st. parse_line_cases; intros st' H0 [= <-]; simpl in *; assumption.
Qed.


(** The per-field invariants: a field keeps its initial value, and the
    loop is not inside the field's section, as long as no line carries the
    field's label. *)
Ltac untouched_field :=
  intros st raw st' Hraw HP; revert st'; parse_line_cases;
  intros st' [= <-]; simpl in *; intuition congruence.

Lemma parse_line_keeps_score st raw st' :
  ~ (startswith "Score:" (strip raw) = true
     /\ search_score (strip raw) <> None) ->
  score (fst st) = 0%Q -> parse_line st raw = Ok st' ->
  score (fst st') = 0%Q.
Proof. revert st raw st'. untouched_field. Qed.

Lemma parse_line_keeps_strengths st raw st' :
  startswith "Strengths:" (strip raw) <> true ->
  strengths (fst st) = [] /\ snd st <> Some SecStrengths ->
  parse_line st raw = Ok st' ->
  strengths (fst st') = [] /\ snd st' <> Some SecStrengths.
Proof. revert st raw st'. untouched_field. Qed.

Lemma parse_line_keeps_areas st raw st' :
  startswith "Areas for Improvement:" (strip raw) <> true ->
  areas_for_improvement (fst st) = [] /\ snd st <> Some SecAreas ->
  parse_line st raw = Ok st' ->
  areas_for_improvement (fst st') = [] /\ snd st' <> Some SecAreas.
Proof. revert st raw st'. untouched_field. Qed.

Lemma parse_line_keeps_feedback st raw st' :
  startswith "Feedback:" (strip raw) <> true ->
  feedback (fst st) = "" /\ snd st <> Some SecFeedback ->
  parse_line st raw = Ok st' ->
  feedback (fst st') = "" /\ snd st' <> Some SecFeedback.
Proof. revert st raw st'. untouched_field. Qed.

Lemma parse_line_keeps_overall st raw st' :
  startswith "Overall Assessment:" (strip raw) <> true ->
  overall_assessment (fst st) = "" /\ snd st <> Some SecOverall ->
  parse_line st raw = Ok st' ->
  overall_assessment (fst st') = "" /\ snd st' <> Some SecOverall.
Proof. revert st raw st'. untouched_field. Qed.

Lemma unlabelled_lines label text :
  ~ labelled label text ->
  Forall (fun raw => startswith label (strip raw) <> true) (split LF text).
Proof. intros H. now apply Forall_Exists_neg. Qed.

(** [_parse_evaluation] returns on every text. *)
Lemma parse_evaluation_ok text :
  exists e cur,
    parse_lines (initial_evaluation, None) (split LF text) = Ok (e, cur)
    /\ _parse_evaluation text = Ok e.
Proof.
  unfold _parse_evaluation.
  destruct (parse_lines_ok (split LF text) (initial_evaluation, None))
    as [[e cur] ->].
  eauto.
Qed.

(** C9.  The evaluation parser never raises: on every text it returns a
    record with its five fields, and a field whose label occurs on no line
    of the text has its default value: 0 for the score, the empty list
    for the strengths and the areas for improvement, the empty string for
    the feedback and the overall assessment. *)
Theorem parse_evaluation_total (text : string) :
  exists e,
    _parse_evaluation text = Ok e
    /\ (~ labelled "Score:" text -> score e = 0%Q)
    /\ (~ labelled "Strengths:" text -> strengths e = [])
    /\ (~ labelled "Areas for Improvement:" text ->
        areas_for_improvement e = [])
    /\ (~ labelled "Feedback:" text -> feedback e = "")
    /\ (~ labelled "Overall Assessment:" text -> overall_assessment e = "").
Proof.
  destruct (parse_evaluation_ok text) as (e & cur & Hrun & He).
  exists e. split; [exact He|].
  repeat split; intros Hlabel; apply unlabelled_lines in Hlabel.
  - refine (parse_lines_invariant (fun st => score (fst st) = 0%Q) _
              parse_line_keeps_score _ (initial_evaluation, None) (e, cur)
              _ eq_refl Hrun).
    eapply Forall_impl; [exact Hlabel|]. intros raw Hn [Hs _]. auto.
  - refine (proj1 (parse_lines_invariant _ _
              parse_line_keeps_strengths _ (initial_evaluation, None) (e, cur)
              Hlabel _ Hrun)).
    split; [reflexivity | discriminate].
  - refine (proj1 (parse_lines_invariant _ _
              parse_line_keeps_areas _ (initial_evaluation, None) (e, cur)
              Hlabel _ Hrun)).
    split; [reflexivity | discriminate].
  - refine (proj1 (parse_lines_invariant _ _
              parse_line_keeps_feedback _ (initial_evaluation, None) (e, cur)
              Hlabel _ Hrun)).
    split; [reflexivity | discriminate].
  - refine (proj1 (parse_lines_invariant _ _
              parse_line_keeps_overall _ (initial_evaluation, None) (e, cur)
              Hlabel _ Hrun)).
    split; [reflexivity | discriminate].
Qed.


(** The empty response gives the initial record. *)
Example parse_evaluation_empty :
  _parse_evaluation "" = Ok initial_evaluation.
Proof. reflexivity. Qed.

Lemma parse_evaluation_total_witness :
  exists e,
    _parse_evaluation "The answer was fine." = Ok e
    /\ score e = 0%Q /\ strengths e = [] /\ areas_for_improvement e = []
    /\ feedback e = "" /\ overall_assessment e = "".
Proof.
  destruct (parse_evaluation_total "The answer was fine.")
    as (e & He & Hs & Hst & Ha & Hf & Ho).
  exists e. split; [exact He|].
  assert (Hfree : forall label,
             startswith label "The answer was fine." = false ->
             ~ labelled label "The answer was fine.").
  { intros label Hl Hex. apply Exists_cons in Hex as [Hex | Hex].
    - change (strip "The answer was fine.") with "The answer was fine." in Hex.
      congruence.
    - apply Exists_nil in Hex. exact Hex. }
  repeat split;
    [apply Hs | apply Hst | apply Ha | apply Hf | apply Ho];
    apply Hfree; reflexivity.
Defined.

(** The score of a parsed response is not negative. *)
Lemma parse_evaluation_nonneg text e :
  _parse_evaluation text = Ok e -> (0 <= score e)%Q.
Proof.
  intros He.
  destruct (parse_evaluation_ok text) as (e' & cur & Hrun & He').
  rewrite He in He'. injection He' as <-.
  refine (parse_lines_invariant (fun st => (0 <= score (fst st))%Q)
            (fun _ => True) _ _ (initial_evaluation, None) (e, cur)
            _ _ Hrun).
  - intros st raw st' _. apply parse_line_score_nonneg.
  - apply Forall_forall. auto.
  - simpl. apply Qle_refl.
Qed.

(** ** The number that the score pattern captures *)

Lemma parse_lines_app st l1 l2 :
  parse_lines st (l1 ++ l2)
  = match parse_lines st l1 with
    | Ok st' => parse_lines st' l2
    | Raise msg => Raise msg
    end.
Proof.
  revert st. induction l1 as [|raw l1 IH]; intros st; simpl; [reflexivity|].
  destruct (parse_line st raw); [apply IH | reflexivity].
Qed.

(** A line that carries no score leaves the score as it is. *)
Lemma parse_line_keeps_score_value (x : Q) st raw st' :
  ~ score_line raw ->
  score (fst st) = x -> parse_line st raw = Ok st' -> score (fst st') = x.
Proof.
  unfold score_line. revert st raw st'. untouched_field.
Qed.

(** A line that carries a score sets it, and changes nothing else. *)
Lemma parse_line_score st raw g :
  startswith "Score:" (strip raw) = true ->
  search_score (strip raw) = Some g ->
  exists x,
    float g = Some x
    /\ parse_line st raw
       = Ok ({| score := x; strengths := strengths (fst st);
                areas_for_improvement := areas_for_improvement (fst st);
                feedback := feedback (fst st);
                overall_assessment := overall_assessment (fst st) |},
             snd st).
Proof.
  intros Hs Hg. destruct (search_score_float _ _ Hg) as (x & Hx & _).
  exists x. split; [exact Hx|]. unfold parse_line. destruct st as [ev cur].
  destruct (is_empty (strip raw)) eqn:He.
  - apply is_empty_true in He. rewrite He in Hs. discriminate Hs.
  - now rewrite Hs, Hg, Hx.
Qed.

Lemma score_line_dec raw : {score_line raw} + {~ score_line raw}.
Proof.
  unfold score_line.
  destruct (startswith "Score:" (strip raw)); [|right; intros [H _]; discriminate H].
  destruct (search_score (strip raw)) as [g|].
  - left. split; [reflexivity | discriminate].
  - right. intros [_ H]. now apply H.
Qed.

(** The last line of a list that carries a score. *)
Lemma last_score_line lines :
  Exists score_line lines ->
  exists before raw after,
    lines = (before ++ raw :: after)%list
    /\ score_line raw /\ Forall (fun later => ~ score_line later) after.
Proof.
  induction lines as [|raw lines IH]; intros Hex.
  - apply Exists_nil in Hex. contradiction.
  - destruct (@Exists_dec _ score_line score_line_dec lines)
      as [Hlater|Hnone].
    + destruct (IH Hlater) as (before & raw' & after & -> & Hraw & Hafter).
      exists (raw :: before), raw', after. auto.
    + apply Exists_cons in Hex as [Hraw|Hlater]; [|contradiction].
      exists [], raw, lines. split; [reflexivity|]. split; [exact Hraw|].
      now apply Forall_Exists_neg.
Qed.

Lemma digits_value_app a : forall b acc,
  digits_value acc (a ++ b) = digits_value (digits_value acc a) b.
Proof.
  induction a as [|c a IH]; intros b acc; [reflexivity|].
  rewrite append_cons. simpl. apply IH.
Qed.

(** The number read digit by digit is the number that the digits write. *)
Lemma digits_value_decimal s : forall acc,
  digits_value acc s
  = (acc * 10 ^ Z.of_nat (String.length s) + decimal_number s)%Z.
Proof.
  induction s as [|c s IH]; intros acc.
  - simpl. lia.
  - cbn [digits_value decimal_number String.length]. rewrite IH.
    unfold digit_value. rewrite Nat2Z.inj_succ, Z.pow_succ_r by lia. ring.
Qed.

Lemma integer_value ip :
  (digits_value 0 ip # 1 == numeral_value ip "")%Q.
Proof.
  unfold numeral_value. rewrite digits_value_decimal. simpl.
  unfold Qeq, Qplus, Qdiv, Qmult, Qinv, inject_Z. simpl. lia.
Qed.

Lemma decimal_value ip fp :
  fp <> "" ->
  (digits_value 0 (ip ++ fp) # Pos.pow 10 (Pos.of_nat (String.length fp))
   == numeral_value ip fp)%Q.
Proof.
  intros Hfp. unfold numeral_value.
  rewrite digits_value_app, !digits_value_decimal.
  assert (Hpos : Z.pos (Pos.pow 10 (Pos.of_nat (String.length fp)))
                 = (10 ^ Z.of_nat (String.length fp))%Z).
  { rewrite Pos2Z.inj_pow. f_equal.
    destruct fp as [|c fp]; [contradiction|]. cbn [String.length]. lia. }
  rewrite Qmake_Qdiv, Hpos.
  assert (Hten : (0 < 10 ^ Z.of_nat (String.length fp))%Z)
    by (apply Z.pow_pos_nonneg; lia).
  rewrite Zlt_Qlt in Hten. change (inject_Z 0) with 0%Q in Hten.
  rewrite Z.mul_0_l, Z.add_0_l, inject_Z_plus, inject_Z_mult.
  field. lra.
Qed.

Lemma startswith_app l s :
  startswith l s = true -> exists rest, s = l ++ rest.
Proof.
  intros H. apply strip_prefix_startswith in H as [rest H].
  exists rest. now apply strip_prefix_app.
Qed.

(** What one attempt of the score pattern captures: a decimal numeral
    that is followed by [/10], and [float] gives the binary64 number
    nearest to the number it writes. *)
Lemma match_score_here_shape s g :
  match_score_here s = Some g ->
  exists ip fp right,
    all_chars isdigit ip = true /\ ip <> ""
    /\ all_chars isdigit fp = true
    /\ g = numeral_text ip fp
    /\ s = g ++ "/10" ++ right
    /\ float g = Some (binary64 (numeral_value ip fp)).
Proof.
  rewrite match_score_here_greedy. unfold greedy_score_here, span_digits.
  destruct (span isdigit s) as [ip r] eqn:Hs.
  apply span_spec in Hs as (Hsplit & Hip & _).
  destruct (is_empty ip) eqn:Hne; [discriminate|].
  apply is_empty_false in Hne.
  destruct r as [|c r']; [discriminate|].
  destruct (Ascii.eqb c ".") eqn:Hc.
  - apply Ascii.eqb_eq in Hc as ->.
    destruct (span isdigit r') as [fp r''] eqn:Hr.
    apply span_spec in Hr as (Hsplit' & Hfp & _).
    destruct (is_empty fp) eqn:Hfne; simpl; [discriminate|].
    destruct (startswith "/10" r'') eqn:Hten; [|discriminate].
    apply startswith_app in Hten as [right ->].
    intros [= <-]. exists ip, fp, right.
    unfold numeral_text. rewrite Hfne.
    apply is_empty_false in Hfne.
    repeat (split; [assumption || reflexivity|]). split.
    + rewrite Hsplit, Hsplit'.
      change (String "." (fp ++ "/10" ++ right))
        with ("." ++ fp ++ "/10" ++ right).
      now rewrite !append_assoc.
    + rewrite float_decimal by assumption. f_equal.
      apply binary64_comp, decimal_value, Hfne.
  - destruct (startswith "/10" (String c r')) eqn:Hten; [|discriminate].
    apply startswith_app in Hten as [right Hright].
    intros [= <-]. exists ip, "", right.
    repeat (split; [assumption || reflexivity|]). split.
    + now rewrite Hsplit, Hright.
    + rewrite float_integer by assumption. f_equal.
      apply binary64_comp, integer_value.
Qed.

(** A digit in front of a match gives a match that starts earlier. *)
Lemma match_score_here_digit c s g :
  isdigit c = true ->
  match_score_here s = Some g -> match_score_here (String c s) <> None.
Proof.
  intros Hc. rewrite !match_score_here_greedy.
  unfold greedy_score_here, span_digits. cbn [span]. rewrite Hc.
  destruct (span isdigit s) as [ip r].
  destruct (is_empty ip); [discriminate|]. cbn [is_empty].
  destruct r as [|c' r']; [discriminate|].
  destruct (Ascii.eqb c' ".").
  - destruct (span isdigit r') as [fp r''].
    destruct (negb (is_empty fp) && startswith "/10" r''); discriminate.
  - destruct (startswith "/10" (String c' r')); discriminate.
Qed.

(** The search returns the capture of the first position at which the
    pattern matches. *)
Lemma search_score_first s g :
  search_score s = Some g ->
  exists left s',
    s = left ++ s'
    /\ match_score_here s' = Some g
    /\ forall l1 c, left = l1 ++ String c "" ->
                    match_score_here (String c s') = None.
Proof.
  induction s as [|c s IH].
  - intros H. vm_compute in H. discriminate H.
  - change (search_score (String c s))
      with (match match_score_here (String c s) with
            | Some g => Some g
            | None => search_score s
            end).
    destruct (match_score_here (String c s)) eqn:Hm.
    + intros [= <-]. exists "", (String c s).
      split; [reflexivity|]. split; [exact Hm|].
      intros [|? ?] c' H; discriminate H.
    + intros Hrest. destruct (IH Hrest) as (left & s' & -> & Hs' & Hbefore).
      exists (String c left), s'. split; [reflexivity|]. split; [exact Hs'|].
      intros l1 c' Hleft. destruct l1 as [|c1 l1].
      * rewrite append_empty_l in Hleft. injection Hleft as <- ->.
        exact Hm.
      * rewrite append_cons in Hleft. injection Hleft as _ ->.
        now apply (Hbefore l1).
Qed.

(** What the search captures on a line. *)
Lemma search_score_shape s g :
  search_score s = Some g ->
  exists left ip fp right,
    s = left ++ numeral_text ip fp ++ "/10" ++ right
    /\ (forall l1 c, left = l1 ++ String c "" -> isdigit c = false)
    /\ all_chars isdigit ip = true /\ ip <> ""
    /\ all_chars isdigit fp = true
    /\ float g = Some (binary64 (numeral_value ip fp)).
Proof.
  intros Hg.
  destruct (search_score_first s g Hg) as (left & s' & -> & Hs' & Hbefore).
  destruct (match_score_here_shape s' g Hs')
    as (ip & fp & right & Hip & Hne & Hfp & -> & -> & Hfloat).
  exists left, ip, fp, right. split; [reflexivity|]. split.
  - intros l1 c Hleft. destruct (isdigit c) eqn:Hc; [|reflexivity].
    exfalso. apply (match_score_here_digit c _ _ Hc Hs').
    now apply (Hbefore l1).
  - auto.
Qed.

Lemma split_no_LF s :
  all_chars (fun c => negb (Ascii.eqb c LF)) s = true -> split LF s = [s].
Proof.
  induction s as [|c s IH]; [reflexivity|].
  cbn [all_chars split]. intros H. apply andb_true_iff in H as [Hc Hs].
  apply negb_true_iff in Hc. rewrite Hc, (IH Hs). reflexivity.
Qed.

Lemma all_chars_weaken (p q : ascii -> bool) s :
  (forall c, p c = true -> q c = true) ->
  all_chars p s = true -> all_chars q s = true.
Proof.
  intros Hpq. induction s as [|c s IH]; [reflexivity|]. simpl.
  intros H. apply andb_true_iff in H as [Hc Hs].
  now rewrite (Hpq c Hc), (IH Hs).
Qed.

Lemma rstrip_app_kept a b :
  rstrip b = b -> b <> "" -> rstrip (a ++ b) = a ++ b.
Proof.
  intros Hb Hne. induction a as [|c a IH]; [exact Hb|].
  rewrite append_cons. simpl. rewrite IH.
  destruct (a ++ b) eqn:Hab.
  - destruct a; [now rewrite append_empty_l in Hab | discriminate Hab].
  - now rewrite andb_false_r.
Qed.

Lemma search_score_skip c s :
  isdigit c = false -> search_score (String c s) = search_score s.
Proof.
  intros Hc.
  change (search_score (String c s))
    with (match match_score_here (String c s) with
          | Some g => Some g
          | None => search_score s
          end).
  rewrite match_score_here_greedy. unfold greedy_score_here, span_digits.
  cbn [span]. now rewrite Hc.
Qed.

Lemma search_score_integer ip :
  all_chars isdigit ip = true -> ip <> "" ->
  search_score (ip ++ "/10") = Some ip.
Proof.
  intros Hip Hne.
  assert (Hm : match_score_here (ip ++ "/10") = Some ip).
  { rewrite match_score_here_greedy. unfold greedy_score_here, span_digits.
    rewrite span_app by (assumption || reflexivity).
    apply is_empty_false in Hne. now rewrite Hne. }
  destruct ip as [|c ip]; [contradiction|]. rewrite append_cons in *.
  change (search_score (String c (ip ++ "/10")))
    with (match match_score_here (String c (ip ++ "/10")) with
          | Some g => Some g
          | None => search_score (ip ++ "/10")
          end).
  now rewrite Hm.
Qed.

(** C2, as the code has it.  On every text the parser returns a score that
    is not negative. The score is 0 when no line starting with [Score:]
    contains a number followed by [/10]. Otherwise it is read on the last
    such line: the line holds a decimal numeral, not preceded by a digit
    and followed by [/10], and the score is the float nearest to the
    number that the numeral writes. Nothing bounds it by 10: the response
    [Score: n/10] gives the float nearest to [n], whatever the digits of
    [n]. *)
Theorem parse_evaluation_score :
  (forall text : string,
     exists e,
       _parse_evaluation text = Ok e
       /\ (0 <= score e)%Q
       /\ (~ score_found text -> score e = 0%Q)
       /\ (score_found text ->
           exists before raw after left ip fp right,
             split LF text = (before ++ raw :: after)%list
             /\ Forall (fun later => ~ score_line later) after
             /\ startswith "Score:" (strip raw) = true
             /\ strip raw = left ++ numeral_text ip fp ++ "/10" ++ right
             /\ (forall l1 c, left = l1 ++ String c "" -> isdigit c = false)
             /\ all_chars isdigit ip = true /\ ip <> ""
             /\ all_chars isdigit fp = true
             /\ ((numeral_value ip fp <= 2 ^ 1023)%Q ->
                 score e = binary64 (numeral_value ip fp))))
  /\ (forall ip : string,
        all_chars isdigit ip = true -> ip <> "" ->
        (inject_Z (decimal_number ip) <= 2 ^ 1023)%Q ->
        exists e,
          _parse_evaluation ("Score: " ++ ip ++ "/10") = Ok e
          /\ score e = binary64 (inject_Z (decimal_number ip))).
Proof.
  split.
  - intros text.
    destruct (parse_evaluation_ok text) as (e & cur & Hrun & He).
    exists e. split; [exact He|].
    split; [exact (parse_evaluation_nonneg _ _ He)|]. split.
    + intros Hnone. apply Forall_Exists_neg in Hnone.
      exact (parse_lines_invariant (fun st => score (fst st) = 0%Q) _
               parse_line_keeps_score _ (initial_evaluation, None) (e, cur)
               Hnone eq_refl Hrun).
    + intros Hfound.
      destruct (last_score_line _ Hfound)
        as (before & raw & after & Hsplit & [Hlabel Hsome] & Hafter).
      destruct (search_score (strip raw)) as [g|] eqn:Hg; [|contradiction].
      destruct (search_score_shape _ _ Hg)
        as (left & ip & fp & right & Hline & Hleft & Hip & Hne & Hfp
            & Hfloat).
      exists before, raw, after, left, ip, fp, right.
      repeat (split; [assumption|]). intros _.
      rewrite Hsplit, parse_lines_app in Hrun.
      destruct (parse_lines_ok before (initial_evaluation, None))
        as [st1 H1].
      rewrite H1 in Hrun. simpl in Hrun.
      destruct (parse_line_score st1 raw g Hlabel Hg) as (x & Hx & Hparse).
      rewrite Hparse in Hrun. rewrite Hfloat in Hx. injection Hx as <-.
      refine (parse_lines_invariant
                (fun st => score (fst st) = binary64 (numeral_value ip fp))
                _ (parse_line_keeps_score_value _) after _ (e, cur)
                Hafter _ Hrun).
      reflexivity.
  - intros ip Hip Hne _.
    assert (Hdigits : all_chars (fun c => negb (Ascii.eqb c LF))
                        ("Score: " ++ ip ++ "/10") = true).
    { rewrite !all_chars_app, andb_true_iff. split; [reflexivity|].
      rewrite andb_true_iff. split; [|reflexivity].
      apply (all_chars_weaken isdigit); [|exact Hip].
      intros c Hc. destruct (Ascii.eqb_spec c LF) as [->|]; [discriminate Hc|].
      reflexivity. }
    assert (Hstrip : strip ("Score: " ++ ip ++ "/10")
                     = "Score: " ++ ip ++ "/10").
    { unfold strip. change (lstrip ("Score: " ++ ip ++ "/10"))
        with ("Score: " ++ ip ++ "/10").
      rewrite <- append_assoc. apply rstrip_app_kept;
        [reflexivity | discriminate]. }
    assert (Hsearch : search_score ("Score: " ++ ip ++ "/10") = Some ip).
    { change ("Score: " ++ ip ++ "/10")
        with (String "S" (String "c" (String "o" (String "r" (String "e"
               (String ":" (String " " (ip ++ "/10")))))))).
      rewrite !search_score_skip by reflexivity.
      now apply search_score_integer. }
    unfold _parse_evaluation. rewrite (split_no_LF _ Hdigits).
    cbn [parse_lines].
    destruct (parse_line_score (initial_evaluation, None)
                ("Score: " ++ ip ++ "/10") ip)
      as (x & Hx & Hparse).
    + now rewrite Hstrip.
    + now rewrite Hstrip.
    + rewrite Hparse. eexists. split; [reflexivity|]. simpl.
      rewrite float_integer in Hx by assumption. injection Hx as <-.
      apply binary64_comp. rewrite digits_value_decimal. simpl.
      unfold Qeq. simpl. lia.
Qed.

Lemma parse_evaluation_score_witness :
  (exists e,
     _parse_evaluation "Score: high" = Ok e
     /\ (0 <= score e)%Q /\ score e = 0%Q)
  /\ (exists e,
        _parse_evaluation "Score: 12345678901234567890/10" = Ok e
        /\ (score e == 12345678901234567168)%Q)
  /\ (exists e,
        _parse_evaluation "Score: 7.25/10" = Ok e
        /\ (score e == 7.25)%Q).
Proof.
  destruct parse_evaluation_score as [Hany Hint].
  split; [|split].
  - destruct (Hany "Score: high") as (e & He & Hpos & Hzero & _).
    exists e. split; [exact He|]. split; [exact Hpos|].
    apply Hzero. intros Hex. apply Exists_cons in Hex as [[_ Hex] | Hex].
    + apply Hex. reflexivity.
    + apply Exists_nil in Hex. exact Hex.
  - destruct (Hint "12345678901234567890") as (e & He & Hscore).
    + reflexivity.
    + discriminate.
    + apply Qle_bool_iff. vm_compute. reflexivity.
    + exists e. split; [exact He|]. rewrite Hscore. vm_compute. reflexivity.
  - destruct (Hany "Score: 7.25/10") as (e & He & _ & _ & Hfound).
    exists e. split; [exact He|].
    destruct Hfound
      as (before & raw & after & left & ip & fp & right & _).
    + apply Exists_cons. left. split; [reflexivity | discriminate].
    + vm_compute in He. injection He as <-. vm_compute. reflexivity.
Defined.

(** C2 as stated fails: the response [Score: 15/10] parses to the score
    15, which is above 10. *)
Lemma score_above_ten :
  exists e,
    _parse_evaluation "Score: 15/10" = Ok e /\ ~ (score e <= 10)%Q.
Proof.
  eexists. split; [vm_compute; reflexivity|].
  intros H. vm_compute in H. apply H. reflexivity.
Qed.

(** C7.  The five-line response of the specification parses to the record
    it announces. *)
Theorem parse_evaluation_example :
  _parse_evaluation
    (join (String LF "")
       [ "Score: 8/10";
         "Strengths: clarity, depth";
         "Areas for Improvement: brevity";
         "Feedback: solid answer";
         "Overall Assessment: strong" ])
  = Ok {| score := 8;
          strengths := ["clarity"; "depth"];
          areas_for_improvement := ["brevity"];
          feedback := "solid answer";
          overall_assessment := "strong" |}.
Proof. vm_compute. reflexivity. Qed.

Ltac qle_bools :=
  repeat match goal with
    | H : Qle_bool _ _ = true |- _ => apply Qle_bool_iff in H
    | H : Qle_bool _ _ = false |- _ =>
        apply not_true_iff_false in H; rewrite Qle_bool_iff in H;
        apply Qnot_le_lt in H
    end.

Ltac level_cases s :=
  unfold _get_performance_level;
  destruct (Qle_bool 8.5 s) eqn:?;
  [| destruct (Qle_bool 7.0 s) eqn:?;
     [| destruct (Qle_bool 5.5 s) eqn:?;
        [| destruct (Qle_bool 4.0 s) eqn:? ]]];
  qle_bools.

(** C6.  The banding of [_get_performance_level] is total: a score at
    least 8.5 is Excellent, otherwise at least 7.0 Good, otherwise at least
    5.5 Average, otherwise at least 4.0 Below Average, otherwise Needs
    Improvement, and these five names are distinct. It is monotonic: a
    higher score never gets a lower level. A score on a band edge gets the
    higher level; 7.0 is Good. *)
Theorem performance_level_banding (s : Q) :
  ((8.5 <= s)%Q -> _get_performance_level s = "Excellent")
  /\ ((7.0 <= s)%Q /\ (s < 8.5)%Q -> _get_performance_level s = "Good")
  /\ ((5.5 <= s)%Q /\ (s < 7.0)%Q -> _get_performance_level s = "Average")
  /\ ((4.0 <= s)%Q /\ (s < 5.5)%Q ->
      _get_performance_level s = "Below Average")
  /\ ((s < 4.0)%Q -> _get_performance_level s = "Needs Improvement")
  /\ NoDup ["Excellent"; "Good"; "Average"; "Below Average";
            "Needs Improvement"]
  /\ (forall s' : Q,
        (s <= s')%Q ->
        (level_rank (_get_performance_level s)
         <= level_rank (_get_performance_level s'))%nat)
  /\ _get_performance_level 8.5 = "Excellent"
  /\ _get_performance_level 7.0 = "Good"
  /\ _get_performance_level 5.5 = "Average"
  /\ _get_performance_level 4.0 = "Below Average".
Proof.
  repeat apply conj; try reflexivity.
  - intros H. level_cases s; (reflexivity || lra).
  - intros [H1 H2]. level_cases s; (reflexivity || lra).
  - intros [H1 H2]. level_cases s; (reflexivity || lra).
  - intros [H1 H2]. level_cases s; (reflexivity || lra).
  - intros H. level_cases s; (reflexivity || lra).
  - apply (bool_decide_unpack _). vm_compute. exact I.
  - intros s' Hle. level_cases s; level_cases s'; vm_compute level_rank;
      (lia || (exfalso; lra)).
Qed.

Lemma performance_level_banding_witness :
  _get_performance_level 9 = "Excellent"
  /\ _get_performance_level 7.5 = "Good"
  /\ _get_performance_level 6 = "Average"
  /\ _get_performance_level 4.5 = "Below Average"
  /\ _get_performance_level 2 = "Needs Improvement"
  /\ (level_rank (_get_performance_level 5.4)
      <= level_rank (_get_performance_level 5.5))%nat.
Proof.
  split; [apply (performance_level_banding 9); lra|].
  split; [apply (performance_level_banding 7.5); lra|].
  split; [apply (performance_level_banding 6); lra|].
  split; [apply (performance_level_banding 4.5); lra|].
  split; [apply (performance_level_banding 2); lra|].
  apply (performance_level_banding 5.4). lra.
Defined.


(** ** The interview round *)


Section WithModel.

Context {World : Type}.
Variable generate_content : string -> World -> result string * World.


Lemma evaluate_answer_nonneg question answer question_type w e w' :
  evaluate_answer generate_content question answer question_type w
  = (Ok e, w') ->
  (0 <= score e)%Q.
Proof.
  unfold evaluate_answer, reraise, bind, lift, ret.
  destruct (generate_content _ w) as [[text|msg] w1]; [|discriminate].
  destruct (_parse_evaluation (strip text)) as [e1|msg] eqn:Hparse;
    [|discriminate].
  intros [= <- <-]. exact (parse_evaluation_nonneg _ _ Hparse).
Qed.

(** What the loop has accumulated when it ends without an exception: one
    evaluation per pair, appended in order, and their scores added to the
    running total, one rounded addition after the other. *)
Lemma evaluate_pairs_spec questions_answers :
  forall evaluations total_score w evaluations' total_score' w',
    evaluate_pairs generate_content questions_answers evaluations
      total_score w
    = (Ok (evaluations', total_score'), w') ->
    exists new,
      evaluations' = (evaluations ++ new)%list
      /\ length new = length questions_answers
      /\ Forall (fun e => (0 <= score e)%Q) new
      /\ total_score' = fold_left float_add (map score new) total_score.
Proof.
  induction questions_answers as [|qa rest IH];
    intros evaluations total_score w evaluations' total_score' w'; simpl.
  - unfold ret. intros [= <- <- <-]. exists []. rewrite app_nil_r. simpl.
    split; [reflexivity|]. split; [reflexivity|].
    split; [apply Forall_nil; exact I | reflexivity].
  - unfold bind at 1.
    destruct (evaluate_answer _ _ _ _ _) as [[e|msg] w1] eqn:Hans;
      [|discriminate].
    intros Hrest. apply IH in Hrest as (new & -> & Hlen & Hpos & ->).
    exists (e :: new). rewrite <- app_assoc. simpl.
    split; [reflexivity|]. split; [now rewrite Hlen|].
    split; [|reflexivity].
    apply Forall_cons. split; [|exact Hpos].
    exact (evaluate_answer_nonneg _ _ _ _ _ _ Hans).
Qed.


(** The fields of a round that is returned, in terms of its scores. *)
Lemma evaluate_interview_round_fields questions_answers w r w' :
  evaluate_interview_round generate_content questions_answers w
  = (Ok r, w') ->
  total_questions r = length questions_answers
  /\ length (evaluations r) = length questions_answers
  /\ Forall (fun e => (0 <= score e)%Q) (evaluations r)
  /\ average_score r = round2 (float_mean (map score (evaluations r)))
  /\ performance_level r
     = _get_performance_level (float_mean (map score (evaluations r))).
Proof.
  unfold evaluate_interview_round, reraise, bind, ret.
  destruct (evaluate_pairs _ _ _ _ _) as [[[evs tot]|msg] w1] eqn:Hpairs;
    [|discriminate].
  intros [= <- <-]. simpl.
  apply evaluate_pairs_spec in Hpairs as (new & -> & Hlen & Hpos & ->).
  simpl. split; [reflexivity|]. split; [exact Hlen|]. split; [exact Hpos|].
  assert (Hmean :
    match questions_answers with
    | [] => 0%Q
    | _ :: _ =>
        float_div (fold_left float_add (map score new) 0%Q)
          (inject_Z (Z.of_nat (length questions_answers)))
    end = float_mean (map score new)).
  { unfold float_mean, float_sum.
    destruct questions_answers as [|qa rest]; destruct new as [|e new];
      try discriminate; [reflexivity|].
    cbn [map]. rewrite <- Hlen. cbn [length]. now rewrite length_map. }
  rewrite Hmean. split; reflexivity.
Qed.

End WithModel.





End EvaluatorFacts.

Module ReportGeneratorFacts.

Import Py Spec Evaluator ReportGenerator EvaluatorFacts.

Lemma sum_over_len_singleton x : (sum_over_len [x] == x)%Q.
Proof. unfold sum_over_len, sum. simpl. field. Qed.





(** C3 fails on the code.  A round in which every answer scored 0 is
    present, but its average is left out of the overall score: with an HR
    round averaging 0 and a technical round averaging 8, the overall score
    is 8 and the candidate is highly recommended, while the mean over the
    rounds present, which the report's summary shows as its overall
    average, is 4. *)
Theorem overall_score_drops_zero_round :
  exists hr technical,
    fst (evaluate_interview_round (constant_model "Score: 0/10")
           [mkQA "Why this role?" "" (Some "HR")] tt) = Ok hr
    /\ fst (evaluate_interview_round (constant_model "Score: 8/10")
              [mkQA "What is a hash map?" "A table of buckets."
                 (Some "Technical")] tt) = Ok technical
    /\ present_averages (Some hr) (Some technical) = [0; 8]%Q
    /\ (overall_score
          (_create_overall_assessment (Some hr) (Some technical)) == 8)%Q
    /\ recommendation
         (_create_overall_assessment (Some hr) (Some technical))
       = "Strong candidate - Highly recommended"
    /\ (mean (present_averages (Some hr) (Some technical)) == 4)%Q
    /\ (overall_average
          (_create_interview_summary (Some hr) (Some technical)) == 4)%Q.
Proof.
  eexists. eexists.
  split; [vm_compute; reflexivity|].
  split; [vm_compute; reflexivity|].
  repeat split; vm_compute; reflexivity.
Qed.

Ltac recommendation_cases s :=
  unfold recommendation_of;
  destruct (Qle_bool 8.0 s) eqn:?;
  [| destruct (Qle_bool 6.5 s) eqn:?;
     [| destruct (Qle_bool 5.0 s) eqn:? ]];
  qle_bools.

Lemma recommendation_of_average s :
  (5.0 <= s)%Q -> (s < 6.5)%Q ->
  recommendation_of s = "Average candidate - Consider for specific roles".
Proof. intros H1 H2. recommendation_cases s; (reflexivity || lra). Qed.

(** C4, as the code has it.  The recommendation is the banding of the
    overall score: at least 8.0, at least 6.5, at least 5.0, else; the four
    strings are those of the code, whose separator is the ASCII hyphen. A
    report built from an HR round averaging 5.0 and no technical round has
    the overall score 5.0, the recommendation of the third band, and
    exactly the two HR tips as its recommendations. *)
Theorem recommendation_banding (hr technical : option RoundEvaluation) :
  let a := _create_overall_assessment hr technical in
  ((8.0 <= overall_score a)%Q ->
   recommendation a = "Strong candidate - Highly recommended")
  /\ ((6.5 <= overall_score a)%Q /\ (overall_score a < 8.0)%Q ->
      recommendation a = "Good candidate - Recommended")
  /\ ((5.0 <= overall_score a)%Q /\ (overall_score a < 6.5)%Q ->
      recommendation a = "Average candidate - Consider for specific roles")
  /\ ((overall_score a < 5.0)%Q ->
      recommendation a = "Needs improvement - Not recommended at this time")
  /\ (forall r,
        hr = Some r -> technical = None -> (average_score r == 5.0)%Q ->
        (overall_score a == 5.0)%Q
        /\ recommendation a
           = "Average candidate - Consider for specific roles"
        /\ _generate_recommendations hr technical
           = ["Focus on improving communication and interpersonal skills";
              "Practice behavioral interview questions"]).
Proof.
  intros a. subst a. unfold _create_overall_assessment. simpl.
  set (s := match assessment_scores hr technical with
            | [] => 0%Q
            | _ => sum_over_len (assessment_scores hr technical)
            end).
  repeat apply conj.
  - intros H. recommendation_cases s; (reflexivity || lra).
  - intros [H1 H2]. recommendation_cases s; (reflexivity || lra).
  - intros [H1 H2]. now apply recommendation_of_average.
  - intros H. recommendation_cases s; (reflexivity || lra).
  - intros r -> -> Havg. subst s. unfold assessment_scores.
    assert (Ht : truthy (average_score r) = true).
    { unfold truthy. apply negb_true_iff, not_true_iff_false.
      intros Heq. apply Qeq_bool_iff in Heq. rewrite Havg in Heq.
      discriminate Heq. }
    rewrite Ht. simpl.
    assert (Hs : (sum_over_len [average_score r] == 5.0)%Q)
      by now rewrite sum_over_len_singleton.
    split; [exact Hs|]. split.
    + apply recommendation_of_average; rewrite Hs; lra.
    + unfold _generate_recommendations.
      assert (Hlow : Qle_bool 6.0 (average_score r) = false).
      { apply not_true_iff_false. intros Hle.
        apply Qle_bool_iff in Hle. rewrite Havg in Hle. lra. }
      now rewrite Hlow.
Qed.

Lemma recommendation_banding_witness :
  let hr := Some {| evaluations := []; average_score := 5.0;
                    total_questions := 4; overall_feedback := "";
                    performance_level := "Below Average" |} in
  (overall_score (_create_overall_assessment hr None) == 5.0)%Q
  /\ recommendation (_create_overall_assessment hr None)
     = "Average candidate - Consider for specific roles"
  /\ _generate_recommendations hr None
     = ["Focus on improving communication and interpersonal skills";
        "Practice behavioral interview questions"].
Proof.
  intros hr.
  destruct (recommendation_banding hr None) as (_ & _ & _ & _ & Hscenario).
  apply (Hscenario _ eq_refl eq_refl). reflexivity.
Defined.

(** C4 as stated fails on the exact text: the specification writes the
    separator of the recommendation as an en dash, the code produces an
    ASCII hyphen. *)
Lemma recommendation_has_hyphen :
  let hr := Some {| evaluations := []; average_score := 5.0;
                    total_questions := 4; overall_feedback := "";
                    performance_level := "Below Average" |} in
  recommendation (_create_overall_assessment hr None)
  = "Average candidate - Consider for specific roles"
  /\ recommendation (_create_overall_assessment hr None)
     <> "Average candidate – Consider for specific roles".
Proof.
  intros hr. split; [reflexivity|].
  intros H. vm_compute in H. discriminate H.
Qed.

End ReportGeneratorFacts.

Module ResumeParserFacts.

Import Py Spec ResumeParser PyFacts.

Lemma content_of_cons raw lines :
  content_of (raw :: lines)
  = if is_empty (strip raw) then content_of lines
    else strip raw :: content_of lines.
Proof.
  unfold content_of. simpl. rewrite filter_cons.
  destruct (decide (strip raw <> "")) as [Hne|He].
  - apply is_empty_false in Hne. now rewrite Hne.
  - apply dec_stable in He. apply is_empty_true in He. now rewrite He.
Qed.

Lemma scan_lines_app st l1 l2 :
  scan_lines st (l1 ++ l2) = scan_lines (scan_lines st l1) l2.
Proof. apply fold_left_app. Qed.

(** Lines that are not headers only extend the block being accumulated. *)
Lemma scan_lines_plain block : forall sections current_section content,
  Forall plain_line block ->
  scan_lines (sections, current_section, content) block
  = (sections, current_section, (content ++ content_of block)%list).
Proof.
  induction block as [|raw block IH]; intros sections cur content Hplain.
  - simpl. now rewrite app_nil_r.
  - apply Forall_cons in Hplain as [Hraw Hplain].
    unfold scan_lines in *. simpl. rewrite content_of_cons.
    unfold plain_line in Hraw.
    destruct (is_empty (strip raw)) eqn:He.
    + now apply IH.
    + rewrite Hraw, IH by assumption. now rewrite <- app_assoc.
Qed.

(** A header line closes the block being accumulated and opens a new one
    under its key. *)
Lemma scan_line_header sections current_section content key raw :
  header_line key raw ->
  scan_line (sections, current_section, content) raw
  = (save_section sections current_section content, key, []).
Proof.
  intros (header & Hdet & <-). unfold scan_line.
  destruct (is_empty (strip raw)) eqn:He.
  - apply is_empty_true in He. rewrite He in Hdet. discriminate Hdet.
  - now rewrite Hdet.
Qed.

Lemma lookup_save_section_ne sections current_section content key :
  current_section <> key ->
  save_section sections current_section content !! key = sections !! key.
Proof.
  intros Hne. unfold save_section.
  destruct content; [reflexivity|]. now apply lookup_insert_ne.
Qed.

Lemma lookup_save_section_eq sections key content :
  content <> [] ->
  save_section sections key content !! key
  = Some (join (String LF "") content).
Proof.
  intros Hne. unfold save_section.
  destruct content; [contradiction|]. apply lookup_insert_eq.
Qed.

(** While no header with the key [key] is met and the current section is
    another one, the entry under [key] does not change. *)
Lemma scan_lines_other_key key rest :
  forall sections current_section content sections' current_section' content',
    current_section <> key ->
    Forall (fun raw => ~ header_line key raw) rest ->
    scan_lines (sections, current_section, content) rest
    = (sections', current_section', content') ->
    current_section' <> key /\ sections' !! key = sections !! key.
Proof.
  induction rest as [|raw rest IH];
    intros sections cur content sections' cur' content' Hcur Hrest.
  - simpl. intros [= <- <- <-]. auto.
  - apply Forall_cons in Hrest as [Hraw Hrest].
    unfold scan_lines in *. simpl.
    destruct (is_empty (strip raw)) eqn:He; [now apply IH|].
    destruct (detect_header (strip raw)) as [header|] eqn:Hdet.
    + intros Hscan. apply IH in Hscan as [Hcur' Hlook]; [|  |assumption].
      * split; [assumption|]. rewrite Hlook.
        now apply lookup_save_section_ne.
      * intros Heq. apply Hraw. exists header. auto.
    + now apply IH.
Qed.

(** C5, as the code has it.  When no line of the text is recognized as a
    section header, the lines are trimmed and the blank ones dropped; if
    nothing is left the mapping is empty, otherwise it has exactly one
    entry, keyed [other], whose content is the trimmed non-blank lines in
    their original order, joined by line feeds. *)
Theorem parse_sections_no_header (text : string) :
  no_header_line text ->
  (content_of (split LF text) = [] -> _parse_sections text = ∅)
  /\ (content_of (split LF text) <> [] ->
      _parse_sections text
      = {[ "other" := join (String LF "") (content_of (split LF text)) ]}).
Proof.
  intros Hplain. unfold _parse_sections, parse_section_lines.
  rewrite scan_lines_plain by exact Hplain. simpl.
  split; intros Hc.
  - now rewrite Hc.
  - unfold save_section.
    destruct (content_of (split LF text)); [contradiction|].
    apply insert_empty.
Qed.

Lemma parse_sections_no_header_witness :
  _parse_sections " Jane Doe " = {[ "other" := "Jane Doe" ]}.
Proof.
  refine (proj2 (parse_sections_no_header " Jane Doe " _) _).
  - apply (bool_decide_unpack _). vm_compute. exact I.
  - vm_compute. discriminate.
Defined.

(** C5 as stated fails twice.  The kept lines are trimmed, so the content
    is not the input with its blank lines removed; and a text whose lines
    are all blank gives no entry at all. *)
Lemma other_section_is_trimmed :
  let text := join (String LF "") ["Jane Doe "; "Python developer"] in
  (no_header_line text
   /\ without_blank_lines text = text
   /\ _parse_sections text
      = {[ "other" := join (String LF "") ["Jane Doe"; "Python developer"] ]}
   /\ _parse_sections text <> {[ "other" := without_blank_lines text ]})
  /\ (no_header_line "" /\ _parse_sections "" = ∅).
Proof.
  intros text. split; [split; [|split; [|split]] | split].
  - apply (bool_decide_unpack _). vm_compute. exact I.
  - vm_compute. reflexivity.
  - vm_compute. reflexivity.
  - intros H. apply (f_equal (fun m => m !! "other")) in H.
    vm_compute in H. discriminate H.
  - apply (bool_decide_unpack _). vm_compute. exact I.
  - vm_compute. reflexivity.
Qed.

(** C10, as the code has it.  Take the last line detected as a header with
    a given key, and the block of lines that follows it up to the next
    header or the end of the text. When that block has a non-blank line,
    the entry stored under the key is that block, trimmed, and nothing
    accumulated after an earlier occurrence of the header remains. *)
Theorem parse_sections_last_block
    (text : string) (before : list string) (hl : string)
    (block rest : list string) (key : string) :
  split LF text = (before ++ hl :: block ++ rest)%list ->
  header_line key hl ->
  Forall plain_line block ->
  content_of block <> [] ->
  Forall (fun raw => ~ header_line key raw) rest ->
  (rest = [] \/ exists h rest', rest = h :: rest' /\ ~ plain_line h) ->
  _parse_sections text !! key
  = Some (join (String LF "") (content_of block)).
Proof.
  intros Hsplit Hhl Hblock Hcontent Hrest Hnext.
  unfold _parse_sections, parse_section_lines. rewrite Hsplit.
  rewrite scan_lines_app.
  destruct (scan_lines (∅, "other", []) before) as [[m0 cur0] c0].
  change (hl :: block ++ rest)%list with ([hl] ++ block ++ rest)%list.
  rewrite !scan_lines_app.
  change (scan_lines (m0, cur0, c0) [hl])
    with (scan_line (m0, cur0, c0) hl).
  rewrite (scan_line_header _ _ _ key) by assumption.
  rewrite scan_lines_plain by assumption. simpl.
  destruct Hnext as [-> | (h & rest' & -> & Hh)].
  - simpl. now apply lookup_save_section_eq.
  - apply Forall_cons in Hrest as [Hhkey Hrest].
    unfold plain_line in Hh.
    destruct (detect_header (strip h)) as [header|] eqn:Hdet;
      [|contradiction].
    assert (Hne : lower header <> key).
    { intros Heq. apply Hhkey. exists header. auto. }
    change (h :: rest') with ([h] ++ rest')%list.
    rewrite scan_lines_app.
    change (scan_lines ?st [h]) with (scan_line st h).
    rewrite (scan_line_header _ _ _ (lower header))
      by (exists header; auto).
    destruct (scan_lines _ rest') as [[m1 cur1] c1] eqn:Hscan.
    apply (scan_lines_other_key key) in Hscan as [Hcur Hlook];
      [| assumption | assumption].
    rewrite lookup_save_section_ne by assumption.
    rewrite Hlook. now apply lookup_save_section_eq.
Qed.

Lemma parse_sections_last_block_witness :
  _parse_sections
    (join (String LF "") ["Skills"; "Python"; "Skills"; "Go"; "Rust"])
  !! "skills"
  = Some (join (String LF "") ["Go"; "Rust"]).
Proof.
  refine (parse_sections_last_block _ ["Skills"; "Python"] "Skills"
            ["Go"; "Rust"] [] "skills" _ _ _ _ _ _).
  - vm_compute. reflexivity.
  - exists "skills". split; vm_compute; reflexivity.
  - apply (bool_decide_unpack _). vm_compute. exact I.
  - vm_compute. discriminate.
  - apply Forall_nil. exact I.
  - left. reflexivity.
Defined.

(** C10 as stated fails when nothing follows the last occurrence of the
    header: the block accumulated after the earlier occurrence is then
    what the mapping holds. *)
Lemma earlier_block_survives :
  let text := join (String LF "") ["Skills"; "Python"; "Skills"] in
  header_line "skills" "Skills"
  /\ split LF text = ["Skills"; "Python"; "Skills"]
  /\ _parse_sections text = {[ "skills" := "Python" ]}.
Proof.
  intros text. split; [|split].
  - exists "skills". split; vm_compute; reflexivity.
  - vm_compute. reflexivity.
  - vm_compute. reflexivity.
Qed.

End ResumeParserFacts.

Module QuestionGeneratorFacts.

Import Py Spec QuestionGenerator PyFacts.

(** Removing the numbering needs no backtracking either: the substitution
    does what the specification says. *)
Lemma strip_numbering_greedy line :
  strip_numbering line = without_numbering line.
Proof.
  unfold strip_numbering, without_numbering, numbering, span_digits.
  unfold re_seq at 1.
  rewrite re_plus_char_greedy.
  2:{ intros acc c s Hc. unfold re_seq.
      apply re_lit_none, startswith_head_ne, digit_not_dot, Hc. }
  destruct (span isdigit line) as [d r]. simpl fst. simpl snd.
  destruct (is_empty d); [reflexivity|].
  unfold re_seq. destruct r as [|c r'].
  - now rewrite re_lit_none by reflexivity.
  - destruct (Ascii.eqb c ".") eqn:Hdot.
    + apply Ascii.eqb_eq in Hdot as ->.
      unfold re_lit. cbn [strip_prefix]. rewrite Ascii.eqb_refl.
      rewrite (re_star_char_first isspace _ r' _
                 (snd (span isspace r')) eq_refl).
      now rewrite lstrip_span.
    + rewrite re_lit_none; [reflexivity|].
      apply startswith_head_ne. intros <-.
      now rewrite Ascii.eqb_refl in Hdot.
Qed.

(** What one pass of the loop body adds to the list. *)
Lemma parse_question_line_spec question_type questions raw :
  parse_question_line question_type questions raw
  = (questions
     ++ map (make_question question_type)
          (filter (fun line => 10 < String.length line)
             (map strip_numbering
                (filter (fun line => line <> "") [strip raw]))))%list.
Proof.
  unfold parse_question_line.
  rewrite filter_cons, filter_nil.
  destruct (decide (strip raw <> "")) as [Hne|He].
  - apply is_empty_false in Hne. rewrite Hne. simpl.
    rewrite filter_cons, filter_nil.
    destruct (decide (10 < String.length (strip_numbering (strip raw))))
      as [Hlong|Hshort].
    + rewrite (proj2 (Nat.ltb_lt _ _) Hlong).
      destruct (strip_numbering (strip raw)); [simpl in Hlong; lia|].
      reflexivity.
    + rewrite (proj2 (Nat.ltb_nlt _ _) Hshort), andb_false_r.
      simpl. now rewrite app_nil_r.
  - apply dec_stable in He. apply is_empty_true in He. rewrite He.
    simpl. now rewrite app_nil_r.
Qed.

Lemma fold_parse_question_lines question_type lines : forall questions,
  fold_left (parse_question_line question_type) lines questions
  = (questions
     ++ map (make_question question_type)
          (filter (fun line => 10 < String.length line)
             (map strip_numbering
                (filter (fun line => line <> "") (map strip lines)))))%list.
Proof.
  induction lines as [|raw lines IH]; intros questions; simpl.
  - now rewrite app_nil_r.
  - rewrite IH, parse_question_line_spec, <- app_assoc. f_equal.
    rewrite <- map_app, <- filter_app, <- map_app, <- filter_app.
    reflexivity.
Qed.

(** C8.  On every response text the parser splits it into lines, trims
    them, drops the blank ones, removes a leading numbering, drops what is
    then at most ten characters long, and returns one record per remaining
    line, in order: the question texts of the records are these lines, and
    every record has the requested type. On the two-line example of the
    specification it returns exactly one question, without its
    numbering. *)
Theorem parse_questions_spec (questions_text question_type : string) :
  map question (_parse_questions questions_text question_type)
  = surviving_lines questions_text
  /\ Forall (fun q => QuestionGenerator.question_type q = question_type)
       (_parse_questions questions_text question_type)
  /\ _parse_questions
       (join (String LF "")
          ["1. Tell me about a challenge you overcame"; "2. hi"])
       question_type
     = [ {| question := "Tell me about a challenge you overcame";
            QuestionGenerator.question_type := question_type;
            difficulty := "Easy";
            category := if String.eqb question_type "HR"
                        then "Problem Solving" else "General Technical" |} ].
Proof.
  split; [|split].
  - unfold _parse_questions, surviving_lines.
    rewrite fold_parse_question_lines. simpl.
    rewrite <- list_fmap_compose.
    rewrite (list_fmap_ext (question ∘ make_question question_type) id)
      by reflexivity.
    rewrite list_fmap_id. f_equal.
    apply map_ext. exact strip_numbering_greedy.
  - unfold _parse_questions. rewrite fold_parse_question_lines. simpl.
    apply Forall_fmap, Forall_forall. reflexivity.
  - vm_compute. reflexivity.
Qed.

End QuestionGeneratorFacts.

(* ===================================================================== *)
(** * Further properties *)
(* ===================================================================== *)

Module PyMore.

Import Py Spec PyFacts.

(** ** Trimming *)

Lemma lstrip_no_leading s : no_leading isspace (lstrip s) = true.
Proof.
  induction s as [|c s IH]; simpl; [reflexivity|].
  destruct (isspace c) eqn:Hc; [exact IH|]. simpl. now rewrite Hc.
Qed.

Lemma lstrip_id s : no_leading isspace s = true -> lstrip s = s.
Proof.
  destruct s as [|c s]; simpl; [reflexivity|].
  intros H. apply negb_true_iff in H. now rewrite H.
Qed.

Lemma rstrip_no_leading s :
  no_leading isspace s = true -> no_leading isspace (rstrip s) = true.
Proof.
  destruct s as [|c s]; simpl; [reflexivity|].
  intros H. apply negb_true_iff in H as Hc. rewrite Hc. simpl. now rewrite Hc.
Qed.

Lemma rstrip_idem s : rstrip (rstrip s) = rstrip s.
Proof.
  induction s as [|c s IH]; simpl; [reflexivity|].
  destruct (isspace c && is_empty (rstrip s)) eqn:Hb; [reflexivity|].
  simpl. rewrite IH, Hb. reflexivity.
Qed.

(** Trimming twice is trimming once. *)
Lemma strip_idem s : strip (strip s) = strip s.
Proof.
  unfold strip.
  rewrite (lstrip_id (rstrip (lstrip s)))
    by apply rstrip_no_leading, lstrip_no_leading.
  apply rstrip_idem.
Qed.

Lemma content_of_app l1 l2 :
  content_of (l1 ++ l2) = (content_of l1 ++ content_of l2)%list.
Proof. unfold content_of. now rewrite map_app, filter_app. Qed.

Lemma map_strip_content_of lines :
  map strip (content_of lines) = content_of lines.
Proof.
  unfold content_of. induction lines as [|raw lines IH]; [reflexivity|].
  simpl. rewrite filter_cons. destruct (decide (strip raw <> "")); [|exact IH].
  simpl. now rewrite strip_idem, IH.
Qed.

(** ** Substrings and lower case *)

Lemma lower_app a b : lower (a ++ b) = lower a ++ lower b.
Proof.
  induction a as [|c a IH]; [reflexivity|].
  rewrite append_cons. simpl. now rewrite IH, append_cons.
Qed.

Lemma lower_char_idem c : lower_char (lower_char c) = lower_char c.
Proof.
  destruct c as [[] [] [] [] [] [] [] []]; reflexivity.
Qed.

Lemma lower_idem s : lower (lower s) = lower s.
Proof.
  induction s as [|c s IH]; simpl; [reflexivity|].
  now rewrite lower_char_idem, IH.
Qed.

Lemma contains_tail needle c hay :
  contains needle hay = true -> contains needle (String c hay) = true.
Proof. intros H. cbn [contains]. rewrite H. apply orb_true_r. Qed.

Lemma prefix_app_contains a b hay :
  String.prefix (a ++ b) hay = true -> contains b hay = true.
Proof.
  revert hay. induction a as [|c a IH]; intros hay.
  - rewrite append_empty_l. intros H.
    destruct hay; cbn [contains]; rewrite H; reflexivity.
  - rewrite append_cons. destruct hay as [|d hay]; [discriminate|].
    cbn [String.prefix]. destruct (ascii_dec c d); [|discriminate].
    intros H. apply contains_tail, IH, H.
Qed.

(** Where a phrase occurs, so does each of its endings. *)
Lemma contains_suffix a b hay :
  contains (a ++ b) hay = true -> contains b hay = true.
Proof.
  induction hay as [|c hay IH]; cbn [contains].
  - rewrite orb_false_r. intros H.
    exact (prefix_app_contains a b "" H).
  - intros H. apply orb_true_iff in H as [H|H].
    + exact (prefix_app_contains a b (String c hay) H).
    + apply contains_tail, IH, H.
Qed.

Lemma prefix_app_l a b hay :
  String.prefix (a ++ b) hay = true -> String.prefix a hay = true.
Proof.
  revert hay. induction a as [|c a IH]; intros hay.
  - intros _. now destruct hay.
  - rewrite append_cons. destruct hay as [|d hay]; [discriminate|].
    cbn [String.prefix]. destruct (ascii_dec c d); [|discriminate].
    apply IH.
Qed.

(** Where a phrase occurs, so does each of its beginnings. *)
Lemma contains_prefix a b hay :
  contains (a ++ b) hay = true -> contains a hay = true.
Proof.
  induction hay as [|c hay IH]; cbn [contains].
  - rewrite !orb_false_r. apply prefix_app_l.
  - intros H. apply orb_true_iff in H as [H|H].
    + now rewrite (prefix_app_l a b _ H).
    + rewrite (IH H). apply orb_true_r.
Qed.

End PyMore.

Module EvaluatorMore.

Import Py Spec Evaluator PyFacts EvaluatorFacts PyMore.

(** ** The loop of the evaluation parser *)

Lemma parse_line_strip st raw : parse_line st (strip raw) = parse_line st raw.
Proof. unfold parse_line. now rewrite strip_idem. Qed.

Lemma parse_line_blank st raw : strip raw = "" -> parse_line st raw = Ok st.
Proof. intros H. unfold parse_line. rewrite H. now destruct st. Qed.

Lemma parse_lines_content st lines :
  parse_lines st (content_of lines) = parse_lines st lines.
Proof.
  revert st. induction lines as [|raw lines IH]; intros st; [reflexivity|].
  unfold content_of in *. simpl. rewrite filter_cons.
  destruct (decide (strip raw <> "")) as [Hne|He].
  - simpl. rewrite parse_line_strip.
    destruct (parse_line st raw); [apply IH | reflexivity].
  - apply dec_stable in He. rewrite (parse_line_blank st raw He). apply IH.
Qed.

(** X1.  The evaluation parser reads a response through its trimmed
    non-blank lines only: two texts with the same trimmed non-blank lines
    parse to the same result. Indentation, trailing spaces and blank lines
    are immaterial. *)
Theorem parse_evaluation_trimmed_lines (text1 text2 : string) :
  content_of (split LF text1) = content_of (split LF text2) ->
  _parse_evaluation text1 = _parse_evaluation text2.
Proof.
  intros H. unfold _parse_evaluation.
  rewrite <- (parse_lines_content _ (split LF text1)), H.
  now rewrite parse_lines_content.
Qed.

Lemma parse_evaluation_trimmed_lines_witness :
  _parse_evaluation
    (join (String LF "") ["  Score: 6/10  "; ""; "   "; "Feedback: fine "])
  = _parse_evaluation (join (String LF "") ["Score: 6/10"; "Feedback: fine"]).
Proof.
  apply parse_evaluation_trimmed_lines. vm_compute. reflexivity.
Defined.

(** X2.  The last line that carries a score decides it: when a line
    starting with [Score:] contains a number followed by [/10] and no later
    line carries a score, the parsed score is the value of that number.
    Earlier scores are overwritten, and a later [Score:] line without a
    number does not reset it. *)
Theorem parse_evaluation_last_score
    (text : string) (before : list string) (raw : string)
    (after : list string) (g : string) :
  split LF text = (before ++ raw :: after)%list ->
  startswith "Score:" (strip raw) = true ->
  search_score (strip raw) = Some g ->
  Forall (fun later => ~ score_line later) after ->
  exists e x,
    _parse_evaluation text = Ok e /\ float g = Some x /\ score e = x.
Proof.
  intros Hsplit Hs Hg Hafter.
  destruct (parse_evaluation_ok text) as (e & cur & Hrun & He).
  rewrite Hsplit, parse_lines_app in Hrun.
  destruct (parse_lines_ok before (initial_evaluation, None)) as [st1 H1].
  rewrite H1 in Hrun. simpl in Hrun.
  destruct (parse_line_score st1 raw g Hs Hg) as (x & Hx & Hline).
  rewrite Hline in Hrun.
  exists e, x. split; [exact He|]. split; [exact Hx|].
  refine (parse_lines_invariant (fun st => score (fst st) = x) _
            (parse_line_keeps_score_value x) after _ (e, cur)
            Hafter _ Hrun).
  reflexivity.
Qed.

Lemma parse_evaluation_last_score_witness :
  exists e,
    _parse_evaluation
      (join (String LF "")
         ["Score: 3/10"; "Score: 7.5/10"; "Score: to be confirmed"])
    = Ok e
    /\ (score e == 7.5)%Q.
Proof.
  destruct (parse_evaluation_last_score
              (join (String LF "")
                 ["Score: 3/10"; "Score: 7.5/10"; "Score: to be confirmed"])
              ["Score: 3/10"] "Score: 7.5/10" ["Score: to be confirmed"]
              "7.5")
    as (e & x & He & Hx & Hscore).
  - vm_compute. reflexivity.
  - vm_compute. reflexivity.
  - vm_compute. reflexivity.
  - apply Forall_cons. split; [|apply Forall_nil; exact I].
    intros [_ Hfound]. apply Hfound. vm_compute. reflexivity.
  - exists e. split; [exact He|].
    rewrite Hscore. vm_compute in Hx. injection Hx as <-. reflexivity.
Defined.


(** ** Sections and their continuation lines *)

Lemma startswith_exclusive a l b l' s :
  a <> b ->
  startswith (String a l) s = true -> startswith (String b l') s = false.
Proof.
  intros Hne Hs. destruct s as [|c s]; [reflexivity|].
  apply startswith_head_ne. intros ->.
  rewrite (startswith_head_ne a l c s Hne) in Hs. discriminate Hs.
Qed.

Lemma startswith_exclusive_second x a l b l' s :
  a <> b ->
  startswith (String x (String a l)) s = true ->
  startswith (String x (String b l')) s = false.
Proof.
  intros Hne Hs. unfold startswith in *.
  destruct s as [|c [|c' s]]; cbn [String.prefix] in *.
  - reflexivity.
  - destruct (ascii_dec x c); [discriminate Hs | reflexivity].
  - destruct (ascii_dec x c); [|reflexivity].
    destruct (ascii_dec a c') as [<-|]; [|discriminate Hs].
    destruct (ascii_dec b a); [congruence | reflexivity].
Qed.

Lemma startswith_nonempty a l s :
  startswith (String a l) s = true -> is_empty s = false.
Proof. now destruct s. Qed.

Lemma parse_line_label_free ev cur raw :
  label_free raw -> strip raw <> "" ->
  parse_line (ev, cur) raw = Ok (continue_section ev cur (strip raw), cur).
Proof.
  intros Hfree Hne. unfold label_free, labels in Hfree.
  repeat (apply Forall_cons in Hfree as [? Hfree]).
  apply is_empty_false in Hne. unfold parse_line.
  repeat match goal with H : startswith _ _ = false |- _ => rewrite H; clear H end.
  rewrite Hne. now destruct cur as [[]|].
Qed.

Lemma content_of_label_free lines :
  Forall label_free lines ->
  Forall (fun line => label_free line /\ strip line <> "") (content_of lines).
Proof.
  intros H. unfold content_of. apply Forall_forall. intros line Hin.
  apply list_elem_of_filter in Hin as [Hne Hin].
  apply list_elem_of_fmap in Hin as (raw & -> & Hraw).
  rewrite Forall_forall in H. split.
  - unfold label_free. rewrite strip_idem. now apply H.
  - now rewrite strip_idem.
Qed.

Lemma join_space_snoc a l ls :
  join " " ((a ++ " " ++ l) :: ls) = join " " (a :: l :: ls).
Proof.
  unfold join. destruct ls as [|m ls]; simpl; [reflexivity|].
  now rewrite !append_assoc.
Qed.

(** Continuation lines of the feedback are appended, each after a space. *)
Lemma parse_lines_feedback conts : forall ev,
  Forall (fun line => label_free line /\ strip line <> "") conts ->
  exists ev',
    parse_lines (ev, Some SecFeedback) conts = Ok (ev', Some SecFeedback)
    /\ feedback ev' = join " " (feedback ev :: map strip conts).
Proof.
  induction conts as [|raw conts IH]; intros ev Hc.
  - exists ev. split; reflexivity.
  - apply Forall_cons in Hc as [[Hfree Hne] Hc]. cbn [parse_lines].
    rewrite (parse_line_label_free _ _ _ Hfree Hne).
    destruct (IH (continue_section ev (Some SecFeedback) (strip raw)) Hc)
      as (ev' & -> & Hf).
    exists ev'. split; [reflexivity|].
    rewrite Hf. simpl feedback. apply join_space_snoc.
Qed.

(** Continuation lines of the strengths are split at commas and
    appended. *)
Lemma parse_lines_strengths conts : forall ev,
  Forall (fun line => label_free line /\ strip line <> "") conts ->
  exists ev',
    parse_lines (ev, Some SecStrengths) conts = Ok (ev', Some SecStrengths)
    /\ strengths ev'
       = (strengths ev ++ concat (map comma_items (map strip conts)))%list.
Proof.
  induction conts as [|raw conts IH]; intros ev Hc.
  - exists ev. split; [reflexivity|]. simpl. now rewrite app_nil_r.
  - apply Forall_cons in Hc as [[Hfree Hne] Hc]. cbn [parse_lines].
    rewrite (parse_line_label_free _ _ _ Hfree Hne).
    destruct (IH (continue_section ev (Some SecStrengths) (strip raw)) Hc)
      as (ev' & -> & Hf).
    exists ev'. split; [reflexivity|].
    rewrite Hf. simpl strengths. now rewrite <- app_assoc.
Qed.

(** ** Removing the label from its line *)

Lemma replace_from_skip old new a : forall b,
  replace_from (String.length a) old new (a ++ b) = replace_from 0 old new b.
Proof.
  induction a as [|c a IH]; intros b; [reflexivity|].
  rewrite append_cons. cbn [String.length replace_from]. apply IH.
Qed.

(** A text in which [old] does not occur is left as it is. *)
Lemma replace_absent old new s :
  contains old s = false -> replace old new s = s.
Proof.
  unfold replace. induction s as [|c s IH]; [reflexivity|].
  cbn [contains replace_from]. intros H.
  apply orb_false_iff in H as [Hp Hs].
  rewrite Hp. now rewrite (IH Hs).
Qed.

(** Removing a label from a line that starts with it and does not hold it
    again leaves the rest of the line. *)
Lemma replace_label c label rest :
  contains (String c label) rest = false ->
  replace (String c label) "" (String c label ++ rest) = rest.
Proof.
  intros Hrest. unfold replace. rewrite append_cons.
  cbn [replace_from].
  assert (Hp : String.prefix (String c label) (String c (label ++ rest))
               = true).
  { apply (proj2 (strip_prefix_startswith _ _)). exists rest.
    cbn [strip_prefix]. rewrite Ascii.eqb_refl.
    clear. induction label as [|a l IH]; [reflexivity|].
    rewrite append_cons. cbn [strip_prefix]. now rewrite Ascii.eqb_refl. }
  unfold startswith in Hp. rewrite Hp. rewrite append_empty_l.
  replace (String.length (String c label) - 1)
    with (String.length label) by (cbn [String.length]; lia).
  rewrite replace_from_skip. now apply replace_absent.
Qed.

(** X3.  A line that starts with [Feedback:] and does not hold the label
    again, followed only by lines without a label, gives the feedback made
    of the rest of that line and of the following non-blank lines, trimmed
    and joined by single spaces. *)
Theorem parse_evaluation_feedback_lines
    (text : string) (before : list string) (raw rest : string)
    (conts : list string) :
  split LF text = (before ++ raw :: conts)%list ->
  strip raw = "Feedback:" ++ rest ->
  contains "Feedback:" rest = false ->
  Forall label_free conts ->
  exists e,
    _parse_evaluation text = Ok e
    /\ feedback e = join " " (strip rest :: content_of conts).
Proof.
  intros Hsplit Hraw Hrest Hconts.
  assert (Hlabel : startswith "Feedback:" (strip raw) = true).
  { rewrite Hraw. apply (proj2 (strip_prefix_startswith _ _)).
    exists rest. vm_compute. reflexivity. }
  unfold _parse_evaluation. rewrite Hsplit, parse_lines_app.
  destruct (parse_lines_ok before (initial_evaluation, None))
    as [[ev1 cur1] ->].
  cbn [parse_lines].
  assert (Hline : parse_line (ev1, cur1) raw
                  = Ok ({| score := score ev1; strengths := strengths ev1;
                           areas_for_improvement := areas_for_improvement ev1;
                           feedback := strip rest;
                           overall_assessment := overall_assessment ev1 |},
                        Some SecFeedback)).
  { unfold parse_line.
    rewrite (startswith_nonempty _ _ _ Hlabel).
    rewrite (startswith_exclusive "F" _ "S" "core:" _ ltac:(discriminate) Hlabel).
    rewrite (startswith_exclusive "F" _ "S" "trengths:" _ ltac:(discriminate) Hlabel).
    rewrite (startswith_exclusive "F" _ "A" "reas for Improvement:" _
               ltac:(discriminate) Hlabel).
    rewrite Hlabel, Hraw, (replace_label "F" "eedback:" rest Hrest).
    reflexivity. }
  rewrite Hline. rewrite <- parse_lines_content.
  match goal with
  | |- context [parse_lines (?ev, _) _] =>
      destruct (parse_lines_feedback (content_of conts) ev
                  (content_of_label_free _ Hconts)) as (ev' & -> & Hf)
  end.
  exists ev'. split; [reflexivity|].
  rewrite Hf. now rewrite map_strip_content_of.
Qed.

Lemma parse_evaluation_feedback_lines_witness :
  exists e,
    _parse_evaluation
      (join (String LF "")
         ["Score: 6/10"; "Feedback: clear,"; ""; "  but short  "])
    = Ok e
    /\ feedback e = "clear, but short".
Proof.
  destruct (parse_evaluation_feedback_lines
              (join (String LF "")
                 ["Score: 6/10"; "Feedback: clear,"; ""; "  but short  "])
              ["Score: 6/10"] "Feedback: clear," " clear,"
              [""; "  but short  "])
    as (e & He & Hf).
  - vm_compute. reflexivity.
  - vm_compute. reflexivity.
  - vm_compute. reflexivity.
  - apply (bool_decide_unpack _). vm_compute. exact I.
  - exists e. split; [exact He|]. rewrite Hf. vm_compute. reflexivity.
Defined.

(** When the label occurs again in its line, every occurrence is removed,
    not only the leading one. *)
Example feedback_label_repeated :
  _parse_evaluation "Feedback: see Feedback: above"
  = Ok {| score := 0; strengths := []; areas_for_improvement := [];
          feedback := "see  above"; overall_assessment := "" |}.
Proof. vm_compute. reflexivity. Qed.

(** X4.  The first line of a response that starts with [Strengths:], when
    it does not hold the label again and is followed only by lines without
    a label, gives the list made of the comma-separated items of the rest
    of that line (none when nothing but whitespace follows the label) and
    of the comma-separated items of each following non-blank line, every
    item trimmed, in order. *)
Theorem parse_evaluation_strengths_lines
    (text : string) (before : list string) (raw rest : string)
    (conts : list string) :
  split LF text = (before ++ raw :: conts)%list ->
  Forall (fun line => startswith "Strengths:" (strip line) <> true) before ->
  strip raw = "Strengths:" ++ rest ->
  contains "Strengths:" rest = false ->
  Forall label_free conts ->
  exists e,
    _parse_evaluation text = Ok e
    /\ strengths e
       = ((if is_empty (strip rest) then []
           else map strip (split "," (strip rest)))
          ++ concat (map (fun line => map strip (split "," line))
                       (content_of conts)))%list.
Proof.
  intros Hsplit Hbefore Hraw Hrest Hconts.
  assert (Hlabel : startswith "Strengths:" (strip raw) = true).
  { rewrite Hraw. apply (proj2 (strip_prefix_startswith _ _)).
    exists rest. vm_compute. reflexivity. }
  unfold _parse_evaluation. rewrite Hsplit, parse_lines_app.
  destruct (parse_lines_ok before (initial_evaluation, None))
    as [[ev1 cur1] Hrun1]. rewrite Hrun1.
  assert (Hnone : strengths ev1 = []).
  { refine (proj1 (parse_lines_invariant _ _
              parse_line_keeps_strengths before (initial_evaluation, None)
              (ev1, cur1) Hbefore _ Hrun1)).
    split; [reflexivity | discriminate]. }
  cbn [parse_lines].
  assert (Hline : parse_line (ev1, cur1) raw
                  = Ok ({| score := score ev1;
                           strengths :=
                             (if is_empty (strip rest) then []
                              else comma_items (strip rest));
                           areas_for_improvement := areas_for_improvement ev1;
                           feedback := feedback ev1;
                           overall_assessment := overall_assessment ev1 |},
                        Some SecStrengths)).
  { unfold parse_line.
    rewrite (startswith_nonempty _ _ _ Hlabel).
    rewrite (startswith_exclusive_second "S" "t" _ "c" "ore:" _
               ltac:(discriminate) Hlabel).
    rewrite Hlabel, Hnone, Hraw, (replace_label "S" "trengths:" rest Hrest).
    reflexivity. }
  rewrite Hline. rewrite <- parse_lines_content.
  match goal with
  | |- context [parse_lines (?ev, _) _] =>
      destruct (parse_lines_strengths (content_of conts) ev
                  (content_of_label_free _ Hconts)) as (ev' & -> & Hf)
  end.
  exists ev'. split; [reflexivity|].
  rewrite Hf. now rewrite map_strip_content_of.
Qed.

Lemma parse_evaluation_strengths_lines_witness :
  exists e,
    _parse_evaluation
      (join (String LF "")
         ["Score: 6/10"; "Strengths: calm"; "clear structure, good examples";
          " honest "])
    = Ok e
    /\ strengths e
       = ["calm"; "clear structure"; "good examples"; "honest"].
Proof.
  destruct (parse_evaluation_strengths_lines
              (join (String LF "")
                 ["Score: 6/10"; "Strengths: calm";
                  "clear structure, good examples"; " honest "])
              ["Score: 6/10"] "Strengths: calm" " calm"
              ["clear structure, good examples"; " honest "])
    as (e & He & Hf).
  - vm_compute. reflexivity.
  - apply (bool_decide_unpack _). vm_compute. exact I.
  - vm_compute. reflexivity.
  - vm_compute. reflexivity.
  - apply (bool_decide_unpack _). vm_compute. exact I.
  - exists e. split; [exact He|]. rewrite Hf. vm_compute. reflexivity.
Defined.

(** Here too every occurrence of the label is removed from its line. *)
Example strengths_label_repeated :
  _parse_evaluation "Strengths: a, Strengths: b"
  = Ok {| score := 0; strengths := ["a"; "b"];
          areas_for_improvement := [];
          feedback := ""; overall_assessment := "" |}.
Proof. vm_compute. reflexivity. Qed.

End EvaluatorMore.

Module EvaluatorRound.

Import Py Spec Evaluator PyFacts FloatFacts EvaluatorFacts.

(** X5.  [evaluate_answer] fails exactly when the call to the model
    fails. When the model returns a text, whatever the text, the answer
    is the parse of the trimmed text; when the model raises, the exception
    carries the model's message after [Failed to evaluate answer: ], and
    the world is the one the model left. *)
Theorem evaluate_answer_outcome
    {World : Type}
    (generate_content : string -> World -> result string * World)
    (question answer question_type : string) (w : World) :
  let prompt := EVALUATION_PROMPT question answer question_type in
  (forall text w',
     generate_content prompt w = (Ok text, w') ->
     exists e,
       evaluate_answer generate_content question answer question_type w
       = (Ok e, w')
       /\ _parse_evaluation (strip text) = Ok e)
  /\ (forall msg w',
        generate_content prompt w = (Raise msg, w') ->
        evaluate_answer generate_content question answer question_type w
        = (Raise ("Failed to evaluate answer: " ++ msg), w')).
Proof.
  intros prompt. split.
  - intros text w' Hgen.
    destruct (parse_evaluation_ok (strip text)) as (e & _ & _ & He).
    exists e. split; [|exact He].
    unfold evaluate_answer, reraise, bind, lift, ret.
    fold prompt. now rewrite Hgen, He.
  - intros msg w' Hgen.
    unfold evaluate_answer, reraise, bind, lift, ret.
    fold prompt. now rewrite Hgen.
Qed.

Lemma evaluate_answer_outcome_witness :
  evaluate_answer scripted "Why this role?" "I like it." "HR"
    ["I cannot grade this."; "Score: 9/10"]
  = (Ok initial_evaluation, ["Score: 9/10"])
  /\ evaluate_answer scripted "Why this role?" "I like it." "HR" []
     = (Raise "Failed to evaluate answer: no response", []).
Proof.
  split.
  - destruct (evaluate_answer_outcome scripted "Why this role?" "I like it."
                "HR" ["I cannot grade this."; "Score: 9/10"])
      as [Hok _].
    destruct (Hok "I cannot grade this." ["Score: 9/10"] eq_refl)
      as (e & Hrun & He).
    rewrite Hrun. vm_compute in He. now injection He as <-.
  - apply (evaluate_answer_outcome scripted "Why this role?" "I like it."
             "HR" []).
    reflexivity.
Defined.

Section WithModel.

Context {World : Type}.
Variable generate_content : string -> World -> result string * World.

Lemma evaluate_answer_raise question answer question_type w msg w' :
  evaluate_answer generate_content question answer question_type w
  = (Raise msg, w') ->
  exists msg0,
    generate_content (EVALUATION_PROMPT question answer question_type) w
    = (Raise msg0, w')
    /\ msg = "Failed to evaluate answer: " ++ msg0.
Proof.
  unfold evaluate_answer, reraise, bind, lift, ret.
  destruct (generate_content _ w) as [[text|msg0] w1].
  - destruct (parse_evaluation_ok (strip text)) as (e & _ & _ & ->).
    discriminate.
  - intros [= <- <-]. eauto.
Qed.

Lemma evaluate_answer_returns question answer question_type w e w' :
  evaluate_answer generate_content question answer question_type w
  = (Ok e, w') ->
  exists text,
    generate_content (EVALUATION_PROMPT question answer question_type) w
    = (Ok text, w').
Proof.
  unfold evaluate_answer, reraise, bind, lift, ret.
  destruct (generate_content _ w) as [[text|msg0] w1]; [|discriminate].
  destruct (_parse_evaluation (strip text)); [|discriminate].
  intros [= <- <-]. eauto.
Qed.

(** When the loop raises, the model has answered the pairs before the
    failing one, one call each, and the failing call is the last. *)
Lemma evaluate_pairs_raise questions_answers :
  forall evaluations total_score w msg w',
    evaluate_pairs generate_content questions_answers evaluations
      total_score w
    = (Raise msg, w') ->
    exists done qa later w0 msg0,
      questions_answers = (done ++ qa :: later)%list
      /\ after_calls generate_content done w = Some w0
      /\ generate_content (prompt_of qa) w0 = (Raise msg0, w')
      /\ msg = "Failed to evaluate answer: " ++ msg0.
Proof.
  induction questions_answers as [|qa rest IH];
    intros evaluations total_score w msg w'; simpl.
  - unfold ret. discriminate.
  - unfold bind at 1.
    destruct (evaluate_answer _ _ _ _ w) as [[e|msg1] w1] eqn:Hans.
    + intros Hrest.
      apply IH in Hrest as (done & qa' & later & w0 & msg0 & -> & Hdone
                            & Hgen & ->).
      apply evaluate_answer_returns in Hans as [text Htext].
      exists (qa :: done), qa', later, w0, msg0.
      split; [reflexivity|]. split; [|auto].
      cbn [after_calls]. unfold prompt_of. now rewrite Htext.
    + intros [= <- <-].
      apply evaluate_answer_raise in Hans as (msg0 & Hgen & ->).
      exists [], qa, rest, w, msg0. auto.
Qed.

End WithModel.

(** X6.  When [evaluate_interview_round] raises, the model was called once
    for each pair before the failing one, in order, and answered; the call
    for the next pair raised; the exception carries the model's message
    after the two prefixes; and the world is the one that failing call
    left: the pairs after it are not sent to the model. *)
Theorem evaluate_interview_round_failure
    {World : Type}
    (generate_content : string -> World -> result string * World)
    (questions_answers : list QA) (w : World) (msg : string) (w' : World) :
  evaluate_interview_round generate_content questions_answers w
  = (Raise msg, w') ->
  exists done qa later w0 msg0,
    questions_answers = (done ++ qa :: later)%list
    /\ after_calls generate_content done w = Some w0
    /\ generate_content (prompt_of qa) w0 = (Raise msg0, w')
    /\ msg = "Failed to evaluate interview round: "
             ++ "Failed to evaluate answer: " ++ msg0.
Proof.
  unfold evaluate_interview_round, reraise, bind, ret.
  destruct (evaluate_pairs _ _ _ _ _) as [[[evs tot]|msg1] w1] eqn:Hpairs.
  - discriminate.
  - intros [= <- <-].
    apply evaluate_pairs_raise in Hpairs
      as (done & qa & later & w0 & msg0 & Hsplit & Hdone & Hgen & ->).
    exists done, qa, later, w0, msg0. auto.
Qed.

Lemma evaluate_interview_round_failure_witness :
  exists done qa later,
    [mkQA "Why this role?" "I like it." (Some "HR");
     mkQA "Your strengths?" "Patience." None;
     mkQA "Your weaknesses?" "Impatience." None;
     mkQA "Your plans?" "To learn." None]
    = (done ++ qa :: later)%list
    /\ after_calls (metered 1 "Score: 7/10") done 0%nat = Some 1%nat
    /\ metered 1 "Score: 7/10" (prompt_of qa) 1%nat
       = (Raise "quota exceeded", 2%nat)
    /\ length done = 1%nat /\ length later = 2%nat.
Proof.
  destruct (evaluate_interview_round_failure (metered 1 "Score: 7/10")
              [mkQA "Why this role?" "I like it." (Some "HR");
               mkQA "Your strengths?" "Patience." None;
               mkQA "Your weaknesses?" "Impatience." None;
               mkQA "Your plans?" "To learn." None]
              0%nat
              ("Failed to evaluate interview round: "
               ++ "Failed to evaluate answer: " ++ "quota exceeded") 2%nat)
    as (done & qa & later & w0 & msg0 & Hsplit & Hdone & Hgen & Hmsg).
  - vm_compute. reflexivity.
  - assert (Hw0 : w0 = 1%nat).
    { unfold metered in Hgen. injection Hgen as _ Hw. exact Hw. }
    subst w0.
    assert (Hlen : length done = 1%nat).
    { destruct done as [|a [|b done]].
      - discriminate Hdone.
      - reflexivity.
      - discriminate Hdone. }
    exists done, qa, later. split; [exact Hsplit|]. split; [exact Hdone|].
    split; [reflexivity|]. split; [exact Hlen|].
    apply (f_equal (@length QA)) in Hsplit.
    rewrite length_app in Hsplit. cbn [length] in Hsplit. lia.
Defined.

(** The thresholds of the levels are floats with two decimals. *)
Lemma level_thresholds_exact :
  (binary64 (850 # 100) == 850 # 100)%Q
  /\ (binary64 (700 # 100) == 700 # 100)%Q
  /\ (binary64 (550 # 100) == 550 # 100)%Q
  /\ (binary64 (400 # 100) == 400 # 100)%Q.
Proof. repeat split; vm_compute; reflexivity. Qed.

(** Rounding the mean to two decimals keeps its level or moves it to the
    next one. *)
Lemma round2_level a :
  (0 <= a)%Q ->
  (level_rank (_get_performance_level a)
   <= level_rank (_get_performance_level (round2 a)))%nat
  /\ (level_rank (_get_performance_level (round2 a))
      <= S (level_rank (_get_performance_level a)))%nat.
Proof.
  intros Ha.
  destruct level_thresholds_exact as (H85 & H70 & H55 & H40).
  pose proof (round2_ge 850 a H85 ltac:(lia)) as U85.
  pose proof (round2_ge 700 a H70 ltac:(lia)) as U70.
  pose proof (round2_ge 550 a H55 ltac:(lia)) as U55.
  pose proof (round2_ge 400 a H40 ltac:(lia)) as U40.
  pose proof (round2_le 850 a H85 Ha) as D85.
  pose proof (round2_le 700 a H70 Ha) as D70.
  pose proof (round2_le 550 a H55 Ha) as D55.
  pose proof (round2_le 400 a H40 Ha) as D40.
  set (b := round2 a) in *.
  split.
  - level_cases a; level_cases b; vm_compute level_rank;
      (lia || (exfalso;
               try (specialize (U85 ltac:(lra)));
               try (specialize (U70 ltac:(lra)));
               try (specialize (U55 ltac:(lra)));
               try (specialize (U40 ltac:(lra))); lra)).
  - level_cases a; level_cases b; vm_compute level_rank;
      (lia || (exfalso;
               try (specialize (D85 ltac:(lra)));
               try (specialize (D70 ltac:(lra)));
               try (specialize (D55 ltac:(lra)));
               try (specialize (D40 ltac:(lra))); lra)).
Qed.

(** X7.  The performance level of a round is the banding of the mean as
    the code computes it, before [round]: it is not the banding of the
    average that the round reports. The level of the reported average is
    the round's level or the next higher one, never a lower one. *)
Theorem round_level_before_rounding
    {World : Type}
    (generate_content : string -> World -> result string * World)
    (questions_answers : list QA) (w : World)
    (r : RoundEvaluation) (w' : World) :
  evaluate_interview_round generate_content questions_answers w
  = (Ok r, w') ->
  performance_level r
  = _get_performance_level (float_mean (map score (evaluations r)))
  /\ (level_rank (performance_level r)
      <= level_rank (_get_performance_level (average_score r)))%nat
  /\ (level_rank (_get_performance_level (average_score r))
      <= S (level_rank (performance_level r)))%nat.
Proof.
  intros Hrun.
  apply evaluate_interview_round_fields in Hrun
    as (_ & _ & Hpos & Havg & Hlevel).
  split; [exact Hlevel|]. rewrite Hlevel, Havg.
  apply round2_level, float_mean_nonneg.
  apply Forall_fmap. exact Hpos.
Qed.

Lemma round_level_before_rounding_witness :
  exists r,
    fst (evaluate_interview_round (constant_model "Score: 8.496/10")
           [mkQA "What is a hash map?" "A table of buckets." None] tt)
    = Ok r
    /\ Some (average_score r) = float "8.5"
    /\ performance_level r = "Good"
    /\ _get_performance_level (average_score r) = "Excellent"
    /\ (level_rank (_get_performance_level (average_score r))
        <= S (level_rank (performance_level r)))%nat.
Proof.
  destruct (evaluate_interview_round (constant_model "Score: 8.496/10")
              [mkQA "What is a hash map?" "A table of buckets." None] tt)
    as [[r|msg] w'] eqn:Hrun; [|vm_compute in Hrun; discriminate Hrun].
  exists r. split; [reflexivity|].
  pose proof (round_level_before_rounding _ _ _ _ _ Hrun)
    as (_ & _ & Hrank).
  vm_compute in Hrun. injection Hrun as <- <-.
  split; [vm_compute; reflexivity|]. split; [reflexivity|].
  split; [reflexivity | exact Hrank].
Defined.

End EvaluatorRound.

Module CounterFacts.

Import Py Spec Evaluator.

Lemma recorded_counter_add x c y :
  recorded (counter_add x c) y
  = if String.eqb y x then S (recorded c y) else recorded c y.
Proof.
  induction c as [|[k n] c IH]; simpl.
  - now destruct (String.eqb y x).
  - destruct (String.eqb x k) eqn:Hxk.
    + apply String.eqb_eq in Hxk as ->. simpl.
      now destruct (String.eqb y k).
    + simpl. rewrite IH.
      destruct (String.eqb y k) eqn:Hyk; [|reflexivity].
      apply String.eqb_eq in Hyk as ->.
      rewrite String.eqb_sym in Hxk. now rewrite Hxk.
Qed.

Lemma keys_counter_add x c :
  map fst (counter_add x c)
  = if decide (x ∈ map fst c) then map fst c else (map fst c ++ [x])%list.
Proof.
  induction c as [|[k n] c IH].
  - simpl. destruct (decide (x ∈ [])) as [Hin|_]; [|reflexivity].
    now apply elem_of_nil in Hin.
  - cbn [counter_add]. destruct (String.eqb x k) eqn:Hxk.
    + apply String.eqb_eq in Hxk as ->. cbn [map fst].
      destruct (decide (k ∈ k :: map fst c)) as [_|Hn]; [reflexivity|].
      exfalso. apply Hn, list_elem_of_here.
    + apply String.eqb_neq in Hxk. cbn [map fst]. rewrite IH.
      destruct (decide (x ∈ map fst c)) as [Hin|Hnin];
        destruct (decide (x ∈ k :: map fst c)) as [Hin'|Hnin'];
        try reflexivity.
      * exfalso. now apply Hnin', list_elem_of_further.
      * apply elem_of_cons in Hin' as [->|Hin']; contradiction.
Qed.

Lemma positive_counter_add x c :
  Forall (fun p => 0 < snd p) c ->
  Forall (fun p => 0 < snd p) (counter_add x c).
Proof.
  induction c as [|[k n] c IH]; simpl; intros Hc.
  - apply Forall_cons. split; [simpl; lia | apply Forall_nil; exact I].
  - apply Forall_cons in Hc as [Hn Hc].
    destruct (String.eqb x k); apply Forall_cons; simpl in *; split;
      auto; lia.
Qed.

Lemma recorded_fold l : forall c y,
  recorded (fold_left (fun c x => counter_add x c) l c) y
  = recorded c y + occurrences y l.
Proof.
  unfold occurrences.
  induction l as [|x l IH]; intros c y; simpl; [lia|].
  rewrite IH, recorded_counter_add, filter_cons.
  destruct (String.eqb y x) eqn:Hyx.
  - apply String.eqb_eq in Hyx as ->.
    rewrite decide_True by reflexivity. simpl. lia.
  - apply String.eqb_neq in Hyx.
    rewrite decide_False by congruence. reflexivity.
Qed.

Lemma positive_fold l : forall c,
  Forall (fun p => 0 < snd p) c ->
  Forall (fun p => 0 < snd p) (fold_left (fun c x => counter_add x c) l c).
Proof.
  induction l as [|x l IH]; intros c Hc; simpl; [exact Hc|].
  apply IH, positive_counter_add, Hc.
Qed.

Lemma filter_filter_ne (keys : list string) x (l : list string) :
  x ∈ keys ->
  filter (fun y => y ∉ keys) (filter (fun y => y <> x) l)
  = filter (fun y => y ∉ keys) l.
Proof.
  intros Hx. induction l as [|z l IH]; [reflexivity|].
  rewrite !filter_cons.
  destruct (decide (z <> x)) as [Hne|He].
  - rewrite filter_cons. destruct (decide (z ∉ keys)); now rewrite IH.
  - apply dec_stable in He as ->.
    rewrite decide_False by (intros Hn; contradiction). exact IH.
Qed.

Lemma filter_not_in_snoc (keys : list string) x (l : list string) :
  filter (fun y => y ∉ (keys ++ [x])%list) l
  = filter (fun y => y ∉ keys) (filter (fun y => y <> x) l).
Proof.
  induction l as [|z l IH]; [reflexivity|].
  rewrite !filter_cons.
  destruct (decide (z <> x)) as [Hne|He].
  - rewrite filter_cons.
    destruct (decide (z ∉ keys)) as [Hn|Hi].
    + rewrite decide_True; [now rewrite IH|].
      intros Hin. apply elem_of_app in Hin as [Hin|Hin]; [contradiction|].
      apply list_elem_of_singleton in Hin. contradiction.
    + rewrite decide_False; [exact IH|].
      intros Hn. apply Hi. intros Hin. apply Hn, elem_of_app. now left.
  - apply dec_stable in He as ->.
    rewrite decide_False; [exact IH|].
    intros Hn. apply Hn, elem_of_app. right. apply list_elem_of_here.
Qed.

Lemma keys_fold l : forall c,
  map fst (fold_left (fun c x => counter_add x c) l c)
  = (map fst c
     ++ filter (fun y => y ∉ map fst c) (first_occurrences l))%list.
Proof.
  induction l as [|x l IH]; intros c; simpl.
  - now rewrite app_nil_r.
  - rewrite IH, keys_counter_add, filter_cons.
    destruct (decide (x ∈ map fst c)) as [Hin|Hnin].
    + rewrite decide_False by (intros Hn; contradiction).
      now rewrite filter_filter_ne.
    + rewrite decide_True by assumption.
      rewrite <- app_assoc. simpl. now rewrite filter_not_in_snoc.
Qed.

Lemma first_occurrences_NoDup l : NoDup (first_occurrences l).
Proof.
  induction l as [|x l IH]; simpl; [apply NoDup_nil; exact I|].
  apply NoDup_cons. split.
  - intros Hin. apply list_elem_of_filter in Hin as [Hne _]. now apply Hne.
  - now apply NoDup_filter.
Qed.

Lemma recorded_elem c y n :
  NoDup (map fst c) -> (y, n) ∈ c -> recorded c y = n.
Proof.
  induction c as [|[k m] c IH]; simpl; intros Hnd Hin.
  - now apply elem_of_nil in Hin.
  - apply NoDup_cons in Hnd as [Hk Hnd].
    apply elem_of_cons in Hin as [[= <- <-]|Hin].
    + now rewrite String.eqb_refl.
    + destruct (String.eqb y k) eqn:Hyk; [|now apply IH].
      apply String.eqb_eq in Hyk as ->. exfalso. apply Hk.
      apply list_elem_of_fmap. now exists (k, n).
Qed.

Lemma elem_recorded c y : 0 < recorded c y -> (y, recorded c y) ∈ c.
Proof.
  induction c as [|[k m] c IH]; simpl; [lia|].
  destruct (String.eqb y k) eqn:Hyk.
  - apply String.eqb_eq in Hyk as ->. intros _. apply list_elem_of_here.
  - intros H. apply list_elem_of_further, IH, H.
Qed.

(** X8.  [Counter] as the feedback summary uses it: the counter of a
    list has one entry per distinct element, in the order of first
    occurrence, and the count of an entry is the number of occurrences of
    its element, which is positive. *)
Theorem counter_spec (l : list string) :
  map fst (counter l) = first_occurrences l
  /\ NoDup (map fst (counter l))
  /\ (forall x n,
        (x, n) ∈ counter l <-> n = occurrences x l /\ 0 < n).
Proof.
  assert (Hkeys : map fst (counter l) = first_occurrences l).
  { unfold counter. rewrite keys_fold. simpl.
    induction (first_occurrences l) as [|z k IH]; [reflexivity|].
    rewrite filter_cons, decide_True by apply not_elem_of_nil.
    now rewrite IH. }
  assert (Hnd : NoDup (map fst (counter l)))
    by (rewrite Hkeys; apply first_occurrences_NoDup).
  split; [exact Hkeys|]. split; [exact Hnd|].
  intros x n.
  assert (Hrec : recorded (counter l) x = occurrences x l)
    by (unfold counter; now rewrite recorded_fold).
  split.
  - intros Hin. rewrite <- Hrec. split.
    + symmetry. now apply recorded_elem.
    + pose proof (positive_fold l [] (Forall_nil_2 _)) as Hpos.
      rewrite Forall_forall in Hpos. exact (Hpos _ Hin).
  - intros [-> Hpos]. rewrite <- Hrec in *. now apply elem_recorded.
Qed.

(** ** Sorting by count *)

Lemma insert_by_count_perm x sorted :
  insert_by_count x sorted ≡ₚ x :: sorted.
Proof.
  induction sorted as [|y t IH]; simpl; [reflexivity|].
  destruct (snd y <=? snd x)%nat; [reflexivity|].
  rewrite IH. apply Permutation_swap.
Qed.

Lemma insert_by_count_sorted x sorted :
  StronglySorted count_ge sorted ->
  StronglySorted count_ge (insert_by_count x sorted).
Proof.
  induction sorted as [|y t IH]; simpl; intros Hs.
  - apply SSorted_cons; [apply SSorted_nil | apply Forall_nil; exact I].
  - apply StronglySorted_inv in Hs as [Ht Hy].
    destruct (snd y <=? snd x)%nat eqn:Hle.
    + apply Nat.leb_le in Hle.
      apply SSorted_cons; [now apply SSorted_cons|].
      apply Forall_cons. split; [exact Hle|].
      eapply Forall_impl; [exact Hy|]. unfold count_ge. intros z Hz. lia.
    + apply Nat.leb_gt in Hle.
      apply SSorted_cons; [now apply IH|].
      rewrite insert_by_count_perm. apply Forall_cons. split.
      * unfold count_ge. lia.
      * exact Hy.
Qed.

Lemma insert_by_count_stable x sorted k :
  filter (fun p : string * nat => snd p = k) (insert_by_count x sorted)
  = filter (fun p : string * nat => snd p = k) (x :: sorted).
Proof.
  induction sorted as [|y t IH]; simpl; [reflexivity|].
  destruct (snd y <=? snd x)%nat eqn:Hle; [reflexivity|].
  apply Nat.leb_gt in Hle.
  rewrite (filter_cons _ y), IH, !filter_cons.
  destruct (decide (snd x = k)) as [Hx|Hx];
    destruct (decide (snd y = k)) as [Hy|Hy]; try reflexivity.
  lia.
Qed.

Lemma sort_by_count_spec c :
  fold_right insert_by_count [] c ≡ₚ c
  /\ StronglySorted count_ge (fold_right insert_by_count [] c)
  /\ forall k,
       filter (fun p : string * nat => snd p = k)
         (fold_right insert_by_count [] c)
       = filter (fun p : string * nat => snd p = k) c.
Proof.
  induction c as [|x c (Hperm & Hsorted & Hstable)]; simpl.
  - split; [reflexivity|]. split; [apply SSorted_nil | reflexivity].
  - split; [now rewrite insert_by_count_perm, Hperm|].
    split; [now apply insert_by_count_sorted|].
    intros k. rewrite insert_by_count_stable, !filter_cons, Hstable.
    reflexivity.
Qed.

(** X9.  [most_common n] returns the first [n] entries of a stable sort
    by decreasing count: with the entries it leaves out, it is a
    rearrangement of the counter in which counts never increase and
    entries with equal counts keep their order. *)
Theorem most_common_spec (n : nat) (c : list (string * nat)) :
  exists rest,
    (most_common n c ++ rest)%list ≡ₚ c
    /\ length (most_common n c) = Nat.min n (length c)
    /\ StronglySorted count_ge (most_common n c ++ rest)%list
    /\ forall k,
         filter (fun p : string * nat => snd p = k)
           (most_common n c ++ rest)%list
         = filter (fun p : string * nat => snd p = k) c.
Proof.
  destruct (sort_by_count_spec c) as (Hperm & Hsorted & Hstable).
  exists (drop n (fold_right insert_by_count [] c)).
  unfold most_common. rewrite take_drop.
  split; [exact Hperm|]. split; [|split; assumption].
  rewrite length_take. now rewrite Hperm.
Qed.

End CounterFacts.

Module ReportGeneratorMore.

Import Py Spec Evaluator ReportGenerator EvaluatorFacts ReportGeneratorFacts.




Lemma below_six_spec round :
  below_six round
  <-> match round with
      | Some r => Qle_bool 6.0 (average_score r) = false
      | None => False
      end.
Proof.
  unfold below_six. destruct round as [r|].
  - split.
    + intros (r' & [= <-] & Hlt). apply not_true_iff_false.
      intros Hle. apply Qle_bool_iff in Hle. lra.
    + intros Hb. exists r. split; [reflexivity|]. qle_bools. lra.
  - split; [intros (r & [=] & _) | contradiction].
Qed.

(** X12.  The recommendations are never empty. They contain the HR tips
    exactly when the HR round is present with an average below 6.0, the
    technical tips exactly when the technical round is present with an
    average below 6.0, and the two generic tips exactly when neither is the
    case; HR tips come before technical tips. *)
Theorem recommendations_rules (hr technical : option RoundEvaluation) :
  let hr_tips := ["Focus on improving communication and interpersonal skills";
                  "Practice behavioral interview questions"] in
  let technical_tips :=
    ["Strengthen technical knowledge in core areas";
     "Practice coding problems and system design questions"] in
  let generic_tips := ["Continue building on current strengths";
                       "Consider advanced training in specialized areas"] in
  let result := _generate_recommendations hr technical in
  result <> []
  /\ (below_six hr /\ below_six technical ->
      result = (hr_tips ++ technical_tips)%list)
  /\ (below_six hr /\ ~ below_six technical -> result = hr_tips)
  /\ (~ below_six hr /\ below_six technical -> result = technical_tips)
  /\ (~ below_six hr /\ ~ below_six technical -> result = generic_tips).
Proof.
  intros hr_tips technical_tips generic_tips result.
  subst result hr_tips technical_tips generic_tips.
  rewrite !below_six_spec. unfold _generate_recommendations.
  destruct hr as [h|], technical as [t|];
    repeat match goal with
      | |- context [Qle_bool 6.0 ?x] => destruct (Qle_bool 6.0 x)
      end;
    simpl; (split; [discriminate|]);
    repeat split; intros [H1 H2]; try reflexivity;
    try discriminate; try contradiction;
    exfalso; (apply H1 || apply H2); reflexivity.
Qed.

Lemma recommendations_rules_witness :
  let hr := Some {| evaluations := []; average_score := 5.5;
                    total_questions := 4; overall_feedback := "";
                    performance_level := "Average" |} in
  let technical := Some {| evaluations := []; average_score := 8.0;
                           total_questions := 5; overall_feedback := "";
                           performance_level := "Good" |} in
  _generate_recommendations hr technical
  = ["Focus on improving communication and interpersonal skills";
     "Practice behavioral interview questions"].
Proof.
  intros hr technical.
  apply (recommendations_rules hr technical). split.
  - eexists. split; [reflexivity|]. simpl. lra.
  - intros (r & [= <-] & Hlt). simpl in Hlt. lra.
Defined.

(** X13.  The report shows two overall figures. When the averages of the
    rounds are not negative, the overall score of the assessment is never
    below the overall average of the summary. *)
Theorem overall_score_above_overall_average
    (hr technical : option RoundEvaluation) :
  Forall (fun x => (0 <= x)%Q) (present_averages hr technical) ->
  (overall_average (_create_interview_summary hr technical)
   <= overall_score (_create_overall_assessment hr technical))%Q.
Proof.
  intros Hpos. unfold present_averages in Hpos.
  unfold _create_overall_assessment, assessment_scores, truthy.
  destruct hr as [h|], technical as [t|]; simpl in *;
    repeat match goal with
      | H : Forall _ (_ :: _) |- _ => apply Forall_cons in H as [? H]
      end;
    repeat match goal with
      | |- context [Qeq_bool ?x 0] =>
          let Hz := fresh "Hz" in
          destruct (Qeq_bool x 0) eqn:Hz;
          [apply Qeq_bool_iff in Hz | clear Hz]
      end;
    simpl; unfold sum_over_len, sum; simpl;
    unfold Qdiv;
    change (/ inject_Z (Z.of_nat 2))%Q with (1 # 2)%Q;
    change (/ inject_Z (Z.of_nat 1))%Q with 1%Q;
    lra.

Qed.

Lemma overall_score_above_overall_average_witness :
  let hr := Some {| evaluations := []; average_score := 0;
                    total_questions := 4; overall_feedback := "";
                    performance_level := "Needs Improvement" |} in
  let technical := Some {| evaluations := []; average_score := 8.0;
                           total_questions := 5; overall_feedback := "";
                           performance_level := "Good" |} in
  (overall_average (_create_interview_summary hr technical)
   <= overall_score (_create_overall_assessment hr technical))%Q.
Proof.
  intros hr technical.
  apply (overall_score_above_overall_average hr technical).
  apply Forall_cons. split; [simpl; lra|].
  apply Forall_cons. split; [simpl; lra|].
  apply Forall_nil. exact I.
Defined.

End ReportGeneratorMore.

Module ResumeParserMore.

Import Py Spec ResumeParser PyFacts PyMore ResumeParserFacts.

Lemma scan_line_strip st raw : scan_line st (strip raw) = scan_line st raw.
Proof. unfold scan_line. now rewrite strip_idem. Qed.

Lemma scan_line_blank st raw : strip raw = "" -> scan_line st raw = st.
Proof. intros H. unfold scan_line. rewrite H. now destruct st as [[? ?] ?]. Qed.

Lemma scan_lines_content st lines :
  scan_lines st (content_of lines) = scan_lines st lines.
Proof.
  revert st. induction lines as [|raw lines IH]; intros st; [reflexivity|].
  unfold content_of, scan_lines in *. simpl. rewrite filter_cons.
  destruct (decide (strip raw <> "")) as [Hne|He].
  - simpl. rewrite scan_line_strip. apply IH.
  - apply dec_stable in He. rewrite (scan_line_blank st raw He). apply IH.
Qed.

(** X14.  The section parser reads a resume through its trimmed
    non-blank lines only: two texts with the same trimmed non-blank lines
    give the same sections. *)
Theorem parse_sections_trimmed_lines (text1 text2 : string) :
  content_of (split LF text1) = content_of (split LF text2) ->
  _parse_sections text1 = _parse_sections text2.
Proof.
  intros H. unfold _parse_sections, parse_section_lines.
  rewrite <- (scan_lines_content _ (split LF text1)), H.
  now rewrite scan_lines_content.
Qed.

Lemma parse_sections_trimmed_lines_witness :
  _parse_sections
    (join (String LF "") ["  SKILLS  "; ""; "  Python "; "   "; "Go"])
  = _parse_sections (join (String LF "") ["SKILLS"; "Python"; "Go"]).
Proof.
  apply parse_sections_trimmed_lines. vm_compute. reflexivity.
Defined.

(** ** Which headers can be detected *)

Lemma header_matches_suffix line a b :
  header_matches line (a ++ b) = true -> header_matches line b = true.
Proof.
  unfold header_matches. intros H.
  apply andb_true_iff in H as [Hc Hn]. rewrite Hn, andb_true_r.
  rewrite lower_app in Hc. exact (contains_suffix _ _ _ Hc).
Qed.

Lemma detect_header_reachable line header :
  detect_header line = Some header -> header ∈ reachable_headers.
Proof.
  unfold detect_header, section_headers. cbn [List.find].
  pose proof (header_matches_suffix line "work " "experience") as Hwork.
  pose proof (header_matches_suffix line "technical " "skills") as Htech.
  pose proof (header_matches_suffix line "personal " "projects") as Hpers.
  change ("work " ++ "experience") with "work experience" in Hwork.
  change ("technical " ++ "skills") with "technical skills" in Htech.
  change ("personal " ++ "projects") with "personal projects" in Hpers.
  repeat match goal with
    | |- context [if header_matches line ?h then _ else _] =>
        let H := fresh "Hm" in
        destruct (header_matches line h) eqn:H
    end;
    intros [= <-];
    try (specialize (Hwork eq_refl); discriminate Hwork);
    try (specialize (Htech eq_refl); discriminate Htech);
    try (specialize (Hpers eq_refl); discriminate Hpers);
    apply (bool_decide_unpack _); vm_compute; exact I.
Qed.

Lemma reachable_headers_lower header :
  header ∈ reachable_headers -> lower header = header.
Proof.
  unfold reachable_headers. intros H.
  repeat (apply elem_of_cons in H as [->|H]; [reflexivity|]).
  now apply elem_of_nil in H.
Qed.

Lemma reachable_headers_not_other header :
  header ∈ reachable_headers -> header <> "other".
Proof.
  unfold reachable_headers. intros H.
  repeat (apply elem_of_cons in H as [->|H]; [discriminate|]).
  now apply elem_of_nil in H.
Qed.

(** ** What the sections hold *)

Lemma save_section_ok content sections current_section current_content :
  state_ok content (sections, current_section, current_content) ->
  well_formed content
    (save_section sections current_section current_content).
Proof.
  intros (Hwf & Hkey & Hc). unfold save_section.
  destruct current_content as [|l ls]; [exact Hwf|].
  intros key value Hlook.
  destruct (decide (current_section = key)) as [->|Hne].
  - rewrite lookup_insert_eq in Hlook. injection Hlook as <-.
    split; [exact Hkey|]. exists (l :: ls). auto.
  - rewrite lookup_insert_ne in Hlook by exact Hne. now apply Hwf.
Qed.

Lemma scan_line_ok content st raw :
  strip raw <> "" -> strip raw ∈ content ->
  state_ok content st -> state_ok content (scan_line st raw).
Proof.
  intros Hne Hin Hst. destruct st as [[sections cur] c].
  unfold scan_line. apply is_empty_false in Hne as He. rewrite He.
  destruct (detect_header (strip raw)) as [header|] eqn:Hdet.
  - split; [now apply save_section_ok|]. split; [|apply Forall_nil; exact I].
    right. apply detect_header_reachable in Hdet.
    now rewrite reachable_headers_lower.
  - destruct Hst as (Hwf & Hkey & Hc).
    split; [exact Hwf|]. split; [exact Hkey|].
    apply Forall_app. split; [exact Hc|].
    apply Forall_cons. split; [auto | apply Forall_nil; exact I].
Qed.

Lemma scan_lines_ok content lines : forall st,
  content_of lines ⊆ content ->
  state_ok content st -> state_ok content (scan_lines st lines).
Proof.
  induction lines as [|raw lines IH]; intros st Hsub Hst; [exact Hst|].
  unfold scan_lines in *. simpl. rewrite content_of_cons in Hsub.
  destruct (is_empty (strip raw)) eqn:He.
  - apply is_empty_true in He. rewrite (scan_line_blank st raw He).
    now apply IH.
  - apply is_empty_false in He. apply IH.
    + intros x Hx. apply Hsub. now apply list_elem_of_further.
    + apply scan_line_ok; [exact He | | exact Hst].
      apply Hsub, list_elem_of_here.
Qed.

Lemma parse_sections_well_formed text :
  well_formed (content_of (split LF text)) (_parse_sections text).
Proof.
  unfold _parse_sections, parse_section_lines.
  pose proof (scan_lines_ok (content_of (split LF text)) (split LF text)
                (∅, "other", []) ltac:(reflexivity)) as Hok.
  destruct (scan_lines _ _) as [[sections cur] c].
  apply save_section_ok, Hok.
  split; [|split; [now left | apply Forall_nil; exact I]].
  intros key value Hlook. now rewrite lookup_empty in Hlook.
Qed.

(** X15.  Every block that the section parser stores is the join, by line
    feeds, of a non-empty list of trimmed non-blank lines of the text, none
    of which is detected as a header: no entry is empty and no header line
    ends up in a block. *)
Theorem parse_sections_blocks (text key value : string) :
  _parse_sections text !! key = Some value ->
  exists block,
    block <> []
    /\ value = join (String LF "") block
    /\ Forall (fun line => line ∈ content_of (split LF text)
                           /\ detect_header line = None) block.
Proof.
  intros Hlook. exact (proj2 (parse_sections_well_formed text _ _ Hlook)).
Qed.

Lemma parse_sections_blocks_witness :
  exists block,
    block <> []
    /\ "Python" = join (String LF "") block
    /\ Forall (fun line =>
                 line ∈ content_of
                          (split LF (join (String LF "") ["Skills"; "Python"]))
                 /\ detect_header line = None) block.
Proof.
  apply (parse_sections_blocks
           (join (String LF "") ["Skills"; "Python"]) "skills" "Python").
  vm_compute. reflexivity.
Defined.

(** X16.  The keys of the sections are [other] and twelve of the fifteen
    header phrases. [work experience], [technical skills] and
    [personal projects] are never keys: a line that contains one of them
    contains [experience], [skills] or [projects], which comes first in the
    vocabulary. *)
Theorem parse_sections_keys (text key : string) :
  is_Some (_parse_sections text !! key) ->
  (key = "other" \/ key ∈ reachable_headers)
  /\ key <> "work experience"
  /\ key <> "technical skills"
  /\ key <> "personal projects".
Proof.
  intros [value Hlook].
  destruct (parse_sections_well_formed text _ _ Hlook) as [Hkey _].
  split; [exact Hkey|].
  destruct Hkey as [->|Hin]; [repeat split; discriminate|].
  unfold reachable_headers in Hin.
  repeat (apply elem_of_cons in Hin as [->|Hin];
          [repeat split; discriminate|]).
  now apply elem_of_nil in Hin.
Qed.

Lemma parse_sections_keys_witness :
  "experience" = "other" \/ "experience" ∈ reachable_headers.
Proof.
  apply (parse_sections_keys
           (join (String LF "") ["Work Experience"; "ACME, 2019-2023"])
           "experience").
  exists "ACME, 2019-2023". vm_compute. reflexivity.
Defined.

(** X17.  The entry [other] holds the lines that come before the first
    header: it is their trimmed non-blank lines joined by line feeds, and
    it is absent when there are none. *)
Theorem parse_sections_other
    (text : string) (preamble rest : list string) :
  split LF text = (preamble ++ rest)%list ->
  Forall plain_line preamble ->
  (rest = [] \/ exists h rest', rest = h :: rest' /\ ~ plain_line h) ->
  _parse_sections text !! "other"
  = match content_of preamble with
    | [] => None
    | block => Some (join (String LF "") block)
    end.
Proof.
  intros Hsplit Hpre Hrest.
  unfold _parse_sections, parse_section_lines. rewrite Hsplit.
  rewrite scan_lines_app, scan_lines_plain by exact Hpre. simpl app.
  assert (Hsave : save_section ∅ "other" (content_of preamble) !! "other"
                  = match content_of preamble with
                    | [] => None
                    | block => Some (join (String LF "") block)
                    end).
  { unfold save_section. destruct (content_of preamble).
    - apply lookup_empty.
    - apply lookup_insert_eq. }
  destruct Hrest as [-> | (h & rest' & -> & Hh)].
  - simpl. exact Hsave.
  - unfold plain_line in Hh.
    destruct (detect_header (strip h)) as [header|] eqn:Hdet;
      [|contradiction].
    change (h :: rest') with ([h] ++ rest')%list.
    rewrite scan_lines_app.
    change (scan_lines ?st [h]) with (scan_line st h).
    rewrite (scan_line_header _ _ _ (lower header))
      by (exists header; auto).
    apply detect_header_reachable in Hdet as Hreach.
    destruct (scan_lines _ rest') as [[m1 cur1] c1] eqn:Hscan.
    apply (scan_lines_other_key "other") in Hscan as [Hcur Hlook].
    + rewrite lookup_save_section_ne by exact Hcur.
      now rewrite Hlook.
    + rewrite reachable_headers_lower by exact Hreach.
      now apply reachable_headers_not_other.
    + apply Forall_forall. intros raw _ (header' & Hdet' & Hlow).
      apply detect_header_reachable in Hdet'.
      rewrite reachable_headers_lower in Hlow by exact Hdet'.
      now apply (reachable_headers_not_other header').
Qed.

Lemma parse_sections_other_witness :
  _parse_sections
    (join (String LF "")
       ["Jane Doe"; " jane@example.com "; ""; "Education"; "MIT"])
  !! "other"
  = Some (join (String LF "") ["Jane Doe"; "jane@example.com"]).
Proof.
  refine (parse_sections_other _ ["Jane Doe"; " jane@example.com "; ""]
            ["Education"; "MIT"] _ _ _).
  - vm_compute. reflexivity.
  - apply (bool_decide_unpack _). vm_compute. exact I.
  - right. exists "Education", ["MIT"]. split; [reflexivity|].
    intros H. vm_compute in H. discriminate H.
Defined.

End ResumeParserMore.

Module QuestionGeneratorMore.

Import Py Spec QuestionGenerator PyFacts PyMore QuestionGeneratorFacts.

Lemma rstrip_suffix p r : rstrip (p ++ r) = p ++ r -> rstrip r = r.
Proof.
  induction p as [|c p IH]; [now rewrite append_empty_l|].
  rewrite append_cons. simpl.
  destruct (isspace c && is_empty (rstrip (p ++ r))); [discriminate|].
  intros [= H]. now apply IH.
Qed.

Lemma lstrip_suffix s : exists p, s = p ++ lstrip s.
Proof.
  induction s as [|c s [p IH]]; simpl.
  - now exists "".
  - destruct (isspace c).
    + exists (String c p). now rewrite append_cons, <- IH.
    + now exists "".
Qed.

Lemma strip_fixed s : lstrip s = s -> rstrip s = s -> strip s = s.
Proof. unfold strip. now intros -> ->. Qed.

Lemma strip_parts s : lstrip (strip s) = strip s /\ rstrip (strip s) = strip s.
Proof.
  assert (Hl : lstrip (strip s) = strip s).
  { apply lstrip_id. unfold strip.
    apply rstrip_no_leading, lstrip_no_leading. }
  split; [exact Hl|]. unfold strip. apply rstrip_idem.
Qed.

(** Removing the numbering of a trimmed line leaves a trimmed line. *)
Lemma strip_numbering_trimmed raw :
  strip (strip_numbering (strip raw)) = strip_numbering (strip raw).
Proof.
  rewrite strip_numbering_greedy. unfold without_numbering, span_digits.
  destruct (span isdigit (strip raw)) as [d r] eqn:Hspan.
  apply span_spec in Hspan as (Heq & _ & _).
  destruct (strip_parts raw) as [Hl Hr].
  destruct (is_empty d); [apply strip_idem|].
  destruct r as [|c r']; [apply strip_idem|].
  destruct (Ascii.eqb c "."); [|apply strip_idem].
  apply strip_fixed.
  - apply lstrip_id, lstrip_no_leading.
  - destruct (lstrip_suffix r') as [p Hp].
    rewrite Heq in Hr.
    apply rstrip_suffix in Hr.
    change (String c r') with (String c "" ++ r') in Hr.
    apply rstrip_suffix in Hr. rewrite Hp in Hr.
    exact (rstrip_suffix _ _ Hr).
Qed.

(** X18.  Every question that the parser returns has the requested type,
    a text longer than ten characters and without surrounding whitespace,
    and the difficulty and category computed from that text; there are at
    most as many questions as non-blank lines in the response. *)
Theorem parse_questions_records (questions_text question_type : string) :
  Forall (fun q =>
            QuestionGenerator.question_type q = question_type
            /\ 10 < String.length (question q)
            /\ strip (question q) = question q
            /\ difficulty q = _assess_difficulty (question q)
            /\ category q = _categorize_question (question q) question_type)
         (_parse_questions questions_text question_type)
  /\ length (_parse_questions questions_text question_type)
     <= length (content_of (split LF questions_text)).
Proof.
  unfold _parse_questions. rewrite fold_parse_question_lines. simpl.
  split.
  - apply Forall_fmap, Forall_forall. intros line Hin. simpl.
    apply list_elem_of_filter in Hin as [Hlong Hin].
    apply list_elem_of_fmap in Hin as (trimmed & -> & Hin).
    apply list_elem_of_filter in Hin as [_ Hin].
    apply list_elem_of_fmap in Hin as (raw & -> & _).
    repeat split; [exact Hlong | apply strip_numbering_trimmed].
  - rewrite length_map. etransitivity; [apply length_filter|].
    now rewrite length_map.
Qed.


(** X19.  Difficulty and category do not depend on the case of the
    question: a question and its lower-case form are classified alike. *)
Theorem classification_ignores_case (question question_type : string) :
  _assess_difficulty (lower question) = _assess_difficulty question
  /\ _categorize_question (lower question) question_type
     = _categorize_question question question_type.
Proof.
  unfold _assess_difficulty, _categorize_question.
  now rewrite !lower_idem.
Qed.

End QuestionGeneratorMore.

Module RegexFacts.

Import Py Spec PyRegex PyFacts PyMore.

Ltac conclude :=
  rewrite ?append_empty_r, ?append_empty_l;
  repeat split; try reflexivity; try assumption; eauto.

Lemma sound_weaken {A} (r : re A) (L L' : string -> Prop) :
  sound r L -> (forall m, L m -> L' m) -> sound r L'.
Proof.
  intros Hr HL acc s k x Hx.
  destruct (Hr acc s k x Hx) as (m & rest & Hs & Hm & Hk).
  exists m, rest. auto.
Qed.

Lemma sound_char {A} p :
  sound (@re_char A p) (fun m => exists c, m = String c "" /\ p c = true).
Proof.
  intros acc s k x. unfold re_char.
  destruct s as [|c s]; [discriminate|].
  destruct (p c) eqn:Hc; [|discriminate].
  intros Hk. exists (String c ""), s. split; [reflexivity|]. eauto.
Qed.

Lemma sound_star {A} p :
  sound (@re_star_char A p) (fun m => all_chars p m = true).
Proof.
  intros acc s k. revert acc.
  induction s as [|c s IH]; intros acc x; simpl.
  - intros Hk. exists "", "". conclude.
  - destruct (p c) eqn:Hc.
    + destruct (re_star_char p (acc ++ String c "") s k) as [y|] eqn:Hrec.
      * intros [= <-].
        destruct (IH _ _ Hrec) as (m & rest & -> & Hm & Hk).
        exists (String c m), rest. rewrite append_cons. simpl.
        rewrite Hc, Hm. repeat split.
        now rewrite append_assoc, append_cons, append_empty_l in Hk.
      * intros Hk. exists "", (String c s). conclude.
    + intros Hk. exists "", (String c s). conclude.
Qed.

Lemma sound_seq {A} (r1 r2 : re A) L1 L2 :
  sound r1 L1 -> sound r2 L2 ->
  sound (re_seq r1 r2)
    (fun m => exists m1 m2, m = m1 ++ m2 /\ L1 m1 /\ L2 m2).
Proof.
  intros H1 H2 acc s k x. unfold re_seq. intros Hx.
  destruct (H1 _ _ _ _ Hx) as (m1 & rest1 & -> & Hm1 & Hk1).
  destruct (H2 _ _ _ _ Hk1) as (m2 & rest2 & -> & Hm2 & Hk2).
  exists (m1 ++ m2), rest2. rewrite !append_assoc in *. eauto 7.
Qed.

Lemma sound_plus {A} p :
  sound (@re_plus_char A p) (fun m => all_chars p m = true /\ m <> "").
Proof.
  eapply sound_weaken.
  - exact (sound_seq (re_char p) (re_star_char p) _ _
             (sound_char p) (sound_star p)).
  - intros m (m1 & m2 & -> & (c & -> & Hc) & Hm2).
    rewrite append_cons, append_empty_l. simpl. rewrite Hc, Hm2.
    split; [reflexivity | discriminate].
Qed.

Lemma sound_opt {A} (r : re A) L :
  sound r L -> sound (re_opt r) (fun m => L m \/ m = "").
Proof.
  intros Hr acc s k x. unfold re_opt.
  destruct (r acc s k) as [y|] eqn:Hy.
  - intros [= <-]. destruct (Hr _ _ _ _ Hy) as (m & rest & Hs & Hm & Hk).
    exists m, rest. auto.
  - intros Hk. exists "", s. conclude.
Qed.

Lemma sound_lit {A} l : sound (@re_lit A l) (fun m => m = l).
Proof.
  intros acc s k x. unfold re_lit.
  destruct (strip_prefix l s) as [rest|] eqn:Hs; [|discriminate].
  intros Hk. exists l, rest. split; [now apply strip_prefix_app|]. auto.
Qed.

Lemma sound_lit_ci {A} l :
  sound (@re_lit_ci A l) (fun m => lower m = lower l).
Proof.
  induction l as [|a l IH]; intros acc s k x; simpl.
  - intros Hk. exists "", s. conclude.
  - destruct s as [|b s]; [discriminate|].
    destruct (Ascii.eqb (lower_char a) (lower_char b)) eqn:Hab;
      [|discriminate].
    apply Ascii.eqb_eq in Hab. intros Hx.
    destruct (IH _ _ _ _ Hx) as (m & rest & -> & Hm & Hk).
    exists (String b m), rest. rewrite append_cons. simpl.
    rewrite Hm, Hab. repeat split.
    now rewrite append_assoc, append_cons, append_empty_l in Hk.
Qed.

Lemma sound_boundary {A} before :
  sound (@re_boundary A before) (fun m => m = "").
Proof.
  intros acc s k x. unfold re_boundary.
  destruct (xorb _ _); [|discriminate].
  intros Hk. exists "", s. conclude.
Qed.

Lemma sound_alts_lit_ci {A} alternatives :
  sound (@re_alts A (map re_lit_ci alternatives))
    (fun m => exists l, l ∈ alternatives /\ lower m = lower l).
Proof.
  induction alternatives as [|l ls IH]; intros acc s k x; simpl.
  - discriminate.
  - destruct (re_lit_ci l acc s k) as [y|] eqn:Hy.
    + intros [= <-].
      destruct (sound_lit_ci l _ _ _ _ Hy) as (m & rest & Hs & Hm & Hk).
      exists m, rest. split; [exact Hs|]. split; [|exact Hk].
      exists l. split; [apply list_elem_of_here | exact Hm].
    + intros Hx. destruct (IH _ _ _ _ Hx) as (m & rest & Hs & (l' & Hin & Hm) & Hk).
      exists m, rest. split; [exact Hs|]. split; [|exact Hk].
      exists l'. split; [now apply list_elem_of_further | exact Hm].
Qed.

Lemma match_here_sound pattern L before s m :
  (forall b, sound (pattern b) L) ->
  re_match_here pattern before s = Some m ->
  L m /\ exists rest, s = m ++ rest.
Proof.
  intros Hp Hm. unfold re_match_here in Hm.
  destruct (Hp before _ _ _ _ Hm) as (m' & rest & -> & HL & Hk).
  rewrite append_empty_l in Hk. injection Hk as <-. eauto.
Qed.

(** What [re.search] returns is a string of the language of the pattern
    that occurs in the text. *)
Lemma search_sound pattern L :
  (forall b, sound (pattern b) L) ->
  forall s before m,
    re_search pattern before s = Some m -> L m /\ occurs_in m s.
Proof.
  intros Hp. induction s as [|c s IH]; intros before m.
  - cbn [re_search].
    destruct (re_match_here pattern before "") as [m'|] eqn:Hm;
      [|discriminate].
    intros [= <-].
    destruct (match_here_sound _ _ _ _ _ Hp Hm) as (HL & rest & Hs).
    split; [exact HL|]. exists "", rest. now rewrite append_empty_l.
  - cbn [re_search].
    destruct (re_match_here pattern before (String c s)) as [m'|] eqn:Hm.
    + intros [= <-].
      destruct (match_here_sound _ _ _ _ _ Hp Hm) as (HL & rest & Hs).
      split; [exact HL|]. exists "", rest. now rewrite append_empty_l.
    + intros Hrec. destruct (IH _ _ Hrec) as (HL & pre & rest & ->).
      split; [exact HL|]. exists (String c pre), rest.
      now rewrite append_cons.
Qed.

(** What [re.findall] returns are strings of the language of the pattern
    that occur in the text. *)
Lemma findall_sound pattern L :
  (forall b, sound (pattern b) L) ->
  forall s skip before m,
    m ∈ re_findall_from pattern skip before s -> L m /\ occurs_in m s.
Proof.
  intros Hp. induction s as [|c s IH]; intros skip before m.
  - cbn [re_findall_from]. intros Hin. now apply elem_of_nil in Hin.
  - cbn [re_findall_from].
    assert (Hlater : forall skip' b,
               m ∈ re_findall_from pattern skip' b s ->
               L m /\ occurs_in m (String c s)).
    { intros skip' b Hin. destruct (IH _ _ _ Hin) as (HL & pre & rest & ->).
      split; [exact HL|]. exists (String c pre), rest.
      now rewrite append_cons. }
    destruct skip as [|n]; [|apply Hlater].
    destruct (re_match_here pattern before (String c s)) as [m'|] eqn:Hm;
      [|apply Hlater].
    intros Hin. apply elem_of_cons in Hin as [->|Hin]; [|eapply Hlater, Hin].
    destruct (match_here_sound _ _ _ _ _ Hp Hm) as (HL & rest & Hs).
    split; [exact HL|]. exists "", rest. now rewrite append_empty_l.
Qed.

Lemma count_chars_app p a b :
  count_chars p (a ++ b) = count_chars p a + count_chars p b.
Proof.
  induction a as [|c a IH]; [reflexivity|].
  rewrite append_cons. simpl. rewrite IH. lia.
Qed.

Lemma occurs_in_count p m text :
  occurs_in m text -> count_chars p m <= count_chars p text.
Proof.
  intros (pre & rest & ->). rewrite !count_chars_app. lia.
Qed.

End RegexFacts.

Module ResumeReaderFacts.

Import Py Spec PyRegex ResumeReader PyFacts PyMore RegexFacts.

Lemma length_app a b :
  String.length (a ++ b) = String.length a + String.length b.
Proof.
  induction a as [|c a IH]; [reflexivity|].
  rewrite append_cons. simpl. now rewrite IH.
Qed.

(** What the e-mail pattern matches has the shape of an address. *)
Lemma email_pattern_sound before :
  sound (@email_pattern string before) email_shape.
Proof.
  unfold email_pattern. eapply sound_weaken.
  - apply sound_seq; [apply sound_boundary|].
    apply sound_seq; [apply sound_plus|].
    apply sound_seq; [apply sound_lit|].
    apply sound_seq; [apply sound_plus|].
    apply sound_seq; [apply sound_lit|].
    apply sound_seq; [apply sound_char|].
    apply sound_seq; [apply sound_plus | apply sound_boundary].
  - intros m (m0 & r0 & -> & -> & local & r1 & -> & [Hlocal Hlne]
              & at_ & r2 & -> & -> & domain & r3 & -> & [Hdomain Hdne]
              & dot & r4 & -> & -> & t1 & r5 & -> & (c & -> & Hc)
              & t2 & e & -> & [Ht2 Ht2ne] & ->).
    exists local, domain, (String c "" ++ t2).
    rewrite !append_empty_l, !append_empty_r.
    repeat split; try assumption.
    + rewrite length_app. simpl. destruct t2; [contradiction | simpl; lia].
    + rewrite all_chars_app. simpl. now rewrite Hc, Ht2.
Qed.

Lemma separator_not_digit c : phone_separator c = true -> isdigit c = false.
Proof.
  destruct c as [[] [] [] [] [] [] [] []]; vm_compute; congruence.
Qed.

Lemma sound_seq_digits {A} (r1 r2 : re A) a b :
  sound r1 (digits_are a) -> sound r2 (digits_are b) ->
  sound (re_seq r1 r2) (digits_are (a + b)).
Proof.
  intros H1 H2. eapply sound_weaken; [exact (sound_seq _ _ _ _ H1 H2)|].
  unfold digits_are. intros m (m1 & m2 & -> & <- & <-).
  apply count_chars_app.
Qed.

Lemma sound_digit {A} : sound (@re_char A isdigit) (digits_are 1).
Proof.
  eapply sound_weaken; [apply sound_char|].
  unfold digits_are. intros m (c & -> & Hc). simpl. now rewrite Hc.
Qed.

Lemma sound_opt_lit {A} l :
  count_chars isdigit l = 0 -> sound (re_opt (@re_lit A l)) (digits_are 0).
Proof.
  intros Hl. eapply sound_weaken; [apply sound_opt, sound_lit|].
  unfold digits_are. intros m [->| ->]; [exact Hl | reflexivity].
Qed.

Lemma sound_opt_separator {A} :
  sound (re_opt (@re_char A phone_separator)) (digits_are 0).
Proof.
  eapply sound_weaken; [apply sound_opt, sound_char|].
  unfold digits_are. intros m [(c & -> & Hc)| ->]; [|reflexivity].
  simpl. now rewrite (separator_not_digit c Hc).
Qed.

Lemma sound_three_digits {A} : sound (@three_digits A) (digits_are 3).
Proof.
  unfold three_digits.
  apply (sound_seq_digits _ _ 1 2); [apply sound_digit|].
  apply (sound_seq_digits _ _ 1 1); apply sound_digit.
Qed.

Lemma sound_four_digits {A} : sound (@four_digits A) (digits_are 4).
Proof.
  unfold four_digits.
  apply (sound_seq_digits _ _ 1 3);
    [apply sound_digit | apply sound_three_digits].
Qed.

(** What the phone pattern matches holds ten digits, or eleven with the
    leading 1. *)
Lemma phone_pattern_sound before :
  sound (@phone_pattern string before)
    (fun m => count_chars isdigit m = 10 \/ count_chars isdigit m = 11).
Proof.
  unfold phone_pattern. eapply sound_weaken.
  - apply sound_seq.
    + apply sound_opt.
      apply (sound_seq_digits _ _ 0 1); [apply sound_opt_lit; reflexivity|].
      apply (sound_seq_digits _ _ 1 0); [|apply sound_opt_separator].
      eapply sound_weaken; [apply sound_lit|]. now intros m ->.
    + apply (sound_seq_digits _ _ 0 10); [apply sound_opt_lit; reflexivity|].
      apply (sound_seq_digits _ _ 3 7); [apply sound_three_digits|].
      apply (sound_seq_digits _ _ 0 7); [apply sound_opt_lit; reflexivity|].
      apply (sound_seq_digits _ _ 0 7); [apply sound_opt_separator|].
      apply (sound_seq_digits _ _ 3 4); [apply sound_three_digits|].
      apply (sound_seq_digits _ _ 0 4); [apply sound_opt_separator|].
      apply sound_four_digits.
  - unfold digits_are. intros m (m1 & m2 & -> & [H1| ->] & H2).
    + right. rewrite count_chars_app, H1, H2. reflexivity.
    + left. now rewrite append_empty_l.
Qed.

Lemma skill_pattern_sound alternatives before :
  sound (@skill_pattern string alternatives before)
    (fun m => exists l, l ∈ alternatives /\ lower m = lower l).
Proof.
  unfold skill_pattern. eapply sound_weaken.
  - apply sound_seq; [apply sound_boundary|].
    apply sound_seq; [apply sound_alts_lit_ci | apply sound_boundary].
  - intros m (m0 & r0 & -> & -> & m1 & e & -> & Hm1 & ->).
    now rewrite append_empty_l, append_empty_r.
Qed.

Lemma lookup_email text :
  extract_contact_info text !! "email" = re_search email_pattern None text.
Proof.
  unfold extract_contact_info.
  destruct (re_search phone_pattern None text);
    rewrite ?lookup_insert_ne by discriminate;
    destruct (re_search email_pattern None text);
    rewrite ?lookup_insert_eq, ?lookup_empty; reflexivity.
Qed.

Lemma lookup_phone text :
  extract_contact_info text !! "phone" = re_search phone_pattern None text.
Proof.
  unfold extract_contact_info.
  destruct (re_search phone_pattern None text);
    rewrite ?lookup_insert_eq; [reflexivity|].
  destruct (re_search email_pattern None text);
    rewrite ?lookup_insert_ne by discriminate; apply lookup_empty.
Qed.

Lemma lookup_contact_other text key :
  key <> "email" -> key <> "phone" ->
  extract_contact_info text !! key = None.
Proof.
  intros He Hp. unfold extract_contact_info.
  destruct (re_search phone_pattern None text);
    destruct (re_search email_pattern None text);
    rewrite ?lookup_insert_ne by congruence; apply lookup_empty.
Qed.

(** X20.  The contact information has at most two entries. An [email]
    entry occurs in the text and has the shape local@domain.tld, with a
    non-empty local part and domain and at least two characters after the
    last dot; a [phone] entry occurs in the text and holds ten digits, or
    eleven. *)
Theorem contact_info_entries (text key value : string) :
  extract_contact_info text !! key = Some value ->
  (key = "email" /\ email_shape value /\ occurs_in value text)
  \/ (key = "phone"
      /\ (count_chars isdigit value = 10 \/ count_chars isdigit value = 11)
      /\ occurs_in value text).
Proof.
  intros Hlook.
  destruct (decide (key = "email")) as [->|He].
  - left. rewrite lookup_email in Hlook.
    destruct (search_sound email_pattern _ email_pattern_sound _ _ _ Hlook).
    auto.
  - destruct (decide (key = "phone")) as [->|Hp].
    + right. rewrite lookup_phone in Hlook.
      destruct (search_sound phone_pattern _ phone_pattern_sound _ _ _ Hlook).
      auto.
    + rewrite lookup_contact_other in Hlook by assumption. discriminate.
Qed.

Lemma contact_info_entries_witness :
  email_shape "john@example.com"
  /\ occurs_in "john@example.com"
       (join (String LF "") ["John Doe"; "john@example.com"; "555-123-4567"]).
Proof.
  destruct (contact_info_entries
              (join (String LF "")
                 ["John Doe"; "john@example.com"; "555-123-4567"])
              "email" "john@example.com")
    as [(_ & Hshape & Hocc) | (Hkey & _)].
  - vm_compute. reflexivity.
  - split; assumption.
  - discriminate Hkey.
Defined.

Lemma email_shape_at m :
  email_shape m -> 1 <= count_chars (Ascii.eqb "@") m.
Proof.
  intros (local & domain & tld & -> & _).
  rewrite count_chars_app, append_cons, append_empty_l. simpl. lia.
Qed.

(** X21.  A text without the character [@] gives no [email] entry, and a
    text with fewer than ten digits gives no [phone] entry. *)
Theorem contact_info_absent (text : string) :
  (count_chars (Ascii.eqb "@") text = 0 ->
   extract_contact_info text !! "email" = None)
  /\ (count_chars isdigit text < 10 ->
      extract_contact_info text !! "phone" = None).
Proof.
  split.
  - intros Hnone. rewrite lookup_email.
    destruct (re_search email_pattern None text) as [m|] eqn:Hs;
      [|reflexivity].
    destruct (search_sound email_pattern _ email_pattern_sound _ _ _ Hs)
      as [Hshape Hocc].
    apply email_shape_at in Hshape.
    apply (occurs_in_count (Ascii.eqb "@")) in Hocc. lia.
  - intros Hfew. rewrite lookup_phone.
    destruct (re_search phone_pattern None text) as [m|] eqn:Hs;
      [|reflexivity].
    destruct (search_sound phone_pattern _ phone_pattern_sound _ _ _ Hs)
      as [Hdigits Hocc].
    apply (occurs_in_count isdigit) in Hocc. lia.
Qed.

Lemma contact_info_absent_witness :
  extract_contact_info "Jane Doe, Berlin, 030 1234" = ∅.
Proof.
  destruct (contact_info_absent "Jane Doe, Berlin, 030 1234")
    as [Hemail Hphone].
  apply map_eq. intros key. rewrite lookup_empty.
  destruct (decide (key = "email")) as [->|He];
    [apply Hemail; reflexivity|].
  destruct (decide (key = "phone")) as [->|Hp];
    [apply Hphone; vm_compute; lia|].
  now apply lookup_contact_other.
Defined.

Lemma elem_of_skills_fold (text : string) groups : forall (init : gset string) s,
  s ∈ fold_left
        (fun skills alternatives =>
           skills ∪ list_to_set (re_findall (skill_pattern alternatives) text))
        groups init ->
  s ∈ init
  \/ exists alternatives,
       alternatives ∈ groups
       /\ s ∈ re_findall (skill_pattern alternatives) text.
Proof.
  induction groups as [|g groups IH]; intros init s; simpl.
  - auto.
  - intros Hin. apply IH in Hin as [Hin|(alts & Hg & Hin)].
    + apply elem_of_union in Hin as [Hin|Hin]; [now left|].
      apply elem_of_list_to_set in Hin. right. exists g.
      split; [apply list_elem_of_here | exact Hin].
    + right. exists alts. split; [now apply list_elem_of_further | exact Hin].
Qed.

Lemma elem_of_concat (x : string) (ls : list (list string)) l :
  l ∈ ls -> x ∈ l -> x ∈ concat ls.
Proof.
  intros Hl Hx. apply list_elem_of_In, in_concat.
  exists l. split; now apply list_elem_of_In.
Qed.

(** X22.  Every skill that is extracted occurs in the text as it is
    returned, and is, up to case, one of the terms of the vocabulary. *)
Theorem skills_from_vocabulary (text s : string) :
  s ∈ extract_skills text ->
  occurs_in s text
  /\ exists term, term ∈ concat skill_groups /\ lower s = lower term.
Proof.
  intros Hin. unfold extract_skills in Hin.
  apply elem_of_skills_fold in Hin as [Hin|(alts & Hg & Hin)].
  - now apply elem_of_empty in Hin.
  - unfold re_findall in Hin.
    destruct (findall_sound _ _ (skill_pattern_sound alts) _ _ _ _ Hin)
      as [(term & Hterm & Hlow) Hocc].
    split; [exact Hocc|]. exists term. split; [|exact Hlow].
    now apply (elem_of_concat _ _ alts).
Qed.

Lemma skills_from_vocabulary_witness :
  occurs_in "PYTHON" "PYTHON and docker"
  /\ exists term, term ∈ concat skill_groups /\ lower "PYTHON" = lower term.
Proof.
  apply (skills_from_vocabulary "PYTHON and docker" "PYTHON").
  apply (bool_decide_unpack _). vm_compute. exact I.
Defined.


Lemma prefix_append p s : String.prefix p (p ++ s) = true.
Proof.
  induction p as [|c p IH]; [now destruct s|].
  rewrite append_cons. cbn [String.prefix].
  destruct (ascii_dec c c); [exact IH | contradiction].
Qed.

Section WithFiles.

Variable pdf_pages : string -> result (list string).
Variable docx_paragraphs : string -> result (list string).

Lemma extracted_text_trimmed extract file_path text :
  extract = extract_text_from_pdf pdf_pages
  \/ extract = extract_text_from_docx docx_paragraphs ->
  extract file_path = Ok text -> strip text = text.
Proof.
  intros [-> | ->];
    unfold extract_text_from_pdf, extract_text_from_docx, wrap.
  - destruct (pdf_pages file_path); [|discriminate].
    intros [= <-]. apply strip_idem.
  - destruct (docx_paragraphs file_path); [|discriminate].
    intros [= <-]. apply strip_idem.
Qed.

Lemma parse_resume_ok path data :
  parse_resume pdf_pages docx_paragraphs path = Ok data ->
  supported path = true
  /\ file_path data = path
  /\ strip (raw_text data) = raw_text data
  /\ raw_text data <> ""
  /\ skills data = extract_skills (raw_text data)
  /\ contact_info data = extract_contact_info (raw_text data)
  /\ sections data = ResumeParser._parse_sections (raw_text data).
Proof.
  unfold supported, parse_resume.
  destruct (endswith ".pdf" (lower path)) eqn:Hpdf.
  - destruct (extract_text_from_pdf pdf_pages path) as [text|msg] eqn:Hex;
      [|discriminate].
    pose proof (extracted_text_trimmed _ _ _ (or_introl eq_refl) Hex)
      as Htrim.
    unfold wrap. destruct (is_empty (strip text)) eqn:He; [discriminate|].
    intros [= <-]. simpl. rewrite Htrim in He.
    apply is_empty_false in He. auto 10.
  - destruct (endswith ".docx" (lower path) || endswith ".doc" (lower path))
      eqn:Hdoc; [|discriminate].
    destruct (extract_text_from_docx docx_paragraphs path)
      as [text|msg] eqn:Hex; [|discriminate].
    pose proof (extracted_text_trimmed _ _ _ (or_intror eq_refl) Hex)
      as Htrim.
    unfold wrap. destruct (is_empty (strip text)) eqn:He; [discriminate|].
    intros [= <-]. simpl. rewrite Htrim in He.
    apply is_empty_false in He. auto 10.
Qed.

(** X23.  [parse_resume] rejects a path whose extension, in any case, is
    not [.pdf], [.docx] or [.doc], whatever the file holds. When it
    returns, the extension is supported, the raw text is trimmed and not
    empty, and the skills, the contact information and the sections are
    those of the raw text. Every exception it raises starts with
    [Failed to parse resume: ]. *)
Theorem parse_resume_outcome (path : string) :
  (supported path = false ->
   parse_resume pdf_pages docx_paragraphs path
   = Raise ("Failed to parse resume: "
            ++ "Unsupported file format. Please upload PDF or DOCX files."))
  /\ (forall data,
        parse_resume pdf_pages docx_paragraphs path = Ok data ->
        supported path = true
        /\ file_path data = path
        /\ strip (raw_text data) = raw_text data
        /\ raw_text data <> ""
        /\ skills data = extract_skills (raw_text data)
        /\ contact_info data = extract_contact_info (raw_text data)
        /\ sections data = ResumeParser._parse_sections (raw_text data))
  /\ (forall msg,
        parse_resume pdf_pages docx_paragraphs path = Raise msg ->
        startswith "Failed to parse resume: " msg = true).
Proof.
  unfold supported, parse_resume.
  split; [|split].
  - intros Hun. apply orb_false_iff in Hun as [Hun Hdoc].
    apply orb_false_iff in Hun as [Hpdf Hdocx].
    now rewrite Hpdf, Hdocx, Hdoc.
  - intros data Hrun. fold (supported path).
    exact (parse_resume_ok path data Hrun).
  - intros msg. unfold wrap at 1.
    match goal with
    | |- context [match ?e with Ok _ => _ | Raise _ => _ end] =>
        destruct e as [data|msg0]
    end; [discriminate|].
    intros [= <-]. apply prefix_append.
Qed.

End WithFiles.

Lemma parse_resume_outcome_witness :
  parse_resume (fun _ => Ok ["Jane Doe"; "Python"])
    (fun _ => Raise "not a document") "notes.txt"
  = Raise ("Failed to parse resume: "
           ++ "Unsupported file format. Please upload PDF or DOCX files.")
  /\ exists data,
       parse_resume (fun _ => Ok ["Jane Doe"; "Python"])
         (fun _ => Raise "not a document") "Resume.PDF" = Ok data
       /\ raw_text data <> ""
       /\ file_path data = "Resume.PDF".
Proof.
  split.
  - apply (parse_resume_outcome (fun _ => Ok ["Jane Doe"; "Python"])
             (fun _ => Raise "not a document") "notes.txt").
    reflexivity.
  - destruct (parse_resume (fun _ => Ok ["Jane Doe"; "Python"])
                (fun _ => Raise "not a document") "Resume.PDF")
      as [data|msg] eqn:Hrun; [|vm_compute in Hrun; discriminate Hrun].
    exists data. split; [reflexivity|].
    destruct (parse_resume_outcome (fun _ => Ok ["Jane Doe"; "Python"])
                (fun _ => Raise "not a document") "Resume.PDF")
      as (_ & Hok & _).
    destruct (Hok data Hrun) as (_ & Hpath & _ & Hne & _).
    split; assumption.
Defined.

End ResumeReaderFacts.

Module CandidateInfoFacts.

Import Py Spec PyRegex ResumeReader CandidateInfo PyFacts RegexFacts
  ResumeReaderFacts.

(** X24.  The report of a parsed resume never names the candidate: the
    contact information that [parse_resume] builds has no [name] entry, so
    the name is always [Unknown]. The e-mail is an address found in the
    text or [Not provided], and likewise the phone number. *)
Theorem candidate_of_parsed_resume
    (pdf_pages docx_paragraphs : string -> result (list string))
    (path : string) (data : ResumeData) :
  parse_resume pdf_pages docx_paragraphs path = Ok data ->
  let candidate := _extract_candidate_info data in
  name candidate = "Unknown"
  /\ (email candidate = "Not provided"
      \/ (email_shape (email candidate)
          /\ occurs_in (email candidate) (raw_text data)))
  /\ (phone candidate = "Not provided"
      \/ (digits_are 10 (phone candidate) \/ digits_are 11 (phone candidate)))
  /\ candidate_skills candidate = extract_skills (raw_text data).
Proof.
  intros Hrun.
  destruct (parse_resume_ok _ _ _ _ Hrun)
    as (_ & _ & _ & _ & Hskills & Hcontact & _).
  unfold _extract_candidate_info. simpl. rewrite Hcontact, Hskills.
  rewrite lookup_contact_other by discriminate.
  rewrite lookup_email, lookup_phone.
  split; [reflexivity|]. split; [|split; [|reflexivity]].
  - destruct (re_search email_pattern None (raw_text data)) as [m|] eqn:Hs;
      [|now left].
    right. exact (search_sound email_pattern _ email_pattern_sound _ _ _ Hs).
  - destruct (re_search phone_pattern None (raw_text data)) as [m|] eqn:Hs;
      [|now left].
    right.
    exact (proj1 (search_sound phone_pattern _ phone_pattern_sound _ _ _ Hs)).
Qed.

Lemma candidate_of_parsed_resume_witness :
  exists data,
    parse_resume (fun _ => Ok ["Jane Doe"; "jane@example.com"])
      (fun _ => Raise "not a document") "cv.pdf" = Ok data
    /\ name (_extract_candidate_info data) = "Unknown".
Proof.
  destruct (parse_resume (fun _ => Ok ["Jane Doe"; "jane@example.com"])
              (fun _ => Raise "not a document") "cv.pdf")
    as [data|msg] eqn:Hrun; [|vm_compute in Hrun; discriminate Hrun].
  exists data. split; [reflexivity|].
  exact (proj1 (candidate_of_parsed_resume _ _ _ _ Hrun)).
Defined.

End CandidateInfoFacts.
